(** * WikiParser: a depth-bounded crawler of a site's internal article links

    Shallow embedding of [main.py] (the [WikiParser] class, [get_page],
    [save_to_db], [get_links_from_page], [recursive_url_scrap], [main]) and
    of the parts of the Python standard library it calls
    ([urllib.parse], the UTF-8 codec, [re.match] on the seed pattern),
    followed by the properties of the traversal engine.

    Conventions.
    - A Python [str] is the list of its code points ([list N]); a [bytes]
      object is the list of its bytes (also [list N], each below 256).
    - Python sets of strings are [gset (list N)]; the order in which a
      [for] loop walks a set is chosen by the environment.
    - Stateful code is written in a state-and-exception monad over the
      record [State]; everything outside the program (network, scheduler,
      SQLite engine faults, HTML tokenizer) is a field of [World]. *)

From Stdlib Require Import ZArith NArith Ascii String Lia.
From stdpp Require Import gmap strings list.

Local Open Scope N_scope.

(** ** Python strings *)

Module Py.

Abbreviation str := (list N) (only parsing).
Abbreviation bytes := (list N) (only parsing).

(** The [str] denoted by an ASCII literal. *)
Definition py (s : string) : str := map N_of_ascii (list_ascii_of_string s).

Definition chr (a : ascii) : N := N_of_ascii a.

(** [c in s] for a one-character [c]. *)
Definition has (c : N) (s : str) : bool := existsb (N.eqb c) s.

(** [c in chars], with the character on the left as in [filter]. *)
Definition one_of (chars : str) (c : N) : bool := has c chars.

Fixpoint str_eqb (s t : str) : bool :=
  match s, t with
  | [], [] => true
  | a :: s', b :: t' => (a =? b) && str_eqb s' t'
  | _, _ => false
  end.

(** [s.startswith(p)] *)
Fixpoint startswith (p s : str) : bool :=
  match p, s with
  | [], _ => true
  | a :: p', b :: s' => (a =? b) && startswith p' s'
  | _ :: _, [] => false
  end.

(** [s.find(c)]: index of the first occurrence, [None] for Python's -1. *)
Fixpoint find (c : N) (s : str) : option nat :=
  match s with
  | [] => None
  | x :: s' => if x =? c then Some O else option_map S (find c s')
  end.

(** [s.rfind(c)] *)
Fixpoint rfind (c : N) (s : str) : option nat :=
  match s with
  | [] => None
  | x :: s' =>
      match rfind c s' with
      | Some i => Some (S i)
      | None => if x =? c then Some O else None
      end
  end.

(** [s.split(c)]: never empty. *)
Fixpoint split (c : N) (s : str) : list str :=
  match s with
  | [] => [[]]
  | x :: s' =>
      if x =? c then [] :: split c s'
      else match split c s' with
           | h :: t => (x :: h) :: t
           | [] => [[x]]
           end
  end.

(** [s.split(c, 1)] as the pair (before, after) when [c] occurs. *)
Fixpoint split1 (c : N) (s : str) : option (str * str) :=
  match s with
  | [] => None
  | x :: s' =>
      if x =? c then Some ([], s')
      else match split1 c s' with
           | Some (a, b) => Some (x :: a, b)
           | None => None
           end
  end.

(** [c.join(parts)] *)
Fixpoint join (c : N) (parts : list str) : str :=
  match parts with
  | [] => []
  | [p] => p
  | p :: ps => p ++ c :: join c ps
  end.

(** [s.lstrip(chars)] and [s.strip(chars)] *)
Fixpoint lstrip (chars : str) (s : str) : str :=
  match s with
  | [] => []
  | x :: s' => if one_of chars x then lstrip chars s' else s
  end.

Definition rstrip (chars : str) (s : str) : str := rev (lstrip chars (rev s)).
Definition strip (chars : str) (s : str) : str := rstrip chars (lstrip chars s).

(** [s.replace(c, "")] *)
Definition remove (c : N) (s : str) : str := List.filter (fun x => negb (x =? c)) s.

Definition isascii (c : N) : bool := c <? 128.
Definition is_upper (c : N) : bool := (65 <=? c) && (c <=? 90).
Definition is_lower (c : N) : bool := (97 <=? c) && (c <=? 122).
Definition is_digit (c : N) : bool := (48 <=? c) && (c <=? 57).
(** [c.isascii() and c.isalpha()] *)
Definition is_ascii_alpha (c : N) : bool := is_upper c || is_lower c.

(** [s.lower()] on the ASCII letters, which is all [urlsplit] applies it to. *)
Definition lower_char (c : N) : N := if is_upper c then c + 32 else c.
Definition lower (s : str) : str := map lower_char s.

(** Python's [str.isspace] for one character, which is what [\s] matches
    in a [str] pattern. *)
Definition isspace (c : N) : bool :=
  ((9 <=? c) && (c <=? 13)) || ((28 <=? c) && (c <=? 32))
  || (c =? 133) || (c =? 160) || (c =? 5760)
  || ((8192 <=? c) && (c <=? 8202))
  || (c =? 8232) || (c =? 8233) || (c =? 8239) || (c =? 8287) || (c =? 12288).

End Py.
Export Py.

(** ** The UTF-8 codec ([str.encode], [bytes.decode]) *)

Module Utf8.

Inductive errors := Strict | Replace.

(** U+FFFD, the replacement character. *)
Definition REPLACEMENT : N := 65533.

Definition encode_char (c : N) : option bytes :=
  if c <? 128 then Some [c]
  else if c <? 2048 then Some [192 + c / 64; 128 + c mod 64]
  else if c <? 65536 then
    if (55296 <=? c) && (c <=? 57343) then None (* lone surrogate *)
    else Some [224 + c / 4096; 128 + (c / 64) mod 64; 128 + c mod 64]
  else if c <? 1114112 then
    Some [240 + c / 262144; 128 + (c / 4096) mod 64; 128 + (c / 64) mod 64; 128 + c mod 64]
  else None.

(** [s.encode("utf-8")] with [errors="strict"]; [None] is UnicodeEncodeError. *)
Fixpoint encode (s : str) : option bytes :=
  match s with
  | [] => Some []
  | c :: s' =>
      match encode_char c, encode s' with
      | Some b, Some bs => Some (b ++ bs)
      | _, _ => None
      end
  end.

Definition is_cont (b : N) : bool := (128 <=? b) && (b <? 192).

(** What the decoder does at an ill-formed sequence: [Strict] raises,
    [Replace] emits U+FFFD and resumes after the offending bytes. *)
Definition bad (e : errors) (k : option str) : option str :=
  match e with
  | Strict => None
  | Replace => option_map (cons REPLACEMENT) k
  end.

(** [bs.decode("utf-8", errors)], following CPython's decoder: an invalid
    start byte and an invalid continuation byte end the ill-formed span
    just before the offending byte; a sequence cut by the end of the data
    is one span. [None] is UnicodeDecodeError. *)
Fixpoint decode (e : errors) (bs : bytes) : option str :=
  match bs with
  | [] => Some []
  | b :: r1 =>
    if b <? 128 then option_map (cons b) (decode e r1)
    else if b <? 194 then bad e (decode e r1)
    else if b <? 224 then
      match r1 with
      | [] => bad e (Some [])
      | b2 :: r2 =>
          if is_cont b2
          then option_map (cons ((b - 192) * 64 + (b2 - 128))) (decode e r2)
          else bad e (decode e r1)
      end
    else if b <? 240 then
      match r1 with
      | [] => bad e (Some [])
      | b2 :: r2 =>
          if negb (is_cont b2)
             || (if b2 <? 160 then b =? 224 else b =? 237)
          then bad e (decode e r1)
          else
            match r2 with
            | [] => bad e (Some [])
            | b3 :: r3 =>
                if is_cont b3
                then option_map
                       (cons ((b - 224) * 4096 + (b2 - 128) * 64 + (b3 - 128)))
                       (decode e r3)
                else bad e (decode e r2)
            end
      end
    else if b <? 245 then
      match r1 with
      | [] => bad e (Some [])
      | b2 :: r2 =>
          if negb (is_cont b2)
             || (if b2 <? 144 then b =? 240 else b =? 244)
          then bad e (decode e r1)
          else
            match r2 with
            | [] => bad e (Some [])
            | b3 :: r3 =>
                if negb (is_cont b3) then bad e (decode e r2)
                else
                  match r3 with
                  | [] => bad e (Some [])
                  | b4 :: r4 =>
                      if is_cont b4
                      then option_map
                             (cons ((b - 240) * 262144 + (b2 - 128) * 4096
                                    + (b3 - 128) * 64 + (b4 - 128)))
                             (decode e r4)
                      else bad e (decode e r3)
                  end
            end
      end
    else bad e (decode e r1)
  end.

(** With [errors="replace"] decoding cannot fail; the default is never used. *)
Definition decode_replace (bs : bytes) : str := default [] (decode Replace bs).

End Utf8.

(** ** [urllib.parse]

    The functions of CPython's [Lib/urllib/parse.py] that the crawler
    calls, [str] arguments only. Two checks of [urlsplit] depend on the
    [ipaddress] and [unicodedata] modules and are taken as parameters:
    [check_bracketed_netloc] and the NFKC test of [_checknetloc]
    ([true] means the check passes, [false] that it raises ValueError). *)

Module Urllib.

Definition uses_relative : list str :=
  map py ["" ; "ftp"; "http"; "gopher"; "nntp"; "imap"; "wais"; "file";
          "https"; "shttp"; "mms"; "prospero"; "rtsp"; "rtspu"; "sftp";
          "svn"; "svn+ssh"; "ws"; "wss"]%string.

Definition uses_netloc : list str :=
  map py ["" ; "ftp"; "http"; "gopher"; "nntp"; "telnet"; "imap"; "wais";
          "file"; "mms"; "https"; "shttp"; "snews"; "prospero"; "rtsp";
          "rtspu"; "rsync"; "svn"; "svn+ssh"; "sftp"; "nfs"; "git";
          "git+ssh"; "ws"; "wss"]%string.

Definition uses_params : list str :=
  map py ["" ; "ftp"; "hdl"; "prospero"; "http"; "imap"; "https"; "shttp";
          "rtsp"; "rtspu"; "sip"; "sips"; "mms"; "sftp"; "tel"]%string.

(** [x in l] for a list of strings. *)
Definition mem (x : str) (l : list str) : bool := existsb (str_eqb x) l.

Definition scheme_chars : str :=
  py "abcdefghijklmnopqrstuvwxyzABCDEFGHIJKLMNOPQRSTUVWXYZ0123456789+-.".

(** The characters U+0000 to U+0020. *)
Definition _WHATWG_C0_CONTROL_OR_SPACE : str := map N.of_nat (seq 0 33).

Definition _UNSAFE_URL_BYTES_TO_REMOVE : str := [9; 13; 10].

Record SplitResult := {
  sr_scheme : str; sr_netloc : str; sr_path : str;
  sr_query : str; sr_fragment : str }.

Record ParseResult := {
  scheme : str; netloc : str; path : str;
  params : str; query : str; fragment : str }.

(** [_splitnetloc(url, 2)], on [s = url[2:]]: cut at the earliest of the
    delimiters. *)
Definition _splitnetloc (s : str) : str * str :=
  let delim :=
    fold_left (fun delim c => match find c s with
                              | Some wdelim => Nat.min delim wdelim
                              | None => delim
                              end) (py "/?#") (length s) in
  (take delim s, drop delim s).

Definition _checknetloc (nfkc_ok : str -> bool) (netloc : str) : bool :=
  match netloc with
  | [] => true
  | _ => if forallb isascii netloc then true else nfkc_ok netloc
  end.

Section urlsplit.
Variable check_bracketed_netloc : str -> bool.
Variable nfkc_ok : str -> bool.

(** The tests on "[" and "]" in the netloc: both or neither, and a
    bracketed host that the library accepts. *)
Definition _brackets_ok (netloc : str) : bool :=
  let lb := has (chr "[") netloc in
  let rb := has (chr "]") netloc in
  negb ((lb && negb rb) || (rb && negb lb))
  && (negb (lb && rb) || check_bracketed_netloc netloc).

(** [for b in _UNSAFE_URL_BYTES_TO_REMOVE: s = s.replace(b, "")] *)
Definition _remove_unsafe (s : str) : str :=
  fold_left (fun u b => remove b u) _UNSAFE_URL_BYTES_TO_REMOVE s.

(** The scheme test of [urlsplit]: [i = url.find(":")], [i > 0], an
    ASCII letter first and only [scheme_chars] before the colon. *)
Definition _split_scheme (scheme url : str) : str * str :=
  match find (chr ":") url, url with
  | Some (S i'), c0 :: _ =>
      if is_ascii_alpha c0 && forallb (one_of scheme_chars) (take (S i') url)
      then (lower (take (S i') url), drop (S (S i')) url)
      else (scheme, url)
  | _, _ => (scheme, url)
  end.

(** The netloc step: [if url[:2] == "//": ..]. *)
Definition _split_netloc (url : str) : option (str * str) :=
  if startswith (py "//") url then
    let '(netloc, rest) := _splitnetloc (drop 2 url) in
    if _brackets_ok netloc then Some (netloc, rest) else None
  else Some ([], url).

(** [if c in url: url, part = url.split(c, 1)] *)
Definition _split_off (c : N) (url : str) : str * str :=
  match split1 c url with
  | Some (u, part) => (u, part)
  | None => (url, [])
  end.

(** [urlsplit(url, scheme)]; [None] is ValueError. *)
Definition urlsplit (url scheme : str) : option SplitResult :=
  let url := lstrip _WHATWG_C0_CONTROL_OR_SPACE url in
  let scheme := strip _WHATWG_C0_CONTROL_OR_SPACE scheme in
  let url := _remove_unsafe url in
  let scheme := _remove_unsafe scheme in
  let '(scheme, url) := _split_scheme scheme url in
  match _split_netloc url with
  | None => None
  | Some (netloc, url) =>
      let '(url, fragment) := _split_off (chr "#") url in
      let '(url, query) := _split_off (chr "?") url in
      if _checknetloc nfkc_ok netloc
      then Some {| sr_scheme := scheme; sr_netloc := netloc; sr_path := url;
                   sr_query := query; sr_fragment := fragment |}
      else None
  end.

(** [_splitparams(url)], called only when [";" in url]. *)
Definition _splitparams (url : str) : str * str :=
  let i :=
    if has (chr "/") url then
      match rfind (chr "/") url with
      | Some r => option_map (Nat.add r) (find (chr ";") (drop r url))
      | None => None
      end
    else find (chr ";") url in
  match i with
  | Some i => (take i url, drop (S i) url)
  | None => (url, [])
  end.

Definition urlparse (url scheme : str) : option ParseResult :=
  match urlsplit url scheme with
  | None => None
  | Some r =>
      let '(url, params) :=
        if mem (sr_scheme r) uses_params && has (chr ";") (sr_path r)
        then _splitparams (sr_path r)
        else (sr_path r, []) in
      Some {| scheme := sr_scheme r; netloc := sr_netloc r; path := url;
              params := params; query := sr_query r;
              fragment := sr_fragment r |}
  end.

Definition urlunsplit (scheme netloc url query fragment : str) : str :=
  let url :=
    if negb (str_eqb netloc [])
       || (negb (str_eqb scheme []) && mem scheme uses_netloc
           && negb (str_eqb (take 2 url) (py "//")))
    then
      let url := if negb (str_eqb url []) && negb (str_eqb (take 1 url) (py "/"))
                 then chr "/" :: url else url in
      py "//" ++ netloc ++ url
    else url in
  let url := if negb (str_eqb scheme []) then scheme ++ chr ":" :: url else url in
  let url := if negb (str_eqb query []) then url ++ chr "?" :: query else url in
  let url := if negb (str_eqb fragment []) then url ++ chr "#" :: fragment else url in
  url.

Definition urlunparse (p : ParseResult) : str :=
  let url := if negb (str_eqb (params p) [])
             then path p ++ chr ";" :: params p else path p in
  urlunsplit (scheme p) (netloc p) url (query p) (fragment p).

(** The loop of [urljoin] over the path segments. *)
Definition resolve_segments (segments : list str) : list str :=
  fold_left (fun resolved_path seg =>
               if str_eqb seg (py "..") then removelast resolved_path
               else if str_eqb seg (py ".") then resolved_path
               else resolved_path ++ [seg]) segments [].

(** [segments[1:-1] = filter(None, segments[1:-1])] *)
Definition filter_middle (segments : list str) : list str :=
  match segments with
  | first :: (_ :: _) as rest =>
      first :: List.filter (fun s => negb (str_eqb s [])) (removelast rest)
            ++ [List.last rest []]
  | _ => segments
  end.

(** [urljoin(base, url)]; [None] is the ValueError of [urlsplit]. *)
Definition urljoin (base url : str) : option str :=
  match base, url with
  | [], _ => Some url
  | _, [] => Some base
  | _, _ =>
    match urlparse base [] with
    | None => None
    | Some b =>
      match urlparse url (scheme b) with
      | None => None
      | Some u =>
        if negb (str_eqb (scheme u) (scheme b)) || negb (mem (scheme u) uses_relative)
        then Some url
        else if mem (scheme u) uses_netloc && negb (str_eqb (netloc u) [])
        then Some (urlunparse u)
        else
          let netloc' := if mem (scheme u) uses_netloc then netloc b else netloc u in
          if str_eqb (path u) [] && str_eqb (params u) [] then
            Some (urlunparse
                    {| scheme := scheme u; netloc := netloc'; path := path b;
                       params := params b;
                       query := if str_eqb (query u) [] then query b else query u;
                       fragment := fragment u |})
          else
            let base_parts := split (chr "/") (path b) in
            let base_parts := if negb (str_eqb (List.last base_parts []) [])
                              then removelast base_parts else base_parts in
            let segments :=
              if str_eqb (take 1 (path u)) (py "/")
              then split (chr "/") (path u)
              else filter_middle (base_parts ++ split (chr "/") (path u)) in
            let resolved_path := resolve_segments segments in
            let resolved_path :=
              if mem (List.last segments []) [py "."; py ".."]
              then resolved_path ++ [[]] else resolved_path in
            let joined := join (chr "/") resolved_path in
            Some (urlunparse
                    {| scheme := scheme u; netloc := netloc';
                       path := if str_eqb joined [] then py "/" else joined;
                       params := params u; query := query u;
                       fragment := fragment u |})
      end
    end
  end.
End urlsplit.

(** *** Percent-encoding *)

Definition _ALWAYS_SAFE : bytes :=
  py "ABCDEFGHIJKLMNOPQRSTUVWXYZabcdefghijklmnopqrstuvwxyz0123456789_.-~".

Definition hexdigit (n : N) : N := if n <? 10 then 48 + n else 55 + n.

(** [_Quoter.__missing__]: [chr(b)] for a safe byte, else ['%{:02X}']. *)
Definition quoter (safe : bytes) (b : N) : str :=
  if one_of safe b then [b] else [chr "%"; hexdigit (b / 16); hexdigit (b mod 16)].

Definition quote_from_bytes (bs : bytes) (safe : str) : str :=
  let safe := List.filter isascii safe in
  if forallb (one_of (_ALWAYS_SAFE ++ safe)) bs then bs
  else flat_map (quoter (_ALWAYS_SAFE ++ safe)) bs.

(** [quote(string, safe)]; [None] is UnicodeEncodeError. *)
Definition quote (string safe : str) : option str :=
  match string with
  | [] => Some []
  | _ => option_map (fun bs => quote_from_bytes bs safe) (Utf8.encode string)
  end.

(** The value of a character of [_hexdig]. *)
Definition hexval (c : N) : option N :=
  if is_digit c then Some (c - 48)
  else if (65 <=? c) && (c <=? 70) then Some (c - 55)
  else if (97 <=? c) && (c <=? 102) then Some (c - 87)
  else None.

(** One [item] of [bits[1:]] in [unquote_to_bytes]. *)
Definition unquote_item (item : bytes) : bytes :=
  match item with
  | h1 :: h2 :: rest =>
      match hexval h1, hexval h2 with
      | Some a, Some b => (16 * a + b) :: rest
      | _, _ => chr "%" :: item
      end
  | _ => chr "%" :: item
  end.

(** [unquote_to_bytes(string)] for an ASCII [string], which is its own
    UTF-8 encoding. *)
Definition unquote_to_bytes (string : str) : bytes :=
  match split (chr "%") string with
  | bits0 :: ((_ :: _) as items) => bits0 ++ concat (map unquote_item items)
  | _ => string
  end.

(** [_asciire.split(string)]: the maximal runs of ASCII and of non-ASCII
    characters, each with its kind. *)
Fixpoint ascii_runs (s : str) : list (bool * str) :=
  match s with
  | [] => []
  | c :: s' =>
      match ascii_runs s' with
      | (k, r) :: rs =>
          if Bool.eqb k (isascii c) then (k, c :: r) :: rs
          else (isascii c, [c]) :: (k, r) :: rs
      | [] => [(isascii c, [c])]
      end
  end.

(** [unquote(string)] with the defaults [encoding="utf-8"],
    [errors="replace"]. *)
Definition unquote (string : str) : str :=
  if negb (has (chr "%") string) then string
  else concat (map (fun '(is_ascii, run) =>
                      if is_ascii : bool
                      then Utf8.decode_replace (unquote_to_bytes run)
                      else run) (ascii_runs string)).

End Urllib.
Export Urllib.

(** ** [re.match] on the seed pattern of [main] *)

Module Re.

(** The tail [[^\s]*$]: non-space characters up to the end of the string,
    or up to a newline that ends it. *)
Fixpoint tail_ok (s : str) : bool :=
  match s with
  | [] => true
  | c :: s' => if isspace c then str_eqb s [10] else tail_ok s'
  end.

(** [match(r"^https?://[^\s/$.?#].[^\s]*$", s) is not None] *)
Definition match_seed (s : str) : bool :=
  startswith (py "http") s &&
  let r := drop 4 s in
  let r := match r with
           | c :: t => if c =? chr "s" then t else r
           | [] => r
           end in
  startswith (py "://") r &&
  match drop 3 r with
  | c1 :: c2 :: t =>
      negb (isspace c1 || one_of (py "/$.?#") c1) && negb (c2 =? 10) && tail_ok t
  | _ => false
  end.

End Re.

(** ** Exceptions, events and the environment *)

Local Open Scope Z_scope.

Inductive exn :=
  | HTTPError (code : Z)            (* urllib.error.HTTPError, a URLError *)
  | URLError (reason : str)         (* urllib.error.URLError *)
  | ValueError
  | AttributeError
  | UnicodeDecodeError
  | UnicodeEncodeError
  | sqlite3_Error (msg : str)
  | OtherException (name : str)     (* any other subclass of Exception *)
  | CancelledError                  (* asyncio.CancelledError *)
  | KeyboardInterrupt
  | SystemExit (code : Z).

(** [isinstance(e, Exception)]: the last three derive from BaseException only. *)
Definition is_Exception (e : exn) : bool :=
  match e with
  | CancelledError | KeyboardInterrupt | SystemExit _ => false
  | _ => true
  end.

Definition is_HTTPError (e : exn) : bool :=
  match e with HTTPError _ => true | _ => false end.

Definition is_URLError (e : exn) : bool :=
  match e with HTTPError _ | URLError _ => true | _ => false end.

(** What a [print] call writes. *)
Inductive Message :=
  | MsgHTTP (code : Z) (url : str)                      (* get_page, HTTPError *)
  | MsgURL (reason : str) (url : str)                   (* get_page, URLError *)
  | MsgFrame (current_url : str) (depth : Z) (e : exn)  (* recursive_url_scrap *)
  | MsgUsage (argv0 : str)
  | MsgInvalidURL.

(** The statements [save_to_db] and [main] send to SQLite. *)
Inductive Statement :=
  | Connect | PragmaWAL | CreateTable | InsertOrIgnore (url : str)
  | Commit | DropTable.

(** What a run does, newest event first:
    [Visit u d] is [visited.add(current_url)] in the frame of [u];
    [Urlopen u q] is [urlopen(q)] in [get_page(u)];
    [Print m] is the call [print(m)], whether it returns or raises;
    [Committed n s] is a [save_to_db(n, s)] that committed;
    [Recurse u d s v d'] is the call [recursive_url_scrap(.., v, .., d', ..)]
    made by the loop over [s] in the frame of [u] at depth [d]. *)
Inductive Event :=
  | Visit (current_url : str) (depth : Z)
  | Urlopen (url q : str)
  | Print (m : Message)
  | Committed (db_name : str) (urls : gset str)
  | Dropped (db_name : str)
  | Recurse (current_url : str) (depth : Z) (links : gset str) (link : str) (depth' : Z)
  | Shutdown.

(** Everything the program does not decide. Each answer may depend on
    what has happened so far. *)
Record World := {
  (** the calls [handle_starttag(tag, attrs)] that [HTMLParser.feed] makes
      on a document, as far as its tokenizer gets; an attribute without a
      value has [None] *)
  starttags : str -> list (str * list (str * option str));
  (** what [HTMLParser.feed] itself raises on the document after these
      calls, if anything: AssertionError on a marked section with an
      unknown keyword, such as "<![zzz]]>" *)
  tokenizer_fault : str -> option exn;
  (** what [print] raises on a message, if anything: UnicodeEncodeError
      when the stream cannot encode it (a url with a lone surrogate on a
      UTF-8 stream, Cyrillic on an ASCII one), BrokenPipeError, ValueError
      on a closed stream; all of them instances of [Exception] *)
  stdout_fault : list Event -> Message -> option exn;
  stdout_fault_Exception :
    forall h m e, stdout_fault h m = Some e -> is_Exception e = true;
  (** what [await asyncio.sleep(0.3)] raises, if anything *)
  asyncio_sleep : list Event -> option exn;
  (** [urlopen(q)] followed by [response.read()] *)
  urlopen : list Event -> str -> exn + bytes;
  (** the exception a statement fails with, if it fails *)
  sqlite3_fault : list Event -> Statement -> option exn;
  (** the order in which a [for] loop walks a set *)
  set_iter : list Event -> gset str -> list str;
  set_iter_perm : forall h (X : gset str), set_iter h X ≡ₚ elements X;
  (** the two library checks of [urlsplit] *)
  check_bracketed_netloc : str -> bool;
  nfkc_ok : str -> bool
}.

(** ** The store *)

(** One SQLite file. A row of [Urls] is represented by its [url] column;
    the [id] column is a surrogate key that SQLite assigns. A row is never
    removed except by dropping the table. *)
Record Database := {
  journal_mode_wal : bool;
  Urls : option (list str)
}.

Definition empty_db : Database := {| journal_mode_wal := false; Urls := None |}.

(** [PRAGMA journal_mode=WAL] *)
Definition pragma_wal (d : Database) : Database :=
  {| journal_mode_wal := true; Urls := Urls d |}.

(** [CREATE TABLE IF NOT EXISTS Urls (..)] *)
Definition create_table (d : Database) : Database :=
  match Urls d with
  | Some _ => d
  | None => {| journal_mode_wal := journal_mode_wal d; Urls := Some [] |}
  end.

(** [DROP TABLE IF EXISTS Urls] *)
Definition drop_table (d : Database) : Database :=
  {| journal_mode_wal := journal_mode_wal d; Urls := None |}.

(** [INSERT OR IGNORE INTO Urls (url) VALUES (?)]: the UNIQUE constraint
    turns the insertion of a present url into nothing. [None] is the
    OperationalError for a missing table. *)
Definition insert_or_ignore (url : str) (d : Database) : option Database :=
  match Urls d with
  | None => None
  | Some rows =>
      Some {| journal_mode_wal := journal_mode_wal d;
              Urls := Some (if bool_decide (url ∈ rows) then rows else rows ++ [url]) |}
  end.

(** [SELECT url FROM Urls], as a set; empty when there is no table. *)
Definition urls_of (d : Database) : gset str :=
  match Urls d with
  | Some rows => list_to_set rows
  | None => ∅
  end.

(** ** State and the monad of the program *)

Record State := {
  visited : gset str;             (* the set object shared by all frames *)
  files : gmap str Database;      (* SQLite files by name *)
  log : list Event
}.

Definition set_visited (v : gset str) (st : State) : State :=
  {| visited := v; files := files st; log := log st |}.
Definition set_file (n : str) (d : Database) (st : State) : State :=
  {| visited := visited st; files := <[n := d]> (files st); log := log st |}.
Definition add_event (e : Event) (st : State) : State :=
  {| visited := visited st; files := files st; log := e :: log st |}.

Definition database (st : State) (db_name : str) : Database :=
  default empty_db (files st !! db_name).

(** The urls stored in the file [db_name]. *)
Definition stored (st : State) (db_name : str) : gset str :=
  urls_of (database st db_name).

Inductive Outcome (A : Type) :=
  | Ok (a : A)
  | Raised (e : exn)
  | OutOfFuel.
Arguments Ok {A} a.
Arguments Raised {A} e.
Arguments OutOfFuel {A}.

Definition M (A : Type) : Type := State -> Outcome A * State.

Definition ret {A} (a : A) : M A := fun st => (Ok a, st).
Definition raise {A} (e : exn) : M A := fun st => (Raised e, st).
Definition bind {A B} (m : M A) (k : A -> M B) : M B :=
  fun st =>
    match m st with
    | (Ok a, st') => k a st'
    | (Raised e, st') => (Raised e, st')
    | (OutOfFuel, st') => (OutOfFuel, st')
    end.

Declare Scope prog_scope.
Delimit Scope prog_scope with prog.
Notation "x <- m ;; k" := (bind m (fun x => k))
  (at level 100, m at next level, right associativity) : prog_scope.
Notation "m ;;; k" := (bind m (fun _ => k))
  (at level 100, right associativity) : prog_scope.
Local Open Scope prog_scope.

Definition emit (e : Event) : M unit := fun st => (Ok tt, add_event e st).

(** [print(m)]: the call is logged; the stream may refuse the message. *)
Definition print (w : World) (m : Message) : M unit :=
  fun st =>
    match stdout_fault w (log st) m with
    | Some e => (Raised e, add_event (Print m) st)
    | None => (Ok tt, add_event (Print m) st)
    end.

(** [try: body  except C1 as e: h1(e)  except C2 as e: h2(e) ..]: the
    first clause whose class the exception belongs to handles it. *)
Fixpoint dispatch {A} (clauses : list ((exn -> bool) * (exn -> M A))) (e : exn)
    : M A :=
  match clauses with
  | [] => raise e
  | (catches, handler) :: clauses' =>
      if catches e then handler e else dispatch clauses' e
  end.

Definition try_except {A} (body : M A)
    (clauses : list ((exn -> bool) * (exn -> M A))) : M A :=
  fun st =>
    match body st with
    | (Raised e, st') => dispatch clauses e st'
    | r => r
    end.

(** [try: body  finally: cleanup] *)
Definition try_finally {A} (body : M A) (cleanup : M unit) : M A :=
  fun st =>
    match body st with
    | (OutOfFuel, st') => (OutOfFuel, st')
    | (o, st') =>
        match cleanup st' with
        | (Ok _, st'') => (o, st'')
        | (Raised e, st'') => (Raised e, st'')
        | (OutOfFuel, st'') => (OutOfFuel, st'')
        end
    end.

(** [for x in xs: body(x)] over a sequence *)
Fixpoint for_each {A} (xs : list A) (body : A -> M unit) : M unit :=
  match xs with
  | [] => ret tt
  | x :: xs' => body x ;;; for_each xs' body
  end.

(** [for x in s: body(x)] over a set *)
Definition for_in (w : World) (s : gset str) (body : str -> M unit) : M unit :=
  fun st => for_each (set_iter w (log st) s) body st.

(** ** The program: [main.py] *)

(** *** [class WikiParser(HTMLParser)] *)

Record WikiParser := { links : gset str }.

(** [WikiParser()] *)
Definition WikiParser_init : WikiParser := {| links := ∅ |}.

(** The loop [for attr in attrs] of [handle_starttag]. [attr[1]] is [None]
    for an attribute without a value, and [None.startswith] raises. The
    links added before an exception stay in [self.links]. *)
Fixpoint handle_attrs (attrs : list (str * option str)) (self : WikiParser)
    : option exn * WikiParser :=
  match attrs with
  | [] => (None, self)
  | (name, value) :: attrs' =>
      if str_eqb name (py "href") then
        match value with
        | None => (Some AttributeError, self)
        | Some v =>
            if startswith (py "/wiki") v && negb (has (chr ":") v)
            then handle_attrs attrs' {| links := {[ v ]} ∪ links self |}
            else handle_attrs attrs' self
        end
      else handle_attrs attrs' self
  end.

Definition handle_starttag (tag : str) (attrs : list (str * option str))
    (self : WikiParser) : option exn * WikiParser :=
  if str_eqb tag (py "a") then handle_attrs attrs self else (None, self).

(** [parser.feed(html)] on a stream of start tags: stops at the first
    handler that raises. *)
Fixpoint feed_tags (tags : list (str * list (str * option str)))
    (self : WikiParser) : option exn * WikiParser :=
  match tags with
  | [] => (None, self)
  | (tag, attrs) :: tags' =>
      match handle_starttag tag attrs self with
      | (None, self') => feed_tags tags' self'
      | r => r
      end
  end.

(** [parser.feed(html)]: the start tags are handled in turn; if no
    handler raised, the tokenizer may still raise on the document. *)
Definition feed (w : World) (html : str) (self : WikiParser)
    : option exn * WikiParser :=
  match feed_tags (starttags w html) self with
  | (None, self') => (tokenizer_fault w html, self')
  | r => r
  end.

(** *** [get_page] *)

Definition lift {A} (o : option A) (e : exn) : M A :=
  match o with
  | Some a => ret a
  | None => raise e
  end.

Definition sleep (w : World) : M unit :=
  fun st =>
    match asyncio_sleep w (log st) with
    | Some e => (Raised e, st)
    | None => (Ok tt, st)
    end.

(** [with urllib.request.urlopen(q) as response: response.read()] *)
Definition urlopen_read (w : World) (url q : str) : M bytes :=
  fun st =>
    match urlopen w (log st) q with
    | inl e => (Raised e, add_event (Urlopen url q) st)
    | inr body => (Ok body, add_event (Urlopen url q) st)
    end.

(** [quote] raises nothing that a clause catches, so the rebinding
    [url = quote(url, ..)] is read before the [try]; the handlers print the
    rebound [url]. *)
Definition get_page (w : World) (url : str) : M str :=
  q <- lift (quote url (py ":/?&=")) UnicodeEncodeError ;;
  try_except
    (sleep w ;;;
     body <- urlopen_read w url q ;;
     lift (Utf8.decode Utf8.Strict body) UnicodeDecodeError)
    [ (is_HTTPError,
       fun e => print w (MsgHTTP (match e with HTTPError c => c | _ => 0 end) q) ;;;
                ret []);
      (is_URLError,
       fun e => print w (MsgURL (match e with URLError r => r | _ => [] end) q) ;;;
                ret []) ].

(** *** [save_to_db] *)

(** [cursor.execute(stmt)]: fails as the engine decides, else applies. *)
Definition execute (w : World) (h : list Event) (stmt : Statement)
    (d : Database) : exn + Database :=
  match sqlite3_fault w h stmt with
  | Some e => inl e
  | None =>
      match stmt with
      | Connect | Commit => inr d
      | PragmaWAL => inr (pragma_wal d)
      | CreateTable => inr (create_table d)
      | DropTable => inr (drop_table d)
      | InsertOrIgnore url =>
          match insert_or_ignore url d with
          | Some d' => inr d'
          | None => inl (sqlite3_Error (py "no such table: Urls"))
          end
      end
  end.

(** [for url in urls: cursor.execute("INSERT OR IGNORE ..", (url,))] *)
Fixpoint insert_all (w : World) (h : list Event) (urls : list str)
    (d : Database) : exn + Database :=
  match urls with
  | [] => inr d
  | url :: urls' =>
      match execute w h (InsertOrIgnore url) d with
      | inl e => inl e
      | inr d' => insert_all w h urls' d'
      end
  end.

(** The names for which [sqlite3.connect] opens a private database, in
    memory or in a temporary file, that is empty at first and is gone when
    the connection is: ":memory:" and the empty string. *)
Definition private (db_name : str) : bool :=
  str_eqb db_name (py ":memory:") || str_eqb db_name [].

(** The database that [sqlite3.connect(db_name)] opens. *)
Definition opened (st : State) (db_name : str) : Database :=
  if private db_name then empty_db else database st db_name.

(** What is left of the database [d] of a connection to [db_name] after
    the function that opened it has returned. *)
Definition kept (db_name : str) (d : Database) (st : State) : State :=
  if private db_name then st else set_file db_name d st.

(** The pragma and the table creation take effect at once; the insertions
    form one transaction, which the connection's context manager rolls
    back when the block raises. *)
Definition save_to_db (w : World) (db_name : str) (urls : gset str) : M unit :=
  fun st =>
    let h := log st in
    match execute w h Connect (opened st db_name) with
    | inl e => (Raised e, st)
    | inr d0 =>
    match execute w h PragmaWAL d0 with
    | inl e => (Raised e, st)
    | inr d1 =>
    match execute w h CreateTable d1 with
    | inl e => (Raised e, kept db_name d1 st)
    | inr d2 =>
    match insert_all w h (set_iter w h urls) d2 with
    | inl e => (Raised e, kept db_name d2 st)
    | inr d3 =>
    match execute w h Commit d3 with
    | inl e => (Raised e, kept db_name d2 st)
    | inr d4 => (Ok tt, add_event (Committed db_name urls) (kept db_name d4 st))
    end end end end end.

(** *** [get_links_from_page] *)

(** [urljoin(base_url, unquote(link))], the Link Resolver. *)
Definition resolve (w : World) (base_url link : str) : option str :=
  urljoin (check_bracketed_netloc w) (nfkc_ok w) base_url (unquote link).

(** The set comprehension: the first [urljoin] that raises ends it. *)
Fixpoint resolve_all (w : World) (base_url : str) (ls : list str)
    : option (gset str) :=
  match ls with
  | [] => Some ∅
  | link :: ls' =>
      match resolve w base_url link, resolve_all w base_url ls' with
      | Some u, Some s => Some ({[ u ]} ∪ s)
      | _, _ => None
      end
  end.

Definition get_links_from_page (w : World) (url base_url : str) : M (gset str) :=
  html <- get_page w url ;;
  match html with
  | [] => ret ∅
  | _ =>
      match feed w html WikiParser_init with
      | (Some e, _) => raise e
      | (None, parser) =>
          fun st =>
            lift (resolve_all w base_url (set_iter w (log st) (links parser)))
                 ValueError st
      end
  end.

(** *** [recursive_url_scrap] *)

(** [visited.add(current_url)] *)
Definition visited_add (current_url : str) (depth : Z) : M unit :=
  fun st =>
    (Ok tt, add_event (Visit current_url depth)
              (set_visited ({[ current_url ]} ∪ visited st) st)).

(** The call runs out of [fuel] only if the recursion is deeper than
    [fuel]; [depth] is a Python [int] and the test is [depth == 0]. *)
Fixpoint recursive_url_scrap (fuel : nat) (w : World)
    (base_url current_url db_name : str) (depth : Z) : M unit :=
  match fuel with
  | O => fun st => (OutOfFuel, st)
  | S fuel' =>
      fun st =>
        if (depth =? 0) || bool_decide (current_url ∈ visited st)
        then ret tt st
        else
          (visited_add current_url depth ;;;
           try_except
             (links <- get_links_from_page w current_url base_url ;;
              save_to_db w db_name links ;;;
              for_in w links (fun link =>
                emit (Recurse current_url depth links link (depth - 1)) ;;;
                recursive_url_scrap fuel' w base_url link db_name (depth - 1)))
             [ (is_Exception,
                fun e => print w (MsgFrame current_url depth e)) ]) st
  end.

(** *** [shutdown] and [main] *)

(** No task other than [main] exists, so nothing is cancelled. *)
Definition shutdown : M unit := emit Shutdown.

(** [with sqlite3.connect(db_name) as conn: .. DROP TABLE IF EXISTS Urls ..] *)
Definition reset_store (w : World) (db_name : str) : M unit :=
  fun st =>
    let h := log st in
    match execute w h Connect (opened st db_name) with
    | inl e => (Raised e, st)
    | inr d0 =>
    match execute w h DropTable d0 with
    | inl e => (Raised e, st)
    | inr d1 =>
    match execute w h Commit d1 with
    | inl e => (Raised e, kept db_name d1 st)
    | inr d2 => (Ok tt, add_event (Dropped db_name) (kept db_name d2 st))
    end end end.

Definition url_storage : str := py "url_storage.db".

(** [main()], with [sys.argv] as an argument; [set()] is a fresh set. *)
Definition main (fuel : nat) (w : World) (argv : list str) : M unit :=
  try_finally
    (if (length argv <? 2)%nat then
       print w (MsgUsage (List.hd [] argv)) ;;; raise (SystemExit 1)
     else
       let current_url := List.nth 1 argv [] in
       if negb (Re.match_seed current_url) then
         print w MsgInvalidURL ;;; raise (SystemExit 1)
       else
         parse_url <- lift (urlparse (check_bracketed_netloc w) (nfkc_ok w)
                                     current_url []) ValueError ;;
         let base_url := scheme parse_url ++ py "://" ++ netloc parse_url in
         let db_name := url_storage in
         let depth := 6 in
         reset_store w db_name ;;;
         (fun st => recursive_url_scrap fuel w base_url current_url db_name depth
                      (set_visited ∅ st)))
    shutdown.

(** The exit status of [asyncio.run(main())]: 0 on return, the code of a
    [SystemExit], 1 for an exception that reaches the top. *)
Definition exit_status (o : Outcome unit) : option Z :=
  match o with
  | Ok _ => Some 0
  | Raised (SystemExit c) => Some c
  | Raised KeyboardInterrupt => Some 130
  | Raised _ => Some 1
  | OutOfFuel => None
  end.

Definition run (fuel : nat) (w : World) (argv : list str) (st : State)
    : option Z * State :=
  let '(o, st') := main fuel w argv st in (exit_status o, st').

(** ** Reading a log *)

(** The urls marked visited, newest first. *)
Definition visits (l : list Event) : list str :=
  omap (fun e => match e with Visit u _ => Some u | _ => None end) l.

(** The urls whose page was requested, newest first. *)
Definition fetched (l : list Event) : list str :=
  omap (fun e => match e with Urlopen u _ => Some u | _ => None end) l.

(** The frame an event happens in, for the events of a frame's own body. *)
Definition frame_of (e : Event) : option str :=
  match e with
  | Urlopen u _ => Some u
  | Recurse u _ _ _ _ => Some u
  | _ => None
  end.

(** The urls that the commits of a log put into the file [db_name]. *)
Definition committed (db_name : str) (l : list Event) : gset str :=
  ⋃ (omap (fun e => match e with
                    | Committed n s => if decide (n = db_name) then Some s else None
                    | _ => None
                    end) l).

(** [P e earlier] for every event [e] of a log, [earlier] being the events
    that happened before [e]. *)
Fixpoint each_after (P : Event -> list Event -> Prop) (l : list Event) : Prop :=
  match l with
  | [] => True
  | e :: earlier => P e earlier /\ each_after P earlier
  end.

(** *** The shape of the log of a traversal *)

(** What [get_links_from_page(u, ..)] logs: at most one request, and
    after it at most one message. *)
Definition page_log (u : str) (l : list Event) : Prop :=
  exists pr rq,
    l = pr ++ rq
    /\ (pr = [] \/ exists m, pr = [Print m])
    /\ (rq = [] \/ exists q, rq = [Urlopen u q]).

(** What the [except] clause of the frame of [u] logs. *)
Definition handler_log (u : str) (d : Z) (l : list Event) : Prop :=
  l = [] \/ exists e, l = [Print (MsgFrame u d e)].

Inductive kind :=
  | Call (u : str) (d : Z)                   (* recursive_url_scrap(.., u, .., d, ..) *)
  | Loop (u : str) (d : Z) (L : gset str).   (* some iterations of its loop over L *)

(** [shape db k V l ok]: [l] is a log that a call, or the first
    iterations of a loop, can add when [V] is the visited set at its start;
    [ok] can be [true] only if it returned normally. A call adds nothing
    (terminal condition, or no fuel), or marks [u], fetches its page and
    fails, or marks, fetches, commits the links and loops; it returns
    normally after a loop only if the loop went through all the links. *)
Inductive shape (db : str) : kind -> gset str -> list Event -> bool -> Prop :=
  | shape_none u d V ok :
      shape db (Call u d) V [] ok
  | shape_fail u d V gl hnd ok :
      d <> 0 -> u ∉ V -> page_log u gl -> handler_log u d hnd ->
      shape db (Call u d) V (hnd ++ gl ++ [Visit u d]) ok
  | shape_frame u d V gl L lp hnd ok_loop ok :
      d <> 0 -> u ∉ V -> page_log u gl ->
      shape db (Loop u d L) ({[ u ]} ∪ V) lp ok_loop ->
      handler_log u d hnd ->
      (ok = true ->
       ok_loop = true /\ forall v, v ∈ L -> Recurse u d L v (d - 1) ∈ lp) ->
      shape db (Call u d) V (hnd ++ lp ++ Committed db L :: gl ++ [Visit u d]) ok
  | shape_loop_nil u d L V ok :
      shape db (Loop u d L) V [] ok
  | shape_loop_cons u d L V lp v c ok_loop ok_call ok :
      v ∈ L ->
      shape db (Loop u d L) V lp ok_loop ->
      shape db (Call v (d - 1)) (list_to_set (visits lp) ∪ V) c ok_call ->
      (ok = true -> ok_loop = true /\ ok_call = true) ->
      shape db (Loop u d L) V (c ++ Recurse u d L v (d - 1) :: lp) ok.

Definition is_Ok {A} (o : Outcome A) : bool :=
  match o with Ok _ => true | _ => false end.

(** The urls that the commits of a log leave in the file [db_name]:
    those of a private database are gone with its connection. *)
Definition persisted (db_name : str) (l : list Event) : gset str :=
  if private db_name then ∅ else committed db_name l.

(** The [print] of the [except] clause of a frame always succeeds. *)
Definition frames_print (w : World) : Prop :=
  forall h u d e, stdout_fault w h (MsgFrame u d e) = None.

(** What a call or a loop does to the state: it adds [new] to the log,
    the urls that [new] marks to the visited set and the sets that [new]
    commits to the files; [new] has the shape of a traversal. With
    [quiet], when no [print] of a frame raises, a normal return means that
    the loops ran to their end, and an exception that leaves is not an
    instance of [Exception]. *)
Definition describes (quiet : bool) (db : str) (k : kind) (st : State)
    (o : Outcome unit) (st' : State) : Prop :=
  exists new,
    log st' = new ++ log st
    /\ visited st' = list_to_set (visits new) ∪ visited st
    /\ (forall n, stored st' n = persisted n new ∪ stored st n)
    /\ shape db k (visited st) new (quiet && is_Ok o)
    /\ (quiet = true -> forall e, o = Raised e -> is_Exception e = false).

(** What [handle_starttag] accepts as the target of an article link. *)
Definition article_link (v : str) : bool :=
  startswith (py "/wiki") v && negb (has (chr ":") v).

(** The scheme and the network location that [urlsplit] reads in a URL. *)
Definition origin_of (w : World) (url : str) : option (str * str) :=
  match urlsplit (check_bracketed_netloc w) (nfkc_ok w) url [] with
  | Some r => Some (sr_scheme r, sr_netloc r)
  | None => None
  end.

(** A netloc that passes the checks of [urlsplit]. *)
Definition netloc_accepted (w : World) (netloc : str) : bool :=
  _brackets_ok (check_bracketed_netloc w) netloc && _checknetloc (nfkc_ok w) netloc.

(** A base origin [scheme://netloc] as [main] builds one from a seed that
    matched the pattern: the scheme is "http" or "https", the netloc is not
    empty, holds no "/", "?", "#" and none of the characters that
    [urlsplit] removes, and passes its checks. *)
Definition http_origin (w : World) (scheme netloc : str) : bool :=
  (str_eqb scheme (py "http") || str_eqb scheme (py "https"))
  && negb (str_eqb netloc [])
  && forallb (fun c => negb (one_of (py "/?#" ++ _UNSAFE_URL_BYTES_TO_REMOVE) c)) netloc
  && netloc_accepted w netloc.

(** C6 as the specification words it: whatever the raw link, the Resolver
    yields a URL with the scheme and the host of the base. *)
Definition resolver_keeps_origin_for_all_links : Prop :=
  forall (w : World) (base raw scheme netloc : str),
    origin_of w base = Some (scheme, netloc) ->
    exists u, resolve w base raw = Some u /\ origin_of w u = Some (scheme, netloc).

(** A scheme under which [urljoin] resolves a relative reference against
    the netloc of the base: one of both [uses_relative] and [uses_netloc]
    ("http", "https", "ftp", "file", "ws", ..). *)
Definition joins_netloc (scheme : str) : bool :=
  negb (str_eqb scheme []) && mem scheme uses_relative && mem scheme uses_netloc.

(** C10 as the specification words it: whatever the base origin
    [scheme://netloc], the links of a page have its scheme and netloc. *)
Definition discovered_links_keep_every_origin : Prop :=
  forall (w : World) (url scheme netloc : str) (st st' : State) (L : gset str),
    origin_of w (scheme ++ py "://" ++ netloc) = Some (scheme, netloc) ->
    get_links_from_page w url (scheme ++ py "://" ++ netloc) st = (Ok L, st') ->
    forall x, x ∈ L -> origin_of w x = Some (scheme, netloc).

(** Failures of the connection that [http.client] raises while the
    response is awaited or read; [urlopen] wraps in a URLError only what
    sending the request raises. *)
Definition connection_failures : list str :=
  [py "RemoteDisconnected"; py "IncompleteRead"; py "ConnectionResetError";
   py "TimeoutError"].

(** A failure of the fetch at the transport level or at the protocol
    level. *)
Definition is_fetch_failure (e : exn) : bool :=
  match e with
  | HTTPError _ | URLError _ => true
  | OtherException name => mem name connection_failures
  | _ => false
  end.

(** What the handlers of [get_page] print for a URLError. *)
Definition fetch_message (e : exn) (q : str) : Message :=
  match e with
  | HTTPError code => MsgHTTP code q
  | URLError reason => MsgURL reason q
  | _ => MsgURL [] q
  end.

(** C3 as the specification words it: when the fetch fails, at the
    transport level or at the protocol level, [get_page] returns the empty
    string. *)
Definition fetch_failure_never_raises : Prop :=
  forall (w : World) (url q : str) (st : State) (e : exn),
    quote url (py ":/?&=") = Some q ->
    asyncio_sleep w (log st) = None ->
    urlopen w (log st) q = inl e ->
    is_fetch_failure e = true ->
    (get_page w url st).1 = Ok [].

(** ** A sample environment: two pages that link to each other *)

Module Sample.

Definition base : str := py "https://en.wikipedia.org".
Definition seed : str := py "https://en.wikipedia.org/wiki/Start".
Definition A : str := py "https://en.wikipedia.org/wiki/A".
Definition B : str := py "https://en.wikipedia.org/wiki/B".

Definition anchor (href : string) : str * list (str * option str) :=
  (py "a", [(py "class", None); (py "href", Some (py href))]).

(** Every document is tokenized as the same four anchors. *)
Definition tags : list (str * list (str * option str)) :=
  [anchor "/wiki/A"; anchor "/wiki/B"; anchor "/wiki/Help:Contents";
   anchor "https://python.org"].

Definition iter (h : list Event) (X : gset str) : list str := elements X.

(** A stream that takes every message raises nothing. *)
Definition never_Exception (h : list Event) (m : Message) (e : exn)
    (H : @None exn = Some e) : is_Exception e = true :=
  match H in (_ = o)
        return match o with Some e' => is_Exception e' = true | None => True end
  with eq_refl => I end.

(** The network answers every request with the same page; nothing fails. *)
Definition calm : World := {|
  starttags := fun _ => tags;
  tokenizer_fault := fun _ => None;
  stdout_fault := fun _ _ => None;
  stdout_fault_Exception := never_Exception;
  asyncio_sleep := fun _ => None;
  urlopen := fun _ _ => inr (py "<html>");
  sqlite3_fault := fun _ _ => None;
  set_iter := iter;
  set_iter_perm := fun _ X => Permutation_refl (elements X);
  check_bracketed_netloc := fun _ => true;
  nfkc_ok := fun _ => true
|}.

Definition start : State := {| visited := ∅; files := ∅; log := [] |}.

(** The run is cancelled while [get_page] sleeps. *)
Definition cancelled : World := {|
  starttags := fun _ => tags;
  tokenizer_fault := fun _ => None;
  stdout_fault := fun _ _ => None;
  stdout_fault_Exception := never_Exception;
  asyncio_sleep := fun _ => Some CancelledError;
  urlopen := fun _ _ => inr (py "<html>");
  sqlite3_fault := fun _ _ => None;
  set_iter := iter;
  set_iter_perm := fun _ X => Permutation_refl (elements X);
  check_bracketed_netloc := fun _ => true;
  nfkc_ok := fun _ => true
|}.

(** Every response is the byte FF, which is not UTF-8. *)
Definition binary : World := {|
  starttags := fun _ => tags;
  tokenizer_fault := fun _ => None;
  stdout_fault := fun _ _ => None;
  stdout_fault_Exception := never_Exception;
  asyncio_sleep := fun _ => None;
  urlopen := fun _ _ => inr [255%N];
  sqlite3_fault := fun _ _ => None;
  set_iter := iter;
  set_iter_perm := fun _ X => Permutation_refl (elements X);
  check_bracketed_netloc := fun _ => true;
  nfkc_ok := fun _ => true
|}.

(** Every request is answered with status 404. *)
Definition not_found : World := {|
  starttags := fun _ => tags;
  tokenizer_fault := fun _ => None;
  stdout_fault := fun _ _ => None;
  stdout_fault_Exception := never_Exception;
  asyncio_sleep := fun _ => None;
  urlopen := fun _ _ => inl (HTTPError 404);
  sqlite3_fault := fun _ _ => None;
  set_iter := iter;
  set_iter_perm := fun _ X => Permutation_refl (elements X);
  check_bracketed_netloc := fun _ => true;
  nfkc_ok := fun _ => true
|}.

(** The state an earlier run has left: one record in the store. *)
Definition used : State := {|
  visited := ∅;
  files := {[ url_storage := {| journal_mode_wal := true;
                                Urls := Some [py "https://en.wikipedia.org/wiki/Old"] |} ]};
  log := []
|}.

End Sample.

(** C1 as the specification words it: a call never raises. *)
Definition explore_never_raises : Prop :=
  forall (fuel : nat) (w : World) (base_url current_url db_name : str) (depth : Z)
         (st : State) (e : exn),
    (recursive_url_scrap fuel w base_url current_url db_name depth st).1 <> Raised e.

(** C9 as the specification words it has the table created again before
    any crawling. Nothing drops the table after that, so a run that has
    requested a page would end with the table in place. *)
Definition table_recreated_before_crawling : Prop :=
  forall (fuel : nat) (w : World) (argv : list str) (st : State) (u q : str),
    Re.match_seed (List.nth 1 argv []) = true ->
    Urlopen u q ∈ log (run fuel w argv st).2 ->
    Urls (database (run fuel w argv st).2 url_storage) <> None.

(** ** Further notions used by the properties of the single functions *)

(** The exceptions that come from outside the program: what
    [asyncio.sleep], [urlopen] with [read], a SQLite statement, the
    tokenizer of [HTMLParser] or [print] raises. *)
Definition raised_by_world (w : World) (e : exn) : Prop :=
  (exists h, asyncio_sleep w h = Some e)
  \/ (exists h q, urlopen w h q = inl e)
  \/ (exists h stmt, sqlite3_fault w h stmt = Some e)
  \/ (exists html, tokenizer_fault w html = Some e)
  \/ (exists h m, stdout_fault w h m = Some e).

(** The characters that [quote(.., safe=":/?&=")] leaves as they are. *)
Definition quote_safe : str := _ALWAYS_SAFE ++ py ":/?&=".

(** A raw link that the Resolver only has to append to the base: no
    percent escape, no character that [urlsplit] removes or splits at, and
    no "." or ".." segment. *)
Definition plain_link (v : str) : bool :=
  forallb (fun c => negb (one_of (py "%;?#" ++ _UNSAFE_URL_BYTES_TO_REMOVE) c)) v
  && forallb (fun seg => negb (mem seg [py "."; py ".."])) (split (chr "/") v).

(** The [url] column of [Urls] in the order of the [id]s; nothing when
    the table does not exist. *)
Definition rows_of (d : Database) : list str := default [] (Urls d).

(** [st'] comes after [st] in a traversal that saves to [db_name]: the
    log has grown by events of which the commits are to [db_name] and of
    sets with [P], and the other files are as they were. *)
Definition follows (db_name : str) (P : gset str -> Prop) (st st' : State) : Prop :=
  exists new,
    log st' = new ++ log st
    /\ Forall (fun ev => forall n L, ev = Committed n L -> n = db_name /\ P L) new
    /\ forall n, n <> db_name -> files st' !! n = files st !! n.


(** ** More sample environments *)

Module Scenario.

(** An environment with the given tokenizer, scheduler, network and
    SQLite engine, and a stream that takes every message. *)
Definition world (tokens : str -> list (str * list (str * option str)))
    (tokenizer : str -> option exn)
    (sleeps : list Event -> option exn)
    (opens : list Event -> str -> exn + bytes)
    (faults : list Event -> Statement -> option exn) : World := {|
  starttags := tokens;
  tokenizer_fault := tokenizer;
  stdout_fault := fun _ _ => None;
  stdout_fault_Exception := Sample.never_Exception;
  asyncio_sleep := sleeps;
  urlopen := opens;
  sqlite3_fault := faults;
  set_iter := Sample.iter;
  set_iter_perm := fun _ X => Permutation_refl (elements X);
  check_bracketed_netloc := fun _ => true;
  nfkc_ok := fun _ => true
|}.

(** Every commit fails: the file is locked by another process. *)
Definition locked : World :=
  world (fun _ => Sample.tags) (fun _ => None) (fun _ => None)
        (fun _ _ => inr (py "<html>"))
        (fun _ stmt => match stmt with
                       | Commit => Some (sqlite3_Error (py "database is locked"))
                       | _ => None
                       end).

(** Every page holds an article link and then a marked section with an
    unknown keyword, on which the tokenizer raises AssertionError. *)
Definition marked : World :=
  world (fun _ => [Sample.anchor "/wiki/A"])
        (fun _ => Some (OtherException (py "AssertionError")))
        (fun _ => None) (fun _ _ => inr (py "<html>")) (fun _ _ => None).

(** The server closes every connection while the response is read:
    http.client.RemoteDisconnected, which is not a URLError. *)
Definition disconnected : World :=
  world (fun _ => Sample.tags) (fun _ => None) (fun _ => None)
        (fun _ _ => inl (OtherException (py "RemoteDisconnected"))) (fun _ _ => None).

(** [stdout] is closed for the messages of the frames: their [print]
    raises ValueError. *)
Definition closes_on_frames (h : list Event) (m : Message) : option exn :=
  match m with MsgFrame _ _ _ => Some ValueError | _ => None end.

Definition closes_on_frames_Exception (h : list Event) (m : Message) (e : exn)
    (H : closes_on_frames h m = Some e) : is_Exception e = true :=
  match m return closes_on_frames h m = Some e -> is_Exception e = true with
  | MsgFrame _ _ _ =>
      fun H' => match H' in (_ = o)
                      return match o with
                             | Some e' => is_Exception e' = true
                             | None => True
                             end
                with eq_refl => eq_refl end
  | _ => Sample.never_Exception h m e
  end H.

(** The page of A cannot be decoded, and the frames cannot print. *)
Definition hushed : World := {|
  starttags := fun _ => Sample.tags;
  tokenizer_fault := fun _ => None;
  stdout_fault := closes_on_frames;
  stdout_fault_Exception := closes_on_frames_Exception;
  asyncio_sleep := fun _ => None;
  urlopen := fun _ q => if str_eqb q Sample.A then inr [255%N] else inr (py "<html>");
  sqlite3_fault := fun _ _ => None;
  set_iter := Sample.iter;
  set_iter_perm := fun _ X => Permutation_refl (elements X);
  check_bracketed_netloc := fun _ => true;
  nfkc_ok := fun _ => true
|}.

End Scenario.
(** * Properties *)

Implicit Types (w : World) (st : State) (h : list Event) (fuel : nat).
Implicit Types (db_name url base_url current_url link : str) (depth : Z).

(** ** Strings *)

Section Strings.
Implicit Types s t p r : str.

Lemma str_eqb_eq s t : str_eqb s t = true <-> s = t.
Proof.
  revert t. induction s as [|a s IH]; intros [|b t]; simpl; try (split; congruence).
  rewrite andb_true_iff, N.eqb_eq, IH. split; [intros [-> ->]|intros [= -> ->]]; auto.
Qed.

Lemma str_eqb_refl s : str_eqb s s = true.
Proof. by apply str_eqb_eq. Qed.

Lemma str_eqb_neq s t : str_eqb s t = false <-> s <> t.
Proof.
  rewrite <- str_eqb_eq. destruct (str_eqb s t); split; congruence.
Qed.

Lemma startswith_app p r : startswith p (p ++ r) = true.
Proof. induction p as [|a p IH]; simpl; [done|]. by rewrite N.eqb_refl. Qed.

Lemma startswith_inv p s : startswith p s = true -> exists r, s = p ++ r.
Proof.
  revert s. induction p as [|a p IH]; intros s H; simpl in *; [by exists s|].
  destruct s as [|b s]; [done|].
  apply andb_true_iff in H as [->%N.eqb_eq [r ->]%IH]. by exists r.
Qed.

Lemma has_elem c s : has c s = true <-> c ∈ s.
Proof.
  unfold has. rewrite existsb_exists. split.
  - intros (x & Hx & ->%N.eqb_eq). by apply list_elem_of_In.
  - intros H. exists c. split; [by apply list_elem_of_In|apply N.eqb_refl].
Qed.

Lemma has_false c s : has c s = false <-> c ∉ s.
Proof. rewrite <- has_elem. destruct (has c s); split; congruence. Qed.

Lemma has_app c s t : has c (s ++ t) = has c s || has c t.
Proof. unfold has. apply existsb_app. Qed.
End Strings.

(** ** The Link Extractor *)

Section Extractor.
Implicit Types (self : WikiParser) (attrs : list (str * option str)).

Lemma handle_attrs_links attrs self v :
  v ∈ links (handle_attrs attrs self).2 ->
  v ∈ links self \/ ((py "href", Some v) ∈ attrs /\ article_link v = true).
Proof.
  revert self.
  induction attrs as [|[name value] attrs IH]; intros self; cbn [handle_attrs]; [auto|].
  destruct (str_eqb name (py "href")) eqn:Hn.
  - apply str_eqb_eq in Hn as ->. destruct value as [u|]; [|auto].
    fold (article_link u). destruct (article_link u) eqn:Hu.
    + intros [Hv|[Hv ?]]%IH; [|right; split; [by right|done]].
      cbn [links] in Hv.
      apply elem_of_union in Hv as [->%elem_of_singleton|?]; [|auto].
      right. split; [by left|done].
    + intros [?|[? ?]]%IH; [auto|]. right. split; [by right|done].
  - intros [?|[? ?]]%IH; [auto|]. right. split; [by right|done].
Qed.

Lemma handle_attrs_mono attrs self : links self ⊆ links (handle_attrs attrs self).2.
Proof.
  revert self.
  induction attrs as [|[name value] attrs IH]; intros self; cbn [handle_attrs]; [done|].
  destruct (str_eqb name (py "href")); [|apply IH].
  destruct value as [u|]; [|done].
  destruct (startswith _ u && _); [|apply IH].
  etrans; [|apply IH]. cbn [links]. set_solver.
Qed.

Lemma handle_starttag_links tag attrs self v :
  v ∈ links (handle_starttag tag attrs self).2 ->
  v ∈ links self \/
  (tag = py "a" /\ (py "href", Some v) ∈ attrs /\ article_link v = true).
Proof.
  unfold handle_starttag. destruct (str_eqb tag (py "a")) eqn:Ht; [|auto].
  apply str_eqb_eq in Ht. intros [?|[? ?]]%handle_attrs_links; auto.
Qed.

Lemma feed_tags_links tags self v :
  v ∈ links (feed_tags tags self).2 ->
  v ∈ links self \/
  exists attrs, (py "a", attrs) ∈ tags /\ (py "href", Some v) ∈ attrs
                /\ article_link v = true.
Proof.
  revert self.
  induction tags as [|[tag attrs] tags IH]; intros self; cbn [feed_tags]; [auto|].
  destruct (handle_starttag tag attrs self) as [[e|] self'] eqn:Hh.
  - intros Hv. change self' with (Some e, self').2 in Hv. rewrite <- Hh in Hv.
    apply handle_starttag_links in Hv as [?|(-> & ? & ?)]; [auto|].
    right. exists attrs. split; [by left|done].
  - intros [Hv|(attrs' & ? & ? & ?)]%IH.
    + change self' with (@None exn, self').2 in Hv. rewrite <- Hh in Hv.
      apply handle_starttag_links in Hv as [?|(-> & ? & ?)]; [auto|].
      right. exists attrs. split; [by left|done].
    + right. exists attrs'. split; [by right|done].
Qed.

(** The tokenizer's own exception leaves the parser as the handlers left
    it. *)
Lemma feed_parser w html self :
  (feed w html self).2 = (feed_tags (starttags w html) self).2.
Proof. unfold feed. by destruct (feed_tags _ _) as [[e|] self']. Qed.

(** Every link the parser holds after a document is an article link. *)
Lemma feed_links w html v :
  v ∈ links (feed w html WikiParser_init).2 -> article_link v = true.
Proof.
  rewrite feed_parser.
  intros [Hv|(? & ? & ? & ?)]%feed_tags_links; [|done].
  cbn [links WikiParser_init] in Hv. set_solver.
Qed.

Lemma handle_attrs_nothing attrs self :
  (forall v, (py "href", Some v) ∈ attrs -> article_link v = false) ->
  links (handle_attrs attrs self).2 = links self.
Proof.
  intros H. apply set_eq. intros v. split; [|apply handle_attrs_mono].
  intros [?|[Hin Hv]]%handle_attrs_links; [done|].
  rewrite (H _ Hin) in Hv. done.
Qed.
End Extractor.

(** C5. For every markup input, every string in the link set of the
    parser starts with "/wiki", contains no ":" and is the href of an
    anchor of the input; a start tag that is not an anchor, an anchor
    without an href attribute, and an anchor whose href does not start with
    "/wiki" or contains ":" leave the link set as it was. *)
Theorem extractor_only_article_links (w : World) (html : str) :
  (forall v, v ∈ links (feed w html WikiParser_init).2 ->
     startswith (py "/wiki") v = true /\ has (chr ":") v = false /\
     exists attrs, (py "a", attrs) ∈ starttags w html /\ (py "href", Some v) ∈ attrs)
  /\ (forall tag attrs self,
        tag <> py "a" -> links (handle_starttag tag attrs self).2 = links self)
  /\ (forall attrs self,
        (forall value, (py "href", value) ∉ attrs) ->
        handle_starttag (py "a") attrs self = (None, self))
  /\ (forall attrs self,
        (forall v, (py "href", Some v) ∈ attrs ->
           startswith (py "/wiki") v = false \/ has (chr ":") v = true) ->
        links (handle_starttag (py "a") attrs self).2 = links self).
Proof.
  split; [|split; [|split]].
  - intros v Hv. pose proof (feed_links _ _ _ Hv) as Ha.
    apply andb_true_iff in Ha as [H1 H2]. apply negb_true_iff in H2.
    rewrite feed_parser in Hv.
    apply feed_tags_links in Hv as [Hv|(attrs & ? & ? & _)];
      [cbn [links WikiParser_init] in Hv; set_solver|].
    eauto.
  - intros tag attrs self Ht. unfold handle_starttag.
    apply str_eqb_neq in Ht. by rewrite Ht.
  - intros attrs self H. unfold handle_starttag. rewrite str_eqb_refl.
    revert self.
    induction attrs as [|[name value] attrs IH]; intros self; cbn [handle_attrs]; [done|].
    destruct (str_eqb name (py "href")) eqn:Hn.
    + apply str_eqb_eq in Hn as ->. exfalso. apply (H value). by left.
    + apply IH. intros value' Hin. apply (H value'). by right.
  - intros attrs self H. unfold handle_starttag. rewrite str_eqb_refl.
    apply handle_attrs_nothing. intros v Hv. unfold article_link.
    destruct (H v Hv) as [-> | ->]; [done|]. apply andb_false_r.
Qed.

(** ** The Link Store *)

Section Store.
Implicit Types (d : Database) (rows urls : list str).


Lemma insert_or_ignore_urls url d rows :
  Urls d = Some rows ->
  exists d' rows', insert_or_ignore url d = Some d' /\ Urls d' = Some rows'
                   /\ urls_of d' = {[ url ]} ∪ urls_of d.
Proof.
  intros Hd. unfold insert_or_ignore. rewrite Hd.
  eexists _, _. split; [done|]. split; [done|].
  unfold urls_of. rewrite Hd. cbn [Urls]. case_bool_decide.
  - set_solver.
  - rewrite list_to_set_app_L. cbn [list_to_set foldr]. set_solver.
Qed.

Lemma execute_ok w h stmt d :
  sqlite3_fault w h stmt = None ->
  execute w h stmt d =
    match stmt with
    | Connect | Commit => inr d
    | PragmaWAL => inr (pragma_wal d)
    | CreateTable => inr (create_table d)
    | DropTable => inr (drop_table d)
    | InsertOrIgnore url =>
        match insert_or_ignore url d with
        | Some d' => inr d'
        | None => inl (sqlite3_Error (py "no such table: Urls"))
        end
    end.
Proof. intros H. unfold execute. by rewrite H. Qed.





Lemma urls_of_create_table d : urls_of (create_table d) = urls_of d.
Proof.
  unfold create_table, urls_of. destruct (Urls d) eqn:E; cbn [Urls]; by rewrite ?E.
Qed.

Lemma create_table_exists d : exists rows, Urls (create_table d) = Some rows.
Proof. unfold create_table. destruct (Urls d) eqn:E; simpl; eauto. Qed.

Lemma set_iter_set w h (X : gset str) : list_to_set (set_iter w h X) = X.
Proof.
  apply set_eq. intros x. rewrite elem_of_list_to_set.
  rewrite (set_iter_perm w h X). apply elem_of_elements.
Qed.

Lemma elem_of_set_iter w h (X : gset str) x : x ∈ set_iter w h X <-> x ∈ X.
Proof. rewrite (set_iter_perm w h X). apply elem_of_elements. Qed.

Lemma database_set_file n d st : database (set_file n d st) n = d.
Proof. unfold database, set_file. cbn [files]. by rewrite lookup_insert_eq. Qed.

Lemma database_set_file_ne n n' d st :
  n <> n' -> database (set_file n d st) n' = database st n'.
Proof. intros H. unfold database, set_file. cbn [files]. by rewrite lookup_insert_ne. Qed.

Lemma stored_add_event e st n : stored (add_event e st) n = stored st n.
Proof. done. Qed.



End Store.



(** ** Seed validation *)

(** C8. If the seed argument does not match the URL pattern (or is
    missing), the program prints one message, runs [shutdown] and exits
    with status 1: it sends no statement to SQLite and requests no page,
    so every file, the store included, is as it was. *)
Theorem invalid_seed_exits_untouched (fuel : nat) (w : World) (argv : list str)
    (st : State) :
  Re.match_seed (List.nth 1 argv []) = false ->
  exists m,
    run fuel w argv st = (Some 1, add_event Shutdown (add_event (Print m) st))
    /\ files (run fuel w argv st).2 = files st
    /\ stored (run fuel w argv st).2 url_storage = stored st url_storage.
Proof.
  intros Hseed. unfold run, main, try_finally.
  assert (forall m : Message,
            (let '(o, st') :=
               match (print w m ;;; raise (SystemExit 1)) st with
               | (OutOfFuel, st') => (OutOfFuel, st')
               | (o, st') =>
                   match shutdown st' with
                   | (Ok _, st'') => (o, st'')
                   | (Raised e, st'') => (Raised e, st'')
                   | (OutOfFuel, st'') => (OutOfFuel, st'')
                   end
               end in (exit_status o, st'))
            = (Some 1, add_event Shutdown (add_event (Print m) st))) as Hprint.
  { intros m. unfold bind, print, raise.
    destruct (stdout_fault w (log st) m) as [e|] eqn:Hf; [|done].
    pose proof (stdout_fault_Exception w _ _ _ Hf) as He. cbn. by destruct e. }
  destruct (length argv <? 2)%nat eqn:Hlen.
  - exists (MsgUsage (List.hd [] argv)). by rewrite Hprint.
  - rewrite Hseed. cbn [negb]. exists MsgInvalidURL. by rewrite Hprint.
Qed.

Lemma invalid_seed_exits_untouched_witness :
  Re.match_seed (py "not-a-url") = false
  /\ exists m,
       run 7 Sample.calm [py "main.py"; py "not-a-url"] Sample.start
       = (Some 1, add_event Shutdown (add_event (Print m) Sample.start)).
Proof.
  split; [reflexivity|].
  destruct (invalid_seed_exits_untouched 7 Sample.calm
              [py "main.py"; py "not-a-url"] Sample.start) as (m & Hm & _);
    [reflexivity|].
  by exists m.
Defined.

(** ** The Link Resolver *)

(** *** Decoding and unquoting keep an ASCII prefix *)

Section Unquote.
Implicit Types (p s r : str) (bs : bytes).

Lemma decode_replace_total_upto (n : nat) bs :
  (length bs <= n)%nat -> exists s, Utf8.decode Utf8.Replace bs = Some s.
Proof.
  revert bs. induction n as [|n IH]; intros bs Hlen.
  { destruct bs; [by exists []|simpl in Hlen; lia]. }
  assert (forall r : bytes, (length r <= n)%nat ->
            exists s, Utf8.bad Utf8.Replace (Utf8.decode Utf8.Replace r) = Some s) as Hbad.
  { intros r [s Hs]%IH. cbn [Utf8.bad]. rewrite Hs. by eexists. }
  assert (forall (c : N) (r : bytes), (length r <= n)%nat ->
            exists s, option_map (cons c) (Utf8.decode Utf8.Replace r) = Some s) as Hok.
  { intros c r [s Hs]%IH. rewrite Hs. by eexists. }
  assert (exists s, Utf8.bad Utf8.Replace (Some []) = Some s) as Hend by (by eexists).
  destruct bs as [|b r1]; [by exists []|]. cbn [length] in Hlen.
  cbn [Utf8.decode].
  repeat match goal with
         | |- context [match ?r with [] => _ | _ :: _ => _ end] =>
             is_var r; destruct r; cbn [length] in Hlen
         | |- context [if ?c then _ else _] => destruct c
         end;
    first [ apply Hend | apply Hbad; cbn [length]; lia | apply Hok; cbn [length]; lia ].
Qed.

Lemma decode_replace_total bs : exists s, Utf8.decode Utf8.Replace bs = Some s.
Proof. by apply (decode_replace_total_upto (length bs)). Qed.

Lemma decode_ascii_prefix e p bs :
  forallb isascii p = true ->
  Utf8.decode e (p ++ bs) = option_map (app p) (Utf8.decode e bs).
Proof.
  induction p as [|c p IH]; intros Hp; cbn [app].
  - by destruct (Utf8.decode e bs).
  - cbn [forallb] in Hp. apply andb_true_iff in Hp as [Hc Hp].
    unfold isascii in Hc. cbn [Utf8.decode]. rewrite Hc, (IH Hp).
    by destruct (Utf8.decode e bs).
Qed.

Lemma decode_replace_prefix p bs :
  forallb isascii p = true ->
  exists s, Utf8.decode_replace (p ++ bs) = p ++ s.
Proof.
  intros Hp. unfold Utf8.decode_replace. rewrite (decode_ascii_prefix _ _ _ Hp).
  destruct (decode_replace_total bs) as [s ->]. by exists s.
Qed.

Lemma split_nonempty c s : split c s <> [].
Proof.
  destruct s as [|x s]; cbn [split]; [done|].
  destruct (x =? c)%N; [done|]. by destruct (split c s).
Qed.

Lemma split_prefix c p s :
  has c p = false ->
  exists b0 t, split c s = b0 :: t /\ split c (p ++ s) = (p ++ b0) :: t.
Proof.
  induction p as [|x p IH]; intros Hp; cbn [app].
  - destruct (split c s) as [|b0 t] eqn:E; [by apply split_nonempty in E|]. by exists b0, t.
  - unfold has in Hp. cbn [existsb] in Hp. apply orb_false_iff in Hp as [Hx Hp].
    destruct (IH Hp) as (b0 & t & Hs & Hps). exists b0, t. split; [done|].
    cbn [split]. rewrite N.eqb_sym, Hx, Hps. done.
Qed.

Lemma unquote_to_bytes_prefix p s :
  has (chr "%") p = false -> exists bs, unquote_to_bytes (p ++ s) = p ++ bs.
Proof.
  intros Hp. unfold unquote_to_bytes.
  destruct (split_prefix (chr "%") p s Hp) as (b0 & t & Hs & ->).
  destruct t as [|i t]; [by exists s|].
  rewrite <- app_assoc. by eexists.
Qed.

Lemma ascii_runs_prefix p s :
  p <> [] -> forallb isascii p = true ->
  exists run rs, ascii_runs (p ++ s) = (true, p ++ run) :: rs.
Proof.
  induction p as [|c p IH]; intros Hne Hp; [done|].
  cbn [forallb] in Hp. apply andb_true_iff in Hp as [Hc Hp].
  cbn [app ascii_runs]. destruct p as [|c' p].
  - cbn [app]. destruct (ascii_runs s) as [|[k run] rs]; rewrite ?Hc.
    + by exists [], [].
    + destruct k; cbn [Bool.eqb]; by eexists _, _.
  - destruct (IH ltac:(done) Hp) as (run & rs & ->).
    rewrite Hc. cbn [Bool.eqb]. by exists run, rs.
Qed.

(** [unquote] leaves a non-empty ASCII prefix without "%" where it is. *)
Lemma unquote_prefix p s :
  p <> [] -> forallb isascii p = true -> has (chr "%") p = false ->
  exists r, unquote (p ++ s) = p ++ r.
Proof.
  intros Hne Hascii Hpct. unfold unquote.
  destruct (has (chr "%") (p ++ s)); cbn [negb]; [|by exists s].
  destruct (ascii_runs_prefix p s Hne Hascii) as (run & rs & ->).
  cbn [map concat].
  destruct (unquote_to_bytes_prefix p run Hpct) as (bs & ->).
  destruct (decode_replace_prefix p bs Hascii) as (r & ->).
  rewrite <- app_assoc. by eexists.
Qed.
End Unquote.

(** *** [urlsplit] on an absolute path and on an origin *)

Section Urlsplit.
Implicit Types (p s t r n u : str) (c x : N).
Variables (chk nf : str -> bool).

Lemma lstrip_keep chars x s : one_of chars x = false -> lstrip chars (x :: s) = x :: s.
Proof. intros H. cbn [lstrip]. by rewrite H. Qed.

Lemma remove_unsafe_cons x s :
  one_of _UNSAFE_URL_BYTES_TO_REMOVE x = false ->
  _remove_unsafe (x :: s) = x :: _remove_unsafe s.
Proof.
  intros H. unfold one_of, has, _UNSAFE_URL_BYTES_TO_REMOVE in H. cbn [existsb] in H.
  rewrite !orb_false_iff in H. destruct H as (H9 & H13 & H10 & _).
  unfold _remove_unsafe, _UNSAFE_URL_BYTES_TO_REMOVE, remove. cbn [fold_left List.filter].
  rewrite H9. cbn [negb List.filter]. rewrite H13. cbn [negb List.filter]. rewrite H10.
  done.
Qed.

Lemma remove_unsafe_id s :
  forallb (fun c => negb (one_of _UNSAFE_URL_BYTES_TO_REMOVE c)) s = true ->
  _remove_unsafe s = s.
Proof.
  induction s as [|x s IH]; [done|]. cbn [forallb]. intros [Hx Hs]%andb_true_iff.
  apply negb_true_iff in Hx. by rewrite remove_unsafe_cons, IH.
Qed.

Lemma remove_unsafe_app s t :
  _remove_unsafe (s ++ t) = _remove_unsafe s ++ _remove_unsafe t.
Proof.
  unfold _remove_unsafe, _UNSAFE_URL_BYTES_TO_REMOVE, remove. cbn [fold_left].
  by rewrite !List.filter_app.
Qed.

(** A url that does not begin with a letter has no scheme of its own. *)
Lemma split_scheme_none d x s :
  is_ascii_alpha x = false -> _split_scheme d (x :: s) = (d, x :: s).
Proof.
  intros H. unfold _split_scheme. rewrite H.
  by destruct (find (chr ":") (x :: s)) as [[|i]|].
Qed.

Lemma split_off_cons c x s :
  (x =? c)%N = false ->
  _split_off c (x :: s) = ((x :: (_split_off c s).1), (_split_off c s).2).
Proof.
  intros H. unfold _split_off. cbn [split1]. rewrite H.
  by destruct (split1 c s) as [[a b]|].
Qed.

(** The position [_splitnetloc] cuts at moves with the string. *)
Lemma splitnetloc_cons x s :
  _splitnetloc (x :: s) =
    if one_of (py "/?#") x then ([], x :: s)
    else (x :: (_splitnetloc s).1, (_splitnetloc s).2).
Proof.
  unfold _splitnetloc, one_of, has.
  change (py "/?#") with [47; 63; 35]%N.
  cbn [fold_left find existsb length].
  destruct (x =? 47)%N, (x =? 63)%N, (x =? 35)%N; cbn [orb];
    repeat match goal with
           | |- context [find ?c s] => destruct (find c s); cbn [option_map]
           end;
    rewrite ?Nat.min_0_r, ?Nat.min_0_l; try done;
    rewrite <- ?Nat.succ_min_distr; done.
Qed.

Lemma splitnetloc_free n t :
  forallb (fun c => negb (one_of (py "/?#") c)) n = true ->
  (t = [] \/ exists r, t = chr "/" :: r) ->
  _splitnetloc (n ++ t) = (n, t).
Proof.
  intros Hn Ht. induction n as [|x n IH]; cbn [app].
  - destruct Ht as [->|[r ->]]; [done|]. by rewrite splitnetloc_cons.
  - cbn [forallb] in Hn. apply andb_true_iff in Hn as [Hx Hn].
    apply negb_true_iff in Hx. rewrite splitnetloc_cons, Hx, (IH Hn). done.
Qed.

(** [urlsplit] of a url that begins with "/w": no scheme of its own, no
    netloc, and a path that begins with "/w". *)
Lemma urlsplit_abs_path d t :
  exists a q f,
    urlsplit chk nf (chr "/" :: chr "w" :: t) d
    = Some {| sr_scheme := _remove_unsafe (strip _WHATWG_C0_CONTROL_OR_SPACE d);
              sr_netloc := []; sr_path := chr "/" :: chr "w" :: a;
              sr_query := q; sr_fragment := f |}.
Proof.
  unfold urlsplit.
  rewrite lstrip_keep by reflexivity.
  rewrite !remove_unsafe_cons by reflexivity.
  rewrite split_scheme_none by reflexivity.
  unfold _split_netloc.
  change (startswith (py "//") (chr "/" :: chr "w" :: _remove_unsafe t)) with false.
  cbv iota.
  rewrite !(split_off_cons (chr "#")) by reflexivity.
  destruct (_split_off (chr "#") (_remove_unsafe t)) as [u f]. cbn [fst snd].
  rewrite !(split_off_cons (chr "?")) by reflexivity.
  destruct (_split_off (chr "?") u) as [a q]. cbn [fst snd _checknetloc].
  by exists a, q, f.
Qed.

Lemma split_scheme_http d t :
  _split_scheme d (py "http" ++ chr ":" :: t) = (py "http", t).
Proof. reflexivity. Qed.

Lemma split_scheme_https d t :
  _split_scheme d (py "https" ++ chr ":" :: t) = (py "https", t).
Proof. reflexivity. Qed.

Lemma one_of_app a b c : one_of (a ++ b) c = one_of a c || one_of b c.
Proof. apply has_app. Qed.

Lemma forallb_none_of a b n :
  forallb (fun c => negb (one_of (a ++ b) c)) n = true ->
  forallb (fun c => negb (one_of a c)) n = true
  /\ forallb (fun c => negb (one_of b c)) n = true.
Proof.
  induction n as [|x n IH]; [done|]. cbn [forallb].
  rewrite one_of_app, negb_orb, !andb_true_iff. intros [[? ?] [? ?]%IH]. done.
Qed.

(** [urlsplit] reads the scheme and the netloc of [scheme://netloc] and
    of [scheme://netloc/..] as they are written. *)
Lemma urlsplit_origin s n t :
  s = py "http" \/ s = py "https" ->
  forallb (fun c => negb (one_of (py "/?#" ++ _UNSAFE_URL_BYTES_TO_REMOVE) c)) n = true ->
  _brackets_ok chk n = true -> _checknetloc nf n = true ->
  (t = [] \/ exists r, t = chr "/" :: r) ->
  exists a q f,
    urlsplit chk nf (s ++ py "://" ++ n ++ t) []
    = Some {| sr_scheme := s; sr_netloc := n; sr_path := a;
              sr_query := q; sr_fragment := f |}
    /\ (t = [] -> a = [] /\ q = [] /\ f = []).
Proof.
  intros Hs [Hdelim Hunsafe]%forallb_none_of Hbr Hck Ht.
  assert (exists t', _remove_unsafe t = t' /\ (t = [] -> t' = [])
                     /\ (t' = [] \/ exists r, t' = chr "/" :: r)) as (t' & Ht' & Hnil & Hform).
  { destruct Ht as [->|[r ->]].
    - exists []. split; [done|]. split; [done|by left].
    - rewrite remove_unsafe_cons by reflexivity. eexists. split; [done|].
      split; [done|]. right. by eexists. }
  assert (urlsplit chk nf (s ++ py "://" ++ n ++ t) []
          = match _split_netloc chk (py "//" ++ n ++ t') with
            | None => None
            | Some (netloc, url) =>
                let '(url, fragment) := _split_off (chr "#") url in
                let '(url, query) := _split_off (chr "?") url in
                if _checknetloc nf netloc
                then Some {| sr_scheme := s; sr_netloc := netloc; sr_path := url;
                             sr_query := query; sr_fragment := fragment |}
                else None
            end) as ->.
  { unfold urlsplit. destruct Hs as [-> | ->].
    - change (py "http" ++ py "://" ++ n ++ t)
        with (py "http" ++ chr ":" :: chr "/" :: chr "/" :: n ++ t).
      change (py "http" ++ ?x) with (104 :: 116 :: 116 :: 112 :: x)%N.
      rewrite lstrip_keep by reflexivity.
      rewrite !remove_unsafe_cons by reflexivity.
      rewrite remove_unsafe_app, (remove_unsafe_id n), Ht' by done.
      change (104 :: 116 :: 116 :: 112 :: ?x)%N with (py "http" ++ x).
      by rewrite split_scheme_http.
    - change (py "https" ++ py "://" ++ n ++ t)
        with (py "https" ++ chr ":" :: chr "/" :: chr "/" :: n ++ t).
      change (py "https" ++ ?x) with (104 :: 116 :: 116 :: 112 :: 115 :: x)%N.
      rewrite lstrip_keep by reflexivity.
      rewrite !remove_unsafe_cons by reflexivity.
      rewrite remove_unsafe_app, (remove_unsafe_id n), Ht' by done.
      change (104 :: 116 :: 116 :: 112 :: 115 :: ?x)%N with (py "https" ++ x).
      by rewrite split_scheme_https. }
  unfold _split_netloc.
  change (startswith (py "//") (py "//" ++ n ++ t')) with true. cbv iota.
  change (drop 2 (py "//" ++ n ++ t')) with (n ++ t').
  rewrite (splitnetloc_free n t') by done. rewrite Hbr.
  destruct (_split_off (chr "#") t') as [u f] eqn:Hf.
  destruct (_split_off (chr "?") u) as [a q] eqn:Hq.
  rewrite Hck. exists a, q, f. split; [done|].
  intros ->%Hnil. cbn in Hf. injection Hf as <- <-. cbn in Hq. by injection Hq as <- <-.
Qed.

Lemma splitparams_slash p : exists a prm, _splitparams (chr "/" :: p) = (chr "/" :: a, prm).
Proof.
  unfold _splitparams.
  change (has (chr "/") (chr "/" :: p)) with true. cbv iota.
  change (chr "/") with 47%N. cbn [rfind].
  destruct (rfind 47 p) as [i|].
  - destruct (find _ (drop (S i) (47%N :: p))) as [j|]; cbn [option_map Nat.add take];
      by eexists _, _.
  - change (47 =? 47)%N with true. cbv iota. cbn [drop find].
    change (47 =? chr ";")%N with false. cbv iota.
    destruct (find (chr ";") p) as [j|]; cbn [option_map Nat.add take]; by eexists _, _.
Qed.

(** [urlparse] of a url that begins with "/w" under an http(s) default. *)
Lemma urlparse_abs_path s t :
  s = py "http" \/ s = py "https" ->
  exists a prm q f,
    urlparse chk nf (chr "/" :: chr "w" :: t) s
    = Some {| scheme := s; netloc := []; path := chr "/" :: a;
              params := prm; query := q; fragment := f |}.
Proof.
  intros Hs. unfold urlparse.
  destruct (urlsplit_abs_path s t) as (a & q & f & ->).
  assert (_remove_unsafe (strip _WHATWG_C0_CONTROL_OR_SPACE s) = s) as ->
    by (by destruct Hs as [-> | ->]).
  cbn [sr_scheme sr_netloc sr_path sr_query sr_fragment].
  destruct (mem s uses_params && has (chr ";") (chr "/" :: chr "w" :: a)).
  - destruct (splitparams_slash (chr "w" :: a)) as (a' & prm & ->). by eexists _, _, _, _.
  - by eexists _, _, _, _.
Qed.

Lemma urlparse_origin s n :
  s = py "http" \/ s = py "https" ->
  forallb (fun c => negb (one_of (py "/?#" ++ _UNSAFE_URL_BYTES_TO_REMOVE) c)) n = true ->
  _brackets_ok chk n = true -> _checknetloc nf n = true ->
  urlparse chk nf (s ++ py "://" ++ n) []
  = Some {| scheme := s; netloc := n; path := [];
            params := []; query := []; fragment := [] |}.
Proof.
  intros Hs Hn Hbr Hck. unfold urlparse.
  destruct (urlsplit_origin s n [] Hs Hn Hbr Hck ltac:(by left))
    as (a & q & f & Hsplit & Hnil).
  rewrite app_nil_r in Hsplit. rewrite Hsplit.
  destruct Hnil as (-> & -> & ->); [done|].
  cbn [sr_scheme sr_netloc sr_path sr_query sr_fragment has existsb].
  by rewrite andb_false_r.
Qed.

Lemma urlunparse_form s n p prm q f :
  s <> [] -> n <> [] -> p <> [] ->
  exists rest,
    urlunparse {| scheme := s; netloc := n; path := p; params := prm;
                  query := q; fragment := f |}
    = s ++ py "://" ++ n ++ chr "/" :: rest.
Proof.
  intros Hs Hn Hp. unfold urlunparse, urlunsplit.
  cbn [scheme netloc path params query fragment].
  apply str_eqb_neq in Hs, Hn. rewrite Hs, Hn. cbn [negb orb].
  assert (exists c y, (if negb (str_eqb prm []) then p ++ chr ";" :: prm else p) = c :: y)
    as (c & y & ->).
  { destruct p as [|c p]; [done|]. destruct (negb _); by eexists _, _. }
  assert (exists z, (if negb (str_eqb (c :: y) []) && negb (str_eqb (take 1 (c :: y)) (py "/"))
                     then chr "/" :: c :: y else c :: y) = chr "/" :: z) as (z & ->).
  { cbn [str_eqb negb andb take].
    change (py "/") with [47%N]. cbn [str_eqb]. rewrite andb_true_r.
    destruct (c =? 47)%N eqn:Hc; cbn [negb].
    - apply N.eqb_eq in Hc as ->. by eexists.
    - by eexists. }
  change (s ++ chr ":" :: py "//" ++ n ++ chr "/" :: z)
    with (s ++ py "://" ++ n ++ chr "/" :: z).
  destruct (negb (str_eqb q [])), (negb (str_eqb f []));
    rewrite <- ?app_assoc, <- ?app_comm_cons; by eexists.
Qed.

(** Joining a url that begins with "/w" to an http(s) origin keeps the
    origin and appends a path that begins with "/". *)
Lemma urljoin_abs_path s n t :
  s = py "http" \/ s = py "https" -> n <> [] ->
  forallb (fun c => negb (one_of (py "/?#" ++ _UNSAFE_URL_BYTES_TO_REMOVE) c)) n = true ->
  _brackets_ok chk n = true -> _checknetloc nf n = true ->
  exists rest,
    urljoin chk nf (s ++ py "://" ++ n) (chr "/" :: chr "w" :: t)
    = Some (s ++ py "://" ++ n ++ chr "/" :: rest).
Proof.
  intros Hs Hne Hn Hbr Hck. unfold urljoin.
  assert (exists c b, s ++ py "://" ++ n = c :: b) as (c & b & Hbase)
    by (destruct Hs as [-> | ->]; by eexists _, _).
  rewrite Hbase. cbv iota. rewrite <- Hbase. clear c b Hbase.
  rewrite (urlparse_origin s n Hs Hn Hbr Hck).
  cbn [scheme netloc path params query fragment].
  destruct (urlparse_abs_path s t Hs) as (a & prm & q & f & ->).
  cbn [scheme netloc path params query fragment].
  rewrite str_eqb_refl.
  assert (mem s uses_relative = true) as -> by (by destruct Hs as [-> | ->]).
  assert (mem s uses_netloc = true) as -> by (by destruct Hs as [-> | ->]).
  cbn [negb orb andb str_eqb take].
  change (py "/") with [47%N]. change (chr "/") with 47%N.
  cbn [str_eqb]. rewrite N.eqb_refl. cbn [andb].
  match goal with
  | |- exists rest, Some (urlunparse {| scheme := _; netloc := _; path := ?p;
                                       params := _; query := _; fragment := _ |}) = _ =>
      destruct (urlunparse_form s n p prm q f) as [rest ->]
  end.
  - destruct Hs as [-> | ->]; done.
  - done.
  - destruct (str_eqb _ []) eqn:E; [done|]. by apply str_eqb_neq in E.
  - by exists rest.
Qed.
Lemma splitnetloc_fst_forall (Q : N -> bool) s :
  forallb Q s = true -> forallb Q (_splitnetloc s).1 = true.
Proof.
  induction s as [|x s IH]; [done|]. cbn [forallb]. intros [Hx Hs]%andb_true_iff.
  rewrite splitnetloc_cons. destruct (one_of (py "/?#") x); [done|].
  cbn [fst forallb]. by rewrite Hx, IH.
Qed.

Lemma splitnetloc_fst_delims s :
  forallb (fun c => negb (one_of (py "/?#") c)) (_splitnetloc s).1 = true.
Proof.
  induction s as [|x s IH]; [done|].
  rewrite splitnetloc_cons. destruct (one_of (py "/?#") x) eqn:Hx; [done|].
  cbn [fst forallb]. by rewrite Hx, IH.
Qed.

Lemma remove_unsafe_forall s :
  forallb (fun c => negb (one_of _UNSAFE_URL_BYTES_TO_REMOVE c)) (_remove_unsafe s) = true.
Proof.
  induction s as [|x s IH]; [done|].
  destruct (one_of _UNSAFE_URL_BYTES_TO_REMOVE x) eqn:Hx.
  - change (x :: s) with ([x] ++ s). rewrite remove_unsafe_app.
    assert (_remove_unsafe [x] = []) as ->; [|done].
    apply has_elem in Hx. unfold _UNSAFE_URL_BYTES_TO_REMOVE in Hx.
    repeat (apply elem_of_cons in Hx as [->|Hx]; [done|]). by apply elem_of_nil in Hx.
  - rewrite remove_unsafe_cons by done. cbn [forallb]. by rewrite Hx, IH.
Qed.

Lemma forallb_none_of_app a b n :
  forallb (fun c => negb (one_of a c)) n = true ->
  forallb (fun c => negb (one_of b c)) n = true ->
  forallb (fun c => negb (one_of (a ++ b) c)) n = true.
Proof.
  induction n as [|x n IH]; [done|]. cbn [forallb].
  intros [Ha Hn]%andb_true_iff [Hb Hn']%andb_true_iff.
  rewrite one_of_app, negb_orb, Ha, Hb, IH; done.
Qed.

End Urlsplit.

(** *** The Resolver on article links *)

Section Resolver.
Implicit Types (s n raw : str).

Lemma http_origin_inv w s n :
  http_origin w s n = true ->
  (s = py "http" \/ s = py "https") /\ n <> []
  /\ forallb (fun c => negb (one_of (py "/?#" ++ _UNSAFE_URL_BYTES_TO_REMOVE) c)) n = true
  /\ _brackets_ok (check_bracketed_netloc w) n = true
  /\ _checknetloc (nfkc_ok w) n = true.
Proof.
  unfold http_origin, netloc_accepted. rewrite !andb_true_iff, orb_true_iff.
  rewrite !str_eqb_eq, negb_true_iff, str_eqb_neq. tauto.
Qed.

(** An http(s) origin reads back as its scheme and netloc. *)
Lemma origin_of_origin w s n :
  http_origin w s n = true -> origin_of w (s ++ py "://" ++ n) = Some (s, n).
Proof.
  intros (Hs & Hne & Hn & Hbr & Hck)%http_origin_inv. unfold origin_of.
  destruct (urlsplit_origin (check_bracketed_netloc w) (nfkc_ok w) s n []
              Hs Hn Hbr Hck ltac:(by left)) as (a & q & f & Hsplit & _).
  rewrite app_nil_r in Hsplit. by rewrite Hsplit.
Qed.

(** The Resolver maps a raw link that begins with "/wiki" to a url of
    the base origin. *)
Lemma resolve_article w s n raw :
  http_origin w s n = true -> startswith (py "/wiki") raw = true ->
  exists rest,
    resolve w (s ++ py "://" ++ n) raw = Some (s ++ py "://" ++ n ++ chr "/" :: rest)
    /\ origin_of w (s ++ py "://" ++ n ++ chr "/" :: rest) = Some (s, n).
Proof.
  intros Ho [r ->]%startswith_inv.
  pose proof Ho as (Hs & Hne & Hn & Hbr & Hck)%http_origin_inv.
  unfold resolve.
  destruct (unquote_prefix (py "/wiki") r) as [r' ->]; [done..|].
  change (py "/wiki" ++ r') with (chr "/" :: chr "w" :: py "iki" ++ r').
  destruct (urljoin_abs_path (check_bracketed_netloc w) (nfkc_ok w) s n
              (py "iki" ++ r') Hs Hne Hn Hbr Hck) as [rest ->].
  exists rest. split; [done|]. unfold origin_of.
  destruct (urlsplit_origin (check_bracketed_netloc w) (nfkc_ok w) s n
              (chr "/" :: rest) Hs Hn Hbr Hck ltac:(right; by eexists))
    as (a & q & f & -> & _).
  done.
Qed.
End Resolver.

(** *** The Resolver on relative references *)

Section Relative.
Implicit Types (c x : N) (b : ParseResult).
Variables (chk nf : str -> bool).

(** What holds of each scheme of [uses_relative] that is not empty and
    is one of [uses_netloc] holds of the schemes with [joins_netloc]. *)
Lemma joins_netloc_each (P : str -> Prop) :
  List.Forall P (List.filter joins_netloc uses_relative) ->
  forall s, joins_netloc s = true -> P s.
Proof.
  intros HP s Hs. rewrite List.Forall_forall in HP. apply HP.
  apply List.filter_In. split; [|done].
  apply andb_true_iff in Hs as [[_ Hrel]%andb_true_iff _].
  unfold mem in Hrel. apply List.existsb_exists in Hrel as (x & Hin & Hx).
  apply str_eqb_eq in Hx. by subst.
Qed.

Local Ltac each_scheme :=
  let l := eval vm_compute in (List.filter joins_netloc uses_relative) in
  change (List.filter joins_netloc uses_relative) with l;
  repeat (apply List.Forall_cons; [intros; reflexivity|]); apply List.Forall_nil.

Lemma split_scheme_known s d t :
  joins_netloc s = true -> _split_scheme d (s ++ chr ":" :: t) = (s, t).
Proof.
  intros Hs. revert d t.
  apply (joins_netloc_each (fun s => forall d t, _split_scheme d (s ++ chr ":" :: t) = (s, t)));
    [each_scheme|done].
Qed.

Lemma lstrip_known s t :
  joins_netloc s = true -> lstrip _WHATWG_C0_CONTROL_OR_SPACE (s ++ t) = s ++ t.
Proof.
  intros Hs. revert t.
  apply (joins_netloc_each
           (fun s => forall t, lstrip _WHATWG_C0_CONTROL_OR_SPACE (s ++ t) = s ++ t));
    [each_scheme|done].
Qed.

Lemma remove_unsafe_known s :
  joins_netloc s = true -> _remove_unsafe s = s.
Proof.
  apply (joins_netloc_each (fun s => _remove_unsafe s = s)). each_scheme.
Qed.

Lemma default_scheme_known s :
  joins_netloc s = true ->
  _remove_unsafe (strip _WHATWG_C0_CONTROL_OR_SPACE s) = s.
Proof.
  apply (joins_netloc_each
           (fun s => _remove_unsafe (strip _WHATWG_C0_CONTROL_OR_SPACE s) = s)).
  each_scheme.
Qed.

Lemma joins_netloc_inv s :
  joins_netloc s = true ->
  s <> [] /\ mem s uses_relative = true /\ mem s uses_netloc = true.
Proof.
  unfold joins_netloc. intros [[H1 H2]%andb_true_iff H3]%andb_true_iff.
  apply negb_true_iff, str_eqb_neq in H1. done.
Qed.

(** [_splitnetloc] cuts before the first delimiter. *)
Lemma splitnetloc_delim n t :
  forallb (fun c => negb (one_of (py "/?#") c)) n = true ->
  (t = [] \/ exists c r, t = c :: r /\ one_of (py "/?#") c = true) ->
  _splitnetloc (n ++ t) = (n, t).
Proof.
  intros Hn Ht. induction n as [|x n IH]; cbn [app].
  - destruct Ht as [->|(c & r & -> & Hc)]; [done|]. by rewrite splitnetloc_cons, Hc.
  - cbn [forallb] in Hn. apply andb_true_iff in Hn as [Hx Hn].
    apply negb_true_iff in Hx. rewrite splitnetloc_cons, Hx, (IH Hn). done.
Qed.

Lemma delim_not_unsafe c :
  one_of (py "/?#") c = true -> one_of _UNSAFE_URL_BYTES_TO_REMOVE c = false.
Proof.
  intros Hc. apply has_elem in Hc.
  change (py "/?#") with [47; 63; 35]%N in Hc.
  repeat (apply elem_of_cons in Hc as [->|Hc]; [done|]). by apply elem_of_nil in Hc.
Qed.

(** [urlsplit] reads back the scheme and the netloc of a url that is
    written [scheme://netloc] and goes on, if it does, with a delimiter. *)
Lemma urlsplit_known_origin s n t :
  joins_netloc s = true ->
  forallb (fun c => negb (one_of (py "/?#" ++ _UNSAFE_URL_BYTES_TO_REMOVE) c)) n = true ->
  _brackets_ok chk n = true -> _checknetloc nf n = true ->
  (t = [] \/ exists c r, t = c :: r /\ one_of (py "/?#") c = true) ->
  exists a q f,
    urlsplit chk nf (s ++ py "://" ++ n ++ t) []
    = Some {| sr_scheme := s; sr_netloc := n; sr_path := a;
              sr_query := q; sr_fragment := f |}.
Proof.
  intros Hs [Hdelim Hunsafe]%forallb_none_of Hbr Hck Ht.
  assert (_remove_unsafe t = [] \/
          exists c r, _remove_unsafe t = c :: r /\ one_of (py "/?#") c = true) as Ht'.
  { destruct Ht as [->|(c & r & -> & Hc)]; [by left|]. right.
    rewrite remove_unsafe_cons by (by apply delim_not_unsafe). by eexists _, _. }
  unfold urlsplit. rewrite lstrip_known by done.
  rewrite remove_unsafe_app, (remove_unsafe_known s Hs).
  change (py "://" ++ n ++ t) with (chr ":" :: chr "/" :: chr "/" :: n ++ t).
  rewrite !remove_unsafe_cons by reflexivity.
  rewrite remove_unsafe_app, (remove_unsafe_id n Hunsafe).
  rewrite split_scheme_known by done.
  unfold _split_netloc.
  change (startswith (py "//") (chr "/" :: chr "/" :: n ++ _remove_unsafe t)) with true.
  cbv iota. change (drop 2 (chr "/" :: chr "/" :: n ++ _remove_unsafe t))
    with (n ++ _remove_unsafe t).
  rewrite (splitnetloc_delim n _ Hdelim Ht'), Hbr.
  destruct (_split_off (chr "#") _) as [u f].
  destruct (_split_off (chr "?") u) as [a q].
  rewrite Hck. by exists a, q, f.
Qed.

Lemma forallb_drop (Q : N -> bool) (k : nat) s :
  forallb Q s = true -> forallb Q (drop k s) = true.
Proof.
  revert k. induction s as [|x s IH]; intros [|k]; cbn [drop forallb]; try done.
  intros [_ Hs]%andb_true_iff. by apply IH.
Qed.

Lemma split_scheme_suffix d url s' url' :
  _split_scheme d url = (s', url') -> exists k, url' = drop k url.
Proof.
  unfold _split_scheme.
  destruct (find (chr ":") url) as [[|i]|]; destruct url as [|c0 url0];
    try (intros [= _ <-]; by exists 0%nat).
  destruct (is_ascii_alpha c0 && _); intros [= _ <-];
    [by exists (S (S i))|by exists 0%nat].
Qed.

(** The netloc that [urlsplit] reads holds no delimiter and none of the
    characters that [urlsplit] removes, and it passed the checks. *)
Lemma urlsplit_netloc_ok url d res :
  urlsplit chk nf url d = Some res ->
  forallb (fun c => negb (one_of (py "/?#" ++ _UNSAFE_URL_BYTES_TO_REMOVE) c))
    (sr_netloc res) = true
  /\ _brackets_ok chk (sr_netloc res) = true
  /\ _checknetloc nf (sr_netloc res) = true.
Proof.
  unfold urlsplit.
  destruct (_split_scheme _ _) as [s' url'] eqn:Hss.
  apply split_scheme_suffix in Hss as [k ->].
  pose proof (forallb_drop _ k _ (remove_unsafe_forall
                (lstrip _WHATWG_C0_CONTROL_OR_SPACE url))) as Hsafe.
  unfold _split_netloc.
  destruct (startswith (py "//") _).
  - pose proof (splitnetloc_fst_delims (drop 2 (drop k (_remove_unsafe
                  (lstrip _WHATWG_C0_CONTROL_OR_SPACE url))))) as Hd.
    pose proof (splitnetloc_fst_forall _ _ (forallb_drop _ 2 _ Hsafe)) as Hu.
    destruct (_splitnetloc _) as [netloc rest]. cbn [fst] in Hd, Hu.
    destruct (_brackets_ok chk netloc) eqn:Hbr; [|done].
    destruct (_split_off (chr "#") rest) as [u f].
    destruct (_split_off (chr "?") u) as [a q].
    destruct (_checknetloc nf netloc) eqn:Hck; [|done].
    intros [= <-]. cbn [sr_netloc]. by rewrite forallb_none_of_app.
  - destruct (_split_off (chr "#") _) as [u f].
    destruct (_split_off (chr "?") u) as [a q].
    cbn [_checknetloc]. by intros [= <-].
Qed.

Lemma urlparse_netloc_ok url d b :
  urlparse chk nf url d = Some b ->
  forallb (fun c => negb (one_of (py "/?#" ++ _UNSAFE_URL_BYTES_TO_REMOVE) c))
    (netloc b) = true
  /\ _brackets_ok chk (netloc b) = true
  /\ _checknetloc nf (netloc b) = true.
Proof.
  unfold urlparse. destruct (urlsplit chk nf url d) as [res|] eqn:Hsplit; [|done].
  apply urlsplit_netloc_ok in Hsplit.
  destruct (if mem (sr_scheme res) uses_params && has (chr ";") (sr_path res)
            then _splitparams (sr_path res) else (sr_path res, [])) as [u prm].
  by intros [= <-].
Qed.

(** What [urlunsplit] writes for a scheme and a netloc that are not
    empty: [scheme://netloc], then nothing or a delimiter and the rest. *)
Lemma urlunsplit_form s n url q f :
  s <> [] -> n <> [] ->
  exists rest,
    urlunsplit s n url q f = s ++ py "://" ++ n ++ rest
    /\ (rest = [] \/ exists c r, rest = c :: r /\ one_of (py "/?#") c = true).
Proof.
  intros Hs Hn. unfold urlunsplit.
  apply str_eqb_neq in Hs, Hn. rewrite Hs, Hn. cbn [negb orb].
  assert (exists url',
            (if negb (str_eqb url []) && negb (str_eqb (take 1 url) (py "/"))
             then chr "/" :: url else url) = url'
            /\ (url' = [] \/ exists r, url' = chr "/" :: r)) as (url' & -> & Hurl').
  { destruct url as [|c y]; [exists []; by auto|].
    cbn [str_eqb negb andb take]. change (py "/") with [47%N]. cbn [str_eqb].
    rewrite andb_true_r. destruct (c =? 47)%N eqn:Hc; cbn [negb].
    - apply N.eqb_eq in Hc as ->. eexists. split; [done|]. right. by eexists.
    - eexists. split; [done|]. right. by eexists. }
  change (s ++ chr ":" :: py "//" ++ n ++ url') with (s ++ py "://" ++ n ++ url').
  set (qq := if negb (str_eqb q []) then chr "?" :: q else []).
  set (ff := if negb (str_eqb f []) then chr "#" :: f else []).
  exists (url' ++ qq ++ ff). split.
  - unfold qq, ff. destruct (negb (str_eqb q [])), (negb (str_eqb f []));
      rewrite <- ?app_assoc, ?app_nil_r; cbn [app]; by rewrite <- ?app_assoc.
  - destruct Hurl' as [->|[r ->]]; [|right; by eexists _, _].
    cbn [app]. unfold qq, ff.
    destruct (negb (str_eqb q [])); [right; by eexists _, _|].
    destruct (negb (str_eqb f [])); [right; by eexists _, _|by left].
Qed.

(** A url that [urlunparse] writes for such a scheme and a netloc that
    [urlsplit] has read is read back with this scheme and netloc. *)
Lemma urlsplit_urlunparse p :
  joins_netloc (scheme p) = true -> netloc p <> [] ->
  forallb (fun c => negb (one_of (py "/?#" ++ _UNSAFE_URL_BYTES_TO_REMOVE) c))
    (netloc p) = true ->
  _brackets_ok chk (netloc p) = true -> _checknetloc nf (netloc p) = true ->
  exists a q f,
    urlsplit chk nf (urlunparse p) []
    = Some {| sr_scheme := scheme p; sr_netloc := netloc p; sr_path := a;
              sr_query := q; sr_fragment := f |}.
Proof.
  intros Hs Hne Hn Hbr Hck. unfold urlunparse.
  destruct (urlunsplit_form (scheme p) (netloc p)
              (if negb (str_eqb (params p) []) then path p ++ chr ";" :: params p
               else path p) (query p) (fragment p))
    as (rest & -> & Hrest); [by apply joins_netloc_inv in Hs as [? _]|done|].
  by apply urlsplit_known_origin.
Qed.

(** [urljoin] on a url that is read, under the scheme of the base, with
    this scheme and without a netloc: the scheme and the netloc of the
    base, with some path, parameters, query and fragment. *)
Lemma urljoin_relative base url b u :
  urlparse chk nf base [] = Some b ->
  joins_netloc (scheme b) = true -> base <> [] -> url <> [] ->
  urlparse chk nf url (scheme b) = Some u ->
  scheme u = scheme b -> netloc u = [] ->
  exists P PR Q F,
    urljoin chk nf base url
    = Some (urlunparse {| scheme := scheme b; netloc := netloc b; path := P;
                          params := PR; query := Q; fragment := F |})
    /\ (path u <> [] -> P <> []).
Proof.
  intros Hb Hs Hbase Hurl Hu Hsch Hnet. unfold urljoin.
  destruct base as [|c0 base0]; [done|]. destruct url as [|c1 url0]; [done|].
  rewrite Hb, Hu, Hsch, Hnet, str_eqb_refl.
  apply joins_netloc_inv in Hs as (_ & -> & ->).
  cbn [negb orb andb str_eqb].
  destruct (str_eqb (path u) [] && str_eqb (params u) []) eqn:Hempty.
  - eexists _, _, _, _. split; [done|].
    apply andb_true_iff in Hempty as [Hp%str_eqb_eq _]. by intros [].
  - eexists _, _, _, _. split; [done|]. intros _.
    destruct (str_eqb (join _ _) []) eqn:E; [done|]. by apply str_eqb_neq in E.
Qed.

(** Where [urljoin] leaves the base: a url with another scheme, or under
    a scheme that is not relative, is returned as it is, and a url with a
    netloc of its own keeps it. *)
Lemma urljoin_leaves base url b u :
  urlparse chk nf base [] = Some b -> base <> [] -> url <> [] ->
  urlparse chk nf url (scheme b) = Some u ->
  (scheme u <> scheme b \/ mem (scheme u) uses_relative = false ->
   urljoin chk nf base url = Some url)
  /\ (scheme u = scheme b -> joins_netloc (scheme b) = true -> netloc u <> [] ->
      urljoin chk nf base url = Some (urlunparse u)).
Proof.
  intros Hb Hbase Hurl Hu. unfold urljoin.
  destruct base as [|c0 base0]; [done|]. destruct url as [|c1 url0]; [done|].
  rewrite Hb, Hu. split.
  - intros [Hne%str_eqb_neq| ->]; [by rewrite Hne|by rewrite orb_true_r].
  - intros Hsch (_ & Hrel & Hnl)%joins_netloc_inv Hnet%str_eqb_neq.
    by rewrite Hsch, str_eqb_refl, Hrel, Hnl, Hnet.
Qed.

(** [urlparse] of a url that begins with "/w" under such a scheme. *)
Lemma urlparse_abs_path_known s t :
  joins_netloc s = true ->
  exists a prm q f,
    urlparse chk nf (chr "/" :: chr "w" :: t) s
    = Some {| scheme := s; netloc := []; path := chr "/" :: a;
              params := prm; query := q; fragment := f |}.
Proof.
  intros Hs. unfold urlparse.
  destruct (urlsplit_abs_path chk nf s t) as (a & q & f & ->).
  rewrite (default_scheme_known s Hs).
  cbn [sr_scheme sr_netloc sr_path sr_query sr_fragment].
  destruct (mem s uses_params && has (chr ";") (chr "/" :: chr "w" :: a)).
  - destruct (splitparams_slash (chr "w" :: a)) as (a' & prm & ->). by eexists _, _, _, _.
  - by eexists _, _, _, _.
Qed.
End Relative.

Section Origin.
Implicit Types (s n raw base : str) (b u : ParseResult).

Lemma origin_of_urlparse w url b :
  urlparse (check_bracketed_netloc w) (nfkc_ok w) url [] = Some b ->
  origin_of w url = Some (scheme b, netloc b).
Proof.
  unfold urlparse, origin_of.
  destruct (urlsplit _ _ url []) as [res|]; [|done].
  destruct (if mem (sr_scheme res) uses_params && has (chr ";") (sr_path res)
            then _splitparams (sr_path res) else (sr_path res, [])) as [u prm].
  by intros [= <-].
Qed.

(** A url that [urlunparse] writes with the scheme and the netloc of a
    base that [urlparse] has read has the origin of the base. *)
Lemma origin_of_urlunparse w base b P PR Q F :
  urlparse (check_bracketed_netloc w) (nfkc_ok w) base [] = Some b ->
  joins_netloc (scheme b) = true -> netloc b <> [] ->
  origin_of w (urlunparse {| scheme := scheme b; netloc := netloc b; path := P;
                             params := PR; query := Q; fragment := F |})
  = Some (scheme b, netloc b).
Proof.
  intros Hb Hs Hne. destruct (urlparse_netloc_ok _ _ _ _ _ Hb) as (Hn & Hbr & Hck).
  unfold origin_of.
  destruct (urlsplit_urlunparse (check_bracketed_netloc w) (nfkc_ok w)
              {| scheme := scheme b; netloc := netloc b; path := P;
                 params := PR; query := Q; fragment := F |})
    as (a & q & f & ->); done.
Qed.

Lemma parsed_base_nonempty w base b :
  urlparse (check_bracketed_netloc w) (nfkc_ok w) base [] = Some b ->
  netloc b <> [] -> base <> [].
Proof. intros Hb Hne ->. vm_compute in Hb. injection Hb as <-. done. Qed.

(** The Resolver keeps the origin of the base for a link that is read
    without a netloc and with the scheme of the base. *)
Lemma resolve_relative w base raw b u :
  urlparse (check_bracketed_netloc w) (nfkc_ok w) base [] = Some b ->
  joins_netloc (scheme b) = true -> netloc b <> [] ->
  urlparse (check_bracketed_netloc w) (nfkc_ok w) (unquote raw) (scheme b) = Some u ->
  scheme u = scheme b -> netloc u = [] ->
  exists x, resolve w base raw = Some x
            /\ origin_of w x = Some (scheme b, netloc b)
            /\ (path u <> [] ->
                exists rest, x = scheme b ++ py "://" ++ netloc b ++ chr "/" :: rest).
Proof.
  intros Hb Hs Hne Hu Hsch Hnet. unfold resolve.
  pose proof (parsed_base_nonempty _ _ _ Hb Hne) as Hbase.
  destruct (unquote raw) as [|c1 url0] eqn:Hraw.
  { exists base. split; [by destruct base|]. split; [by apply origin_of_urlparse|].
    unfold urlparse, urlsplit in Hu. cbn in Hu. rewrite ?andb_false_r in Hu.
    injection Hu as <-. by intros []. }
  destruct (urljoin_relative _ _ base (c1 :: url0) b u Hb Hs Hbase ltac:(done) Hu Hsch Hnet)
    as (P & PR & Q & F & -> & HP).
  eexists. split; [done|]. split; [by apply (origin_of_urlunparse w base)|].
  intros Hpath. specialize (HP Hpath).
  apply joins_netloc_inv in Hs as [Hs _]. by apply urlunparse_form.
Qed.

(** A link that begins with "/wiki" is read without a netloc and with
    the default scheme. *)
Lemma article_link_relative w s raw :
  joins_netloc s = true -> startswith (py "/wiki") raw = true ->
  exists u,
    urlparse (check_bracketed_netloc w) (nfkc_ok w) (unquote raw) s = Some u
    /\ scheme u = s /\ netloc u = [] /\ path u <> [].
Proof.
  intros Hs [r ->]%startswith_inv.
  destruct (unquote_prefix (py "/wiki") r) as [r' ->]; [done..|].
  change (py "/wiki" ++ r') with (chr "/" :: chr "w" :: py "iki" ++ r').
  destruct (urlparse_abs_path_known (check_bracketed_netloc w) (nfkc_ok w) s
              (py "iki" ++ r') Hs) as (a & prm & q & f & ->).
  by eexists.
Qed.
End Origin.

(** C6, refuted as stated: a protocol-relative raw link resolves to another
    host. *)
Lemma resolver_leaves_origin : ~ resolver_keeps_origin_for_all_links.
Proof.
  intros H.
  destruct (H Sample.calm (py "https://en.wikipedia.org") (py "//evil.example/wiki")
              (py "https") (py "en.wikipedia.org")) as (u & Hu & Ho);
    [reflexivity|].
  vm_compute in Hu. injection Hu as <-. vm_compute in Ho. discriminate Ho.
Qed.

(** C6, amended. Let [urlparse] read the base with a scheme that is
    relative and takes a netloc ("http", "https", "ftp", "file", "ws", ..)
    and with a netloc that is not empty. For every raw link whose
    percent-decoded form [urlparse] reads, under the scheme of the base,
    with this scheme and without a netloc of its own, the Resolver does not
    raise and yields a URL with the scheme and the netloc of the base.
    Every raw link that begins with "/wiki" is read so. The base is left
    only in the other cases: a decoded link of another scheme is returned
    as it is, and one with a netloc of its own keeps that netloc. *)
Theorem resolver_keeps_origin_of_relative_links (w : World) (base raw : str)
    (b u : ParseResult) :
  urlparse (check_bracketed_netloc w) (nfkc_ok w) base [] = Some b ->
  joins_netloc (scheme b) = true ->
  netloc b <> [] ->
  urlparse (check_bracketed_netloc w) (nfkc_ok w) (unquote raw) (scheme b) = Some u ->
  (scheme u = scheme b -> netloc u = [] ->
   exists x, resolve w base raw = Some x
             /\ origin_of w x = Some (scheme b, netloc b)
             /\ origin_of w base = Some (scheme b, netloc b))
  /\ (startswith (py "/wiki") raw = true -> scheme u = scheme b /\ netloc u = [])
  /\ (unquote raw <> [] -> scheme u <> scheme b ->
      resolve w base raw = Some (unquote raw))
  /\ (unquote raw <> [] -> scheme u = scheme b -> netloc u <> [] ->
      resolve w base raw = Some (urlunparse u)).
Proof.
  intros Hb Hs Hne Hu.
  pose proof (parsed_base_nonempty _ _ _ Hb Hne) as Hbase.
  split; [|split; [|split]].
  - intros Hsch Hnet.
    destruct (resolve_relative w base raw b u Hb Hs Hne Hu Hsch Hnet) as (x & Hx & Ho & _).
    exists x. split; [done|]. split; [done|]. by apply origin_of_urlparse.
  - intros Hraw.
    destruct (article_link_relative w (scheme b) raw Hs Hraw) as (u' & Hu' & ? & ? & _).
    rewrite Hu in Hu'. by injection Hu' as <-.
  - intros Hraw Hsch. unfold resolve.
    by apply (urljoin_leaves _ _ base (unquote raw) b u Hb Hbase Hraw Hu); left.
  - intros Hraw Hsch Hnet. unfold resolve.
    by apply (urljoin_leaves _ _ base (unquote raw) b u Hb Hbase Hraw Hu).
Qed.

Lemma resolver_keeps_origin_of_relative_links_witness :
  joins_netloc (py "ftp") = true
  /\ exists x,
       resolve Sample.calm (py "ftp://host/pub/a") (py "../x%20y?q#top") = Some x
       /\ origin_of Sample.calm x = Some (py "ftp", py "host").
Proof.
  split; [reflexivity|].
  destruct (resolver_keeps_origin_of_relative_links Sample.calm (py "ftp://host/pub/a")
              (py "../x%20y?q#top")
              {| scheme := py "ftp"; netloc := py "host"; path := py "/pub/a";
                 params := []; query := []; fragment := [] |}
              {| scheme := py "ftp"; netloc := []; path := py "../x y";
                 params := []; query := py "q"; fragment := py "top" |})
    as (Hkeep & _); [reflexivity|reflexivity|discriminate|reflexivity|].
  destruct Hkeep as (x & Hx & Ho & _); [reflexivity..|].
  exists x. exact (conj Hx Ho).
Defined.

(** ** The Discovered Link Set *)

Section Discovered.
Implicit Types (ls : list str) (L : gset str).

Lemma resolve_all_elem w base_url ls L x :
  resolve_all w base_url ls = Some L -> x ∈ L ->
  exists link, link ∈ ls /\ resolve w base_url link = Some x.
Proof.
  revert L. induction ls as [|link ls IH]; intros L; cbn [resolve_all].
  - intros [= <-]. set_solver.
  - destruct (resolve w base_url link) as [u|] eqn:Hu; [|done].
    destruct (resolve_all w base_url ls) as [L'|]; [|done].
    intros [= <-] [->%elem_of_singleton|Hx]%elem_of_union.
    + exists link. split; [by left|done].
    + destruct (IH L' eq_refl Hx) as (l & ? & ?). exists l. split; [by right|done].
Qed.

(** Where the links of a page come from. *)
Lemma get_links_from_page_elem w url base_url st L st' x :
  get_links_from_page w url base_url st = (Ok L, st') -> x ∈ L ->
  exists link, article_link link = true /\ resolve w base_url link = Some x.
Proof.
  unfold get_links_from_page, bind.
  destruct (get_page w url st) as [[html|e|] st1]; [|done..].
  destruct html as [|c html]; [intros [= <- _]; set_solver|].
  destruct (feed w (c :: html) WikiParser_init) as [[e|] parser] eqn:Hfeed; [done|].
  unfold lift.
  destruct (resolve_all w base_url _) as [L'|] eqn:Hall; [|done].
  intros [= <- _] Hx.
  destruct (resolve_all_elem _ _ _ _ _ Hall Hx) as (link & Hin%elem_of_set_iter & Hres).
  exists link. split; [|done].
  apply (feed_links w (c :: html)). by rewrite Hfeed.
Qed.
Lemma origin_of_inv w url s n :
  origin_of w url = Some (s, n) ->
  exists b, urlparse (check_bracketed_netloc w) (nfkc_ok w) url [] = Some b
            /\ scheme b = s /\ netloc b = n.
Proof.
  unfold origin_of, urlparse.
  destruct (urlsplit _ _ url []) as [res|]; [|done]. intros [= <- <-].
  destruct (if mem (sr_scheme res) uses_params && has (chr ";") (sr_path res)
            then _splitparams (sr_path res) else (sr_path res, [])) as [u prm].
  by eexists.
Qed.

(** The links of a page under a base that [urlparse] reads with a scheme
    that joins netlocs and with a netloc. *)
Lemma get_links_from_page_origin w url base_url b st st' L x :
  urlparse (check_bracketed_netloc w) (nfkc_ok w) base_url [] = Some b ->
  joins_netloc (scheme b) = true -> netloc b <> [] ->
  get_links_from_page w url base_url st = (Ok L, st') -> x ∈ L ->
  origin_of w x = Some (scheme b, netloc b)
  /\ exists rest, x = scheme b ++ py "://" ++ netloc b ++ chr "/" :: rest.
Proof.
  intros Hb Hs Hne Hget Hx.
  destruct (get_links_from_page_elem _ _ _ _ _ _ _ Hget Hx) as (link & Hart & Hres).
  apply andb_true_iff in Hart as [Hwiki _].
  destruct (article_link_relative w (scheme b) link Hs Hwiki) as (u & Hu & Hsch & Hnet & Hp).
  rewrite <- Hsch in Hu at 1. rewrite Hsch in Hu.
  destruct (resolve_relative w base_url link b u Hb Hs Hne Hu Hsch Hnet)
    as (x' & Hx' & Ho & Hform).
  assert (x = x') as -> by congruence. split; [done|by apply Hform].
Qed.
End Discovered.

(** C10, refuted as stated: under the base foo://host the links of a page
    are the raw links, without scheme or host. *)
Lemma discovered_links_leave_unknown_scheme : ~ discovered_links_keep_every_origin.
Proof.
  intros H.
  assert (origin_of Sample.calm (py "/wiki/A") = Some (py "foo", py "host")) as Ho.
  { apply (H Sample.calm Sample.seed (py "foo") (py "host") Sample.start
             (add_event (Urlopen Sample.seed Sample.seed) Sample.start)
             {[ py "/wiki/A"; py "/wiki/B" ]}).
    - reflexivity.
    - vm_compute; reflexivity.
    - apply elem_of_union_l, elem_of_singleton. reflexivity. }
  vm_compute in Ho. discriminate Ho.
Qed.

(** C10, amended. For every page and every base origin [scheme://netloc]
    whose scheme is relative and takes a netloc ("http", "https", "ftp",
    "file", "ws", ..) and whose netloc is not empty, every URL of the
    Discovered Link Set that [get_links_from_page] returns has the scheme
    and the netloc of the base: it is the base followed by a path that
    begins with "/". *)
Theorem discovered_links_same_origin (w : World) (url scheme netloc : str)
    (st st' : State) (L : gset str) :
  joins_netloc scheme = true ->
  netloc <> [] ->
  origin_of w (scheme ++ py "://" ++ netloc) = Some (scheme, netloc) ->
  get_links_from_page w url (scheme ++ py "://" ++ netloc) st = (Ok L, st') ->
  forall x, x ∈ L ->
    origin_of w x = Some (scheme, netloc)
    /\ exists rest, x = scheme ++ py "://" ++ netloc ++ chr "/" :: rest.
Proof.
  intros Hs Hne Ho Hget x Hx.
  apply origin_of_inv in Ho as (b & Hb & <- & <-).
  by apply (get_links_from_page_origin w url (scheme b ++ py "://" ++ netloc b) b st st' L x).
Qed.

Lemma discovered_links_same_origin_witness :
  joins_netloc (py "https") = true
  /\ origin_of Sample.calm (py "https" ++ py "://" ++ py "en.wikipedia.org")
     = Some (py "https", py "en.wikipedia.org")
  /\ get_links_from_page Sample.calm Sample.seed
       (py "https" ++ py "://" ++ py "en.wikipedia.org") Sample.start
     = (Ok {[ Sample.A; Sample.B ]},
        add_event (Urlopen Sample.seed Sample.seed) Sample.start)
  /\ origin_of Sample.calm Sample.A = Some (py "https", py "en.wikipedia.org").
Proof.
  split; [reflexivity|]. split; [reflexivity|]. split; [vm_compute; reflexivity|].
  apply (discovered_links_same_origin Sample.calm Sample.seed (py "https")
           (py "en.wikipedia.org") Sample.start
           (add_event (Urlopen Sample.seed Sample.seed) Sample.start)
           {[ Sample.A; Sample.B ]}).
  - reflexivity.
  - discriminate.
  - reflexivity.
  - vm_compute; reflexivity.
  - apply elem_of_union_l, elem_of_singleton. reflexivity.
Defined.
(** ** The Traversal Engine *)

(** *** What each operation does to the state *)

(** Reads the result of a computation off an equation [m st = (o, st')]. *)
Ltac done_with tac :=
  let H := fresh in
  intros H; injection H as <- <-; tac.

Section Effects.
Implicit Types (o : Outcome unit) (L : gset str) (d : Database).

Lemma dispatch_Exception w u depth e st :
  dispatch [(is_Exception, fun e => print w (MsgFrame u depth e))] e st
  = if is_Exception e
    then print w (MsgFrame u depth e) st
    else (Raised e, st).
Proof. cbn [dispatch]. by destruct (is_Exception e). Qed.

(** [print] logs its message, and raises only what the stream raises. *)
Lemma print_effect w m st :
  (print w m st).2 = add_event (Print m) st
  /\ ((print w m st).1 = Ok tt /\ stdout_fault w (log st) m = None
      \/ exists e, (print w m st).1 = Raised e
                   /\ stdout_fault w (log st) m = Some e /\ is_Exception e = true).
Proof.
  unfold print. destruct (stdout_fault w (log st) m) as [e|] eqn:He; cbn [fst snd].
  - split; [done|]. right. exists e. split; [done|]. split; [done|].
    by apply (stdout_fault_Exception w (log st) m).
  - split; [done|]. by left.
Qed.

Lemma print_frame w u depth e st :
  frames_print w ->
  print w (MsgFrame u depth e) st = (Ok tt, add_event (Print (MsgFrame u depth e)) st).
Proof. intros Hq. unfold print. by rewrite Hq. Qed.

Lemma page_log_nil u : page_log u [].
Proof. exists [], []. split; [done|]. split; by left. Qed.

Lemma page_log_request u q : page_log u [Urlopen u q].
Proof. exists [], [Urlopen u q]. split; [done|]. split; [by left|right; by exists q]. Qed.

Lemma page_log_print u m : page_log u [Print m].
Proof. exists [Print m], []. split; [done|]. split; [right; by exists m|by left]. Qed.

Lemma page_log_both u q m : page_log u [Print m; Urlopen u q].
Proof.
  exists [Print m], [Urlopen u q]. split; [done|].
  split; [right; by exists m|right; by exists q].
Qed.

Lemma get_page_effect w url st (o : Outcome str) st' :
  get_page w url st = (o, st') ->
  visited st' = visited st /\ files st' = files st
  /\ exists gl, log st' = gl ++ log st /\ page_log url gl.
Proof.
  assert (forall gl, page_log url gl ->
            visited (fold_right add_event st gl) = visited st
            /\ files (fold_right add_event st gl) = files st
            /\ exists gl', log (fold_right add_event st gl) = gl' ++ log st
                           /\ page_log url gl') as Hfin.
  { intros gl Hgl.
    assert (log (fold_right add_event st gl) = gl ++ log st
            /\ visited (fold_right add_event st gl) = visited st
            /\ files (fold_right add_event st gl) = files st) as (Hlog & Hv & Hf).
    { clear Hgl. induction gl as [|e gl (IH1 & IH2 & IH3)];
        cbn [fold_right add_event log visited files app]; [done|].
      by rewrite IH1. }
    eauto. }
  unfold get_page, bind, lift, try_except, sleep, urlopen_read, print, emit, ret, raise.
  destruct (quote url _) as [q|]; [|done_with ltac:(apply (Hfin []), page_log_nil)].
  destruct (asyncio_sleep w (log st)) as [e|].
  - cbn [dispatch]. unfold bind, ret, emit, raise.
    destruct (is_HTTPError e);
      [destruct (stdout_fault w _ _); done_with ltac:(apply (Hfin [_]), page_log_print)|].
    destruct (is_URLError e);
      [destruct (stdout_fault w _ _); done_with ltac:(apply (Hfin [_]), page_log_print)
      |done_with ltac:(apply (Hfin []), page_log_nil)].
  - destruct (urlopen w (log st) q) as [e|body].
    + cbn [dispatch]. unfold bind, ret, emit, raise.
      destruct (is_HTTPError e);
        [destruct (stdout_fault w _ _);
         done_with ltac:(apply (Hfin [_; _]), page_log_both)|].
      destruct (is_URLError e);
        [destruct (stdout_fault w _ _);
         done_with ltac:(apply (Hfin [_; _]), page_log_both)
        |done_with ltac:(apply (Hfin [_]), page_log_request)].
    + destruct (Utf8.decode Utf8.Strict body);
        done_with ltac:(apply (Hfin [_]), page_log_request).
Qed.

Lemma get_links_from_page_effect w url base_url st (o : Outcome (gset str)) st' :
  get_links_from_page w url base_url st = (o, st') ->
  visited st' = visited st /\ files st' = files st
  /\ exists gl, log st' = gl ++ log st /\ page_log url gl.
Proof.
  unfold get_links_from_page, bind.
  destruct (get_page w url st) as [[html|e|] st1] eqn:Hpage;
    pose proof (get_page_effect _ _ _ _ _ Hpage) as Heff;
    [|done_with ltac:(done)..].
  destruct html as [|c html]; [done_with ltac:(done)|].
  destruct (feed w (c :: html) WikiParser_init) as [[e|] parser]; [done_with ltac:(done)|].
  unfold lift. destruct (resolve_all _ _ _); done_with ltac:(done).
Qed.

Lemma execute_inr w h stmt d d' :
  execute w h stmt d = inr d' ->
  urls_of d' = match stmt with
               | InsertOrIgnore url => {[ url ]} ∪ urls_of d
               | DropTable => ∅
               | _ => urls_of d
               end.
Proof.
  unfold execute. destruct (sqlite3_fault w h stmt); [done|].
  destruct stmt; try (intros [= <-]; done).
  - intros [= <-]. apply urls_of_create_table.
  - destruct (Urls d) as [rows|] eqn:Hd.
    + destruct (insert_or_ignore_urls url d rows Hd) as (d1 & rows1 & -> & _ & Hu).
      by intros [= <-].
    + unfold insert_or_ignore. by rewrite Hd.
Qed.

Lemma insert_all_inr w h (urls : list str) d d' :
  insert_all w h urls d = inr d' -> urls_of d' = list_to_set urls ∪ urls_of d.
Proof.
  revert d. induction urls as [|url urls IH]; intros d; cbn [insert_all].
  - intros [= <-]. set_solver.
  - destruct (execute w h (InsertOrIgnore url) d) as [e|d1] eqn:Hex; [done|].
    apply execute_inr in Hex. intros ->%IH. rewrite Hex. set_solver.
Qed.

Lemma stored_set_file n d st n' :
  stored (set_file n d st) n' = if decide (n = n') then urls_of d else stored st n'.
Proof.
  unfold stored. case_decide as Hn.
  - subst. by rewrite database_set_file.
  - by rewrite database_set_file_ne.
Qed.

Lemma stored_kept n d st n' :
  stored (kept n d st) n'
  = if private n then stored st n'
    else if decide (n = n') then urls_of d else stored st n'.
Proof. unfold kept. destruct (private n); [done|apply stored_set_file]. Qed.

Lemma visited_kept n d st : visited (kept n d st) = visited st.
Proof. unfold kept. by destruct (private n). Qed.

Lemma log_kept n d st : log (kept n d st) = log st.
Proof. unfold kept. by destruct (private n). Qed.

Lemma committed_nil n : committed n [] = ∅.
Proof. done. Qed.

Lemma committed_app n l1 l2 : committed n (l1 ++ l2) = committed n l1 ∪ committed n l2.
Proof. unfold committed. by rewrite omap_app, union_list_app_L. Qed.

Lemma committed_cons_commit n db L l :
  committed n (Committed db L :: l)
  = (if decide (db = n) then L else ∅) ∪ committed n l.
Proof.
  unfold committed. simpl. destruct (decide (db = n)); simpl; set_solver.
Qed.

Lemma committed_page_log n u gl : page_log u gl -> committed n gl = ∅.
Proof.
  intros (pr & rq & -> & [->|[m ->]] & [->|[q ->]]); done.
Qed.

Lemma persisted_nil n : persisted n [] = ∅.
Proof. unfold persisted. by destruct (private n). Qed.

Lemma persisted_app n l1 l2 : persisted n (l1 ++ l2) = persisted n l1 ∪ persisted n l2.
Proof.
  unfold persisted. destruct (private n); [set_solver|apply committed_app].
Qed.

Lemma persisted_cons_commit n db L l :
  persisted n (Committed db L :: l)
  = (if decide (db = n) then if private n then ∅ else L else ∅) ∪ persisted n l.
Proof.
  unfold persisted. rewrite committed_cons_commit.
  destruct (private n); [|done]. case_decide; set_solver.
Qed.

Lemma persisted_cons_recurse n u (k : Z) L v (k' : Z) l :
  persisted n (Recurse u k L v k' :: l) = persisted n l.
Proof. done. Qed.

Lemma persisted_page_log n u gl : page_log u gl -> persisted n gl = ∅.
Proof.
  intros Hgl. unfold persisted. rewrite (committed_page_log n u gl Hgl).
  by destruct (private n).
Qed.

Lemma persisted_public n l : private n = false -> persisted n l = committed n l.
Proof. unfold persisted. by intros ->. Qed.

Lemma visits_app l1 l2 : visits (l1 ++ l2) = visits l1 ++ visits l2.
Proof. apply omap_app. Qed.

Lemma visits_page_log u gl : page_log u gl -> visits gl = [].
Proof.
  intros (pr & rq & -> & [->|[m ->]] & [->|[q ->]]); done.
Qed.

(** A [save_to_db] either commits, adding its urls to the file, or raises
    and leaves the urls of every file as they were. *)
Lemma save_to_db_effect w db_name L st o st' :
  save_to_db w db_name L st = (o, st') ->
  visited st' = visited st
  /\ exists new,
       log st' = new ++ log st
       /\ ((o = Ok tt /\ new = [Committed db_name L]) \/ ((exists e, o = Raised e) /\ new = []))
       /\ (forall n, stored st' n = persisted n new ∪ stored st n).
Proof.
  assert (forall e d, (private db_name = false -> urls_of d = stored st db_name) ->
            visited (kept db_name d st) = visited st
            /\ exists new,
                 log (kept db_name d st) = new ++ log st
                 /\ ((Raised e = Ok tt /\ new = [Committed db_name L])
                     \/ ((exists e', @Raised unit e = Raised e') /\ new = []))
                 /\ (forall n, stored (kept db_name d st) n
                               = persisted n new ∪ stored st n)) as Hfail.
  { intros e d Hd. split; [apply visited_kept|]. exists [].
    split; [apply log_kept|]. split; [eauto|].
    intros n. rewrite persisted_nil, stored_kept.
    destruct (private db_name); [set_solver|].
    case_decide; [subst; rewrite Hd by done|]; set_solver. }
  unfold save_to_db. cbn zeta.
  destruct (execute w (log st) Connect _) as [e|d0] eqn:H0.
  { done_with idtac. split; [done|]. exists []. split; [done|]. split; [eauto|].
    intros n. rewrite persisted_nil. set_solver. }
  destruct (execute w (log st) PragmaWAL d0) as [e|d1] eqn:H1.
  { done_with idtac. split; [done|]. exists []. split; [done|]. split; [eauto|].
    intros n. rewrite persisted_nil. set_solver. }
  apply execute_inr in H0, H1.
  assert (private db_name = false -> urls_of d1 = stored st db_name) as Hd1.
  { intros Hp. rewrite H1, H0. unfold opened. by rewrite Hp. }
  destruct (execute w (log st) CreateTable d1) as [e|d2] eqn:H2.
  { done_with idtac. by apply Hfail. }
  apply execute_inr in H2.
  assert (private db_name = false -> urls_of d2 = stored st db_name) as Hd2.
  { intros Hp. rewrite H2. by apply Hd1. }
  destruct (insert_all w (log st) _ d2) as [e|d3] eqn:H3;
    [done_with idtac; by apply Hfail|].
  apply insert_all_inr in H3. rewrite set_iter_set in H3.
  destruct (execute w (log st) Commit d3) as [e|d4] eqn:H4;
    [done_with idtac; by apply Hfail|].
  apply execute_inr in H4.
  done_with idtac. split; [apply visited_kept|]. exists [Committed db_name L].
  split; [cbn [log add_event]; by rewrite log_kept|]. split; [auto|].
  intros n. rewrite persisted_cons_commit, persisted_nil.
  rewrite stored_add_event, stored_kept.
  destruct (private db_name) eqn:Hp.
  - case_decide; [subst; rewrite Hp|]; set_solver.
  - case_decide as Hn; [subst; rewrite Hp, H4, H3, Hd2 by done|]; set_solver.
Qed.

Lemma execute_inl w h stmt d e :
  execute w h stmt d = inl e ->
  sqlite3_fault w h stmt = Some e \/ Urls d = None.
Proof.
  unfold execute. destruct (sqlite3_fault w h stmt) as [e'|]; [intros [= ->]; by left|].
  destruct stmt; try done. unfold insert_or_ignore. destruct (Urls d); [done|by right].
Qed.

Lemma insert_all_table w h (urls : list str) d d' :
  insert_all w h urls d = inr d' -> Urls d <> None -> Urls d' <> None.
Proof.
  revert d. induction urls as [|url urls IH]; intros d; cbn [insert_all].
  - by intros [= <-].
  - unfold execute. destruct (sqlite3_fault w h _); [done|].
    unfold insert_or_ignore. destruct (Urls d) eqn:Hd; [|done].
    intros Hins _. by apply IH in Hins.
Qed.

Lemma insert_all_inl w h (urls : list str) d e :
  insert_all w h urls d = inl e -> Urls d <> None ->
  exists stmt, sqlite3_fault w h stmt = Some e.
Proof.
  revert d. induction urls as [|url urls IH]; intros d; cbn [insert_all]; [done|].
  destruct (execute w h (InsertOrIgnore url) d) as [e'|d'] eqn:Hex.
  - intros [= ->] Hd. apply execute_inl in Hex as [?|?]; [eauto|done].
  - intros Hins Hd. apply (IH d'); [done|].
    apply (insert_all_table w h [url] d d'); [|done]. cbn [insert_all]. by rewrite Hex.
Qed.

(** [save_to_db] raises only what SQLite raises. *)
Lemma save_to_db_raises w db_name L st e st' :
  save_to_db w db_name L st = (Raised e, st') ->
  exists stmt, sqlite3_fault w (log st) stmt = Some e.
Proof.
  unfold save_to_db. cbn zeta.
  destruct (execute w (log st) Connect _) as [e0|d0] eqn:H0.
  { intros [= -> _]. unfold execute in H0.
    destruct (sqlite3_fault w (log st) Connect) eqn:E; [|done]. injection H0 as ->. eauto. }
  destruct (execute w (log st) PragmaWAL d0) as [e1|d1] eqn:H1.
  { intros [= -> _]. unfold execute in H1.
    destruct (sqlite3_fault w (log st) PragmaWAL) eqn:E; [|done]. injection H1 as ->. eauto. }
  destruct (execute w (log st) CreateTable d1) as [e2|d2] eqn:H2.
  { intros [= -> _]. unfold execute in H2.
    destruct (sqlite3_fault w (log st) CreateTable) eqn:E; [|done]. injection H2 as ->. eauto. }
  assert (Urls d2 <> None) as Hd2.
  { unfold execute in H2. destruct (sqlite3_fault w (log st) CreateTable); [done|].
    injection H2 as <-. by destruct (create_table_exists d1) as [rows ->]. }
  destruct (insert_all w (log st) _ d2) as [e3|d3] eqn:H3.
  { intros [= -> _]. by eapply insert_all_inl. }
  destruct (execute w (log st) Commit d3) as [e4|d4] eqn:H4; [|done].
  intros [= -> _]. unfold execute in H4.
  destruct (sqlite3_fault w (log st) Commit) eqn:E; [|done]. injection H4 as ->. eauto.
Qed.
End Effects.

(** *** Every call is described by the shape of a traversal *)

Section Adequacy.
Implicit Types (o : Outcome unit) (L : gset str) (lp new : list Event).

Lemma stored_files st st' n : files st = files st' -> stored st n = stored st' n.
Proof. unfold stored, database. by intros ->. Qed.

Lemma visits_cons_recurse u d L v d' l : visits (Recurse u d L v d' :: l) = visits l.
Proof. done. Qed.

Lemma committed_cons_recurse n u d L v d' l :
  committed n (Recurse u d L v d' :: l) = committed n l.
Proof. done. Qed.

Lemma describes_refl q db k st o :
  shape db k (visited st) [] (q && is_Ok o) ->
  (q = true -> forall e, o = Raised e -> is_Exception e = false) ->
  describes q db k st o st.
Proof.
  intros Hs Ho. exists []. split; [done|]. split; [set_solver|].
  split; [|done]. intros n. rewrite persisted_nil. set_solver.
Qed.

(** The loop of a frame, over any function that behaves like a call:
    [lp] is what the iterations before [ls] have logged. *)
Lemma for_each_describes (rec : str -> M unit) q db u d L :
  (forall v st, describes q db (Call v (d - 1)) st (rec v st).1 (rec v st).2) ->
  forall (ls : list str) st0 lp st o st',
    (forall v, v ∈ ls -> v ∈ L) ->
    log st = lp ++ log st0 ->
    visited st = list_to_set (visits lp) ∪ visited st0 ->
    (forall n, stored st n = persisted n lp ∪ stored st0 n) ->
    shape db (Loop u d L) (visited st0) lp q ->
    for_each ls (fun link => emit (Recurse u d L link (d - 1)) ;;; rec link) st = (o, st') ->
    exists new,
      log st' = new ++ log st0
      /\ visited st' = list_to_set (visits new) ∪ visited st0
      /\ (forall n, stored st' n = persisted n new ∪ stored st0 n)
      /\ shape db (Loop u d L) (visited st0) new (q && is_Ok o)
      /\ (q = true -> forall e, o = Raised e -> is_Exception e = false)
      /\ (is_Ok o = true ->
          forall v, v ∈ ls \/ Recurse u d L v (d - 1) ∈ lp -> Recurse u d L v (d - 1) ∈ new)
      /\ exists later, new = later ++ lp.
Proof.
  intros Hrec ls. induction ls as [|v ls IH]; intros st0 lp st o st' HL Hlog Hvis Hsto Hshape.
  - done_with idtac. exists lp. cbn [is_Ok]. rewrite andb_true_r.
    do 5 (split; [done|]). split; [|by exists []].
    intros _ v [Hv|Hv]; [|done]. by apply elem_of_nil in Hv.
  - cbn [for_each]. unfold bind at 1. unfold bind at 1. unfold emit at 1.
    destruct (rec v (add_event (Recurse u d L v (d - 1)) st)) as [o1 st2] eqn:Hcall.
    pose proof (Hrec v (add_event (Recurse u d L v (d - 1)) st)) as Hd.
    rewrite Hcall in Hd. cbn [fst snd] in Hd.
    destruct Hd as (c & Hlog2 & Hvis2 & Hsto2 & Hshape2 & Hexn2).
    cbn [log visited add_event] in Hlog2, Hvis2, Hshape2.
    assert (log st2 = (c ++ Recurse u d L v (d - 1) :: lp) ++ log st0) as Hlog'.
    { rewrite Hlog2, Hlog, <- app_assoc. done. }
    assert (visited st2 = list_to_set (visits (c ++ Recurse u d L v (d - 1) :: lp))
                          ∪ visited st0) as Hvis'.
    { rewrite Hvis2, Hvis, visits_app, visits_cons_recurse, list_to_set_app_L. set_solver. }
    assert (forall n, stored st2 n = persisted n (c ++ Recurse u d L v (d - 1) :: lp)
                                     ∪ stored st0 n) as Hsto'.
    { intros n. rewrite Hsto2, stored_add_event, Hsto, persisted_app,
        persisted_cons_recurse. set_solver. }
    assert (shape db (Loop u d L) (visited st0) (c ++ Recurse u d L v (d - 1) :: lp)
              (q && is_Ok o1)) as Hshape'.
    { apply (shape_loop_cons db u d L _ lp v c q (q && is_Ok o1));
        [apply HL; by left|done|by rewrite <- Hvis|].
      intros Hq. split; [by apply andb_true_iff in Hq as [? _]|done]. }
    destruct o1 as [[]|e|].
    + intros Hrest. cbn [is_Ok] in Hshape'. rewrite andb_true_r in Hshape'.
      destruct (IH st0 (c ++ Recurse u d L v (d - 1) :: lp) st2 o st')
        as (new & ? & ? & ? & ? & ? & Hall & later & ->); [|done..|].
      { intros v' Hv'. apply HL. by right. }
      eexists. do 5 (split; [done|]). split.
      * intros Hok v' Hv'. apply Hall; [done|].
        destruct Hv' as [[->|Hv']%elem_of_cons|Hv']; [|by left|].
        -- right. apply elem_of_app. right. by left.
        -- right. apply elem_of_app. right. by right.
      * exists (later ++ c ++ [Recurse u d L v (d - 1)]).
        rewrite <- !app_assoc. done.
    + done_with idtac. exists (c ++ Recurse u d L v (d - 1) :: lp).
      do 4 (split; [done|]). split; [intros Hq e' [= <-]; by apply Hexn2|].
      split; [done|].
      exists (c ++ [Recurse u d L v (d - 1)]). by rewrite <- app_assoc.
    + done_with idtac. exists (c ++ Recurse u d L v (d - 1) :: lp).
      do 4 (split; [done|]). split; [done|]. split; [done|].
      exists (c ++ [Recurse u d L v (d - 1)]). by rewrite <- app_assoc.
Qed.

(** One frame, step by step. *)
Lemma recursive_url_scrap_unfold fuel w base_url current_url db_name depth st :
  recursive_url_scrap (S fuel) w base_url current_url db_name depth st =
  if (depth =? 0) || bool_decide (current_url ∈ visited st) then (Ok tt, st)
  else
    let caught := dispatch [(is_Exception,
                             fun e => print w (MsgFrame current_url depth e))] in
    match get_links_from_page w current_url base_url
            (add_event (Visit current_url depth)
               (set_visited ({[ current_url ]} ∪ visited st) st)) with
    | (Ok L, st2) =>
        match save_to_db w db_name L st2 with
        | (Ok _, st3) =>
            match for_each (set_iter w (log st3) L)
                    (fun link =>
                       emit (Recurse current_url depth L link (depth - 1)) ;;;
                       recursive_url_scrap fuel w base_url link db_name (depth - 1))
                    st3 with
            | (Raised e, st4) => caught e st4
            | r => r
            end
        | (Raised e, st3) => caught e st3
        | (OutOfFuel, st3) => (OutOfFuel, st3)
        end
    | (Raised e, st2) => caught e st2
    | (OutOfFuel, st2) => (OutOfFuel, st2)
    end.
Proof.
  cbn [recursive_url_scrap].
  destruct ((depth =? 0) || bool_decide (current_url ∈ visited st)); [done|].
  unfold bind, visited_add, try_except, for_in. cbn beta iota zeta.
  destruct (get_links_from_page _ _ _ _) as [[L|e|] st2]; [|done..].
  destruct (save_to_db _ _ _ _) as [[[]|e|] st3]; [|done..].
  destruct (for_each _ _ _) as [[[]|e|] st4]; done.
Qed.

(** Every call is described: with [quiet] for an environment in which
    the frames can print, without it for any environment. *)
Lemma recursive_url_scrap_describes fuel w base_url db_name quiet :
  (quiet = true -> frames_print w) ->
  forall current_url depth st,
    describes quiet db_name (Call current_url depth) st
      (recursive_url_scrap fuel w base_url current_url db_name depth st).1
      (recursive_url_scrap fuel w base_url current_url db_name depth st).2.
Proof.
  intros Hquiet.
  induction fuel as [|fuel IH]; intros cur depth st.
  { apply describes_refl; [constructor|by destruct quiet]. }
  rewrite recursive_url_scrap_unfold.
  destruct ((depth =? 0) || bool_decide (cur ∈ visited st)) eqn:Hterm.
  { apply describes_refl; [constructor|done]. }
  apply orb_false_iff in Hterm as [Hd%Z.eqb_neq Hv%bool_decide_eq_false].
  cbv zeta.
  set (st1 := add_event (Visit cur depth) (set_visited ({[cur]} ∪ visited st) st)).
  destruct (get_links_from_page w cur base_url st1) as [oL st2] eqn:Hgl.
  destruct (get_links_from_page_effect _ _ _ _ _ _ Hgl) as (Hv2 & Hf2 & gl & Hlog2 & Hgl2).
  assert (forall hnd st3,
            log (fold_right add_event st3 hnd) = hnd ++ log st3
            /\ visited (fold_right add_event st3 hnd) = visited st3
            /\ files (fold_right add_event st3 hnd) = files st3) as Hfold.
  { intros hnd st3. induction hnd as [|e hnd (IH1 & IH2 & IH3)];
      cbn [fold_right add_event log visited files app]; [done|]. by rewrite IH1. }
  (* what the frame looks like when the links are not committed *)
  assert (forall o hnd st3,
            visited st3 = visited st2 -> (forall n, stored st3 n = stored st2 n) ->
            log st3 = log st2 -> handler_log cur depth hnd ->
            (quiet = true -> forall e, o = Raised e -> is_Exception e = false) ->
            describes quiet db_name (Call cur depth) st o (fold_right add_event st3 hnd))
    as Hfail.
  { intros o hnd st3 Hv3 Hs3 Hl3 Hhnd Ho. exists (hnd ++ gl ++ [Visit cur depth]).
    destruct (Hfold hnd st3) as (Hl & Hvv & Hff).
    split; [|split; [|split; [|split]]].
    - rewrite Hl, Hl3, Hlog2, <- !app_assoc. done.
    - rewrite Hvv, Hv3, Hv2, !visits_app, (visits_page_log _ _ Hgl2).
      assert (visits hnd = []) as -> by (destruct Hhnd as [->|[e ->]]; done).
      cbn. set_solver.
    - intros n. rewrite (stored_files _ st3 n Hff), Hs3, (stored_files _ st1 n Hf2).
      rewrite !persisted_app, (persisted_page_log _ _ _ Hgl2).
      assert (persisted n hnd = ∅) as ->.
      { unfold persisted. destruct (private n); [done|].
        destruct Hhnd as [->|[e ->]]; done. }
      change (stored st1 n) with (stored st n).
      assert (persisted n [Visit cur depth] = ∅) as ->
        by (unfold persisted; by destruct (private n)).
      set_solver.
    - by apply shape_fail.
    - done. }
  (* the handler of the frame: its [print] logs, and raises only without [quiet] *)
  assert (forall (D : Outcome unit -> State -> Prop) e st3,
            (forall o hnd,
               handler_log cur depth hnd ->
               (quiet = true -> forall e', o = Raised e' ->
                                is_Exception e' = false /\ hnd = [] /\ e' = e) ->
               (is_Ok o = true -> is_Exception e = true) ->
               D o (fold_right add_event st3 hnd)) ->
            D (dispatch [(is_Exception, fun e => print w (MsgFrame cur depth e))] e st3).1
              (dispatch [(is_Exception, fun e => print w (MsgFrame cur depth e))] e st3).2)
    as Hcaught.
  { intros D e st3 HD. rewrite dispatch_Exception.
    destruct (is_Exception e) eqn:He; cbn [fst snd].
    - destruct (print_effect w (MsgFrame cur depth e) st3) as (-> & Hout).
      apply (HD _ [Print (MsgFrame cur depth e)]); [right; by exists e| |done].
      intros Hq e' He'. rewrite (print_frame w _ _ _ _ (Hquiet Hq)) in He'. done.
    - apply (HD _ []); [by left| |done]. by intros _ e' [= <-]. }
  destruct oL as [L|e|].
  2:{ apply Hcaught. intros o hnd Hhnd Ho _. apply Hfail; try done.
      intros Hq e' He'. by destruct (Ho Hq e' He'). }
  2:{ by apply (Hfail _ [] st2); try done; left. }
  destruct (save_to_db w db_name L st2) as [o3 st3] eqn:Hsave.
  destruct (save_to_db_effect _ _ _ _ _ _ Hsave) as (Hv3 & new3 & Hlog3 & Hnew3 & Hs3).
  destruct Hnew3 as [[-> ->]|[[e ->] ->]].
  2:{ apply Hcaught. intros o hnd Hhnd Ho _. apply Hfail; try done.
      - intros n. rewrite Hs3, persisted_nil. set_solver.
      - intros Hq e' He'. by destruct (Ho Hq e' He'). }
  destruct (for_each _ _ st3) as [o4 st4] eqn:Hloop.
  eapply (for_each_describes
            (fun link => recursive_url_scrap fuel w base_url link db_name (depth - 1))
            quiet db_name cur depth L (fun v st => IH v (depth - 1) st) _ st3 [] st3)
    in Hloop;
    [|by intros v ?%elem_of_set_iter|done|set_solver
     |intros n; rewrite persisted_nil; set_solver|constructor].
  destruct Hloop as (lp & Hlog4 & Hv4 & Hs4 & Hshape4 & Hexn4 & Hall4 & _).
  assert (forall o hnd,
            handler_log cur depth hnd ->
            (quiet && is_Ok o = true -> is_Ok o4 = true) ->
            (quiet = true -> forall e, o = Raised e -> is_Exception e = false) ->
            describes quiet db_name (Call cur depth) st o (fold_right add_event st4 hnd))
    as Hd4.
  { intros o hnd Hhnd Hok Ho.
    exists (hnd ++ lp ++ Committed db_name L :: gl ++ [Visit cur depth]).
    destruct (Hfold hnd st4) as (Hl & Hvv & Hff).
    split; [|split; [|split; [|split]]].
    - rewrite Hl, Hlog4, Hlog3, Hlog2.
      change (Committed db_name L :: gl ++ [Visit cur depth])
        with ([Committed db_name L] ++ gl ++ [Visit cur depth]).
      by rewrite <- !app_assoc.
    - rewrite Hvv, Hv4, Hv3, Hv2, !visits_app.
      assert (visits hnd = []) as -> by (destruct Hhnd as [->|[e ->]]; done).
      change (visits (Committed db_name L :: gl ++ [Visit cur depth]))
        with (visits (gl ++ [Visit cur depth])).
      rewrite visits_app, (visits_page_log _ _ Hgl2), list_to_set_app_L. cbn. set_solver.
    - intros n. rewrite (stored_files _ st4 n Hff), Hs4, Hs3, (stored_files _ st1 n Hf2).
      rewrite !persisted_app, !persisted_cons_commit, persisted_app, persisted_nil,
        (persisted_page_log _ _ _ Hgl2).
      assert (persisted n hnd = ∅) as ->.
      { unfold persisted. destruct (private n); [done|].
        destruct Hhnd as [->|[e ->]]; done. }
      change (stored st1 n) with (stored st n).
      assert (persisted n [Visit cur depth] = ∅) as ->
        by (unfold persisted; by destruct (private n)).
      set_solver.
    - apply (shape_frame db_name cur depth (visited st) gl L lp hnd
               (quiet && is_Ok o4) (quiet && is_Ok o)); try done.
      + rewrite Hv3, Hv2 in Hshape4. exact Hshape4.
      + intros Hqo. pose proof (Hok Hqo) as Hok4.
        apply andb_true_iff in Hqo as [-> _]. split; [done|].
        intros v Hin. apply Hall4; [done|]. left. by apply elem_of_set_iter.
    - done. }
  destruct o4 as [[]|e|]; cbn [fst snd].
  - apply (Hd4 _ []); [by left|done|done].
  - apply Hcaught. intros o hnd Hhnd Ho He. apply Hd4; [done| |].
    + intros [Hq Hok]%andb_true_iff. specialize (He Hok).
      rewrite (Hexn4 Hq e eq_refl) in He. done.
    + intros Hq e' He'. by destruct (Ho Hq e' He').
  - apply (Hd4 _ []); [by left|by intros [_ ?]%andb_true_iff|done].
Qed.
(** The frame that has committed its links: what its loop and its
    handler add to the log. *)
Lemma frame_after_commit fuel w base_url db_name cur depth st L st2 st3 :
  let st1 := add_event (Visit cur depth) (set_visited ({[cur]} ∪ visited st) st) in
  let r := recursive_url_scrap (S fuel) w base_url cur db_name depth st in
  depth <> 0 -> cur ∉ visited st ->
  get_links_from_page w cur base_url st1 = (Ok L, st2) ->
  save_to_db w db_name L st2 = (Ok tt, st3) ->
  exists lp hnd,
    log r.2 = hnd ++ lp ++ log st3
    /\ handler_log cur depth hnd
    /\ shape db_name (Loop cur depth L) (visited st3) lp false
    /\ visited r.2 = list_to_set (visits lp) ∪ visited st3
    /\ (forall n, stored r.2 n = persisted n lp ∪ stored st3 n)
    /\ (r.1 = Ok tt -> hnd = [] ->
        forall v, v ∈ L -> Recurse cur depth L v (depth - 1) ∈ lp)
    /\ (frames_print w -> r.1 = Ok tt -> hnd = []).
Proof.
  intros st1 r Hd Hv Hgl Hsave. unfold r. rewrite recursive_url_scrap_unfold.
  apply Z.eqb_neq in Hd. rewrite Hd, (bool_decide_eq_false_2 _ Hv). cbn [orb].
  cbv zeta. fold st1. rewrite Hgl, Hsave.
  destruct (for_each _ _ st3) as [o4 st4] eqn:Hloop.
  pose proof Hloop as Hquiet.
  eapply (for_each_describes
            (fun link => recursive_url_scrap fuel w base_url link db_name (depth - 1))
            false db_name cur depth L
            (fun v st => recursive_url_scrap_describes fuel w base_url db_name false
                           ltac:(done) v (depth - 1) st) _ st3 [] st3) in Hloop;
    [|by intros v ?%elem_of_set_iter|done|set_solver
     |intros n; rewrite persisted_nil; set_solver|constructor].
  destruct Hloop as (lp & Hlog4 & Hv4 & Hs4 & Hshape4 & _ & Hall4 & _).
  assert (forall v, v ∈ L -> is_Ok o4 = true -> Recurse cur depth L v (depth - 1) ∈ lp)
    as Hall.
  { intros v Hin Hok. apply Hall4; [done|]. left. by apply elem_of_set_iter. }
  assert (frames_print w -> forall e, o4 = Raised e -> is_Exception e = false) as Hexn.
  { intros Hp.
    eapply (for_each_describes
              (fun link => recursive_url_scrap fuel w base_url link db_name (depth - 1))
              true db_name cur depth L
              (fun v st => recursive_url_scrap_describes fuel w base_url db_name true
                             (fun _ => Hp) v (depth - 1) st) _ st3 [] st3) in Hquiet;
      [|by intros v ?%elem_of_set_iter|done|set_solver
       |intros n; rewrite persisted_nil; set_solver|constructor].
    destruct Hquiet as (_ & _ & _ & _ & _ & Hexn & _). by apply Hexn. }
  destruct o4 as [[]|e|]; cbn [fst snd].
  - exists lp, []. cbn [app]. do 5 (split; [done || by left|]). split; [|done].
    intros _ _ v Hin. by apply Hall.
  - rewrite dispatch_Exception. destruct (is_Exception e) eqn:He; cbn [fst snd].
    + destruct (print_effect w (MsgFrame cur depth e) st4) as (-> & _).
      exists lp, [Print (MsgFrame cur depth e)]. cbn [log add_event app].
      split; [by rewrite Hlog4|]. split; [right; by exists e|].
      do 3 (split; [done|]). split; [done|].
      intros Hp. by rewrite (Hexn Hp e eq_refl) in He.
    + exists lp, []. cbn [app]. do 5 (split; [done || by left|]). done.
  - exists lp, []. cbn [app]. do 5 (split; [done || by left|]). done.
Qed.

(** What can leave a call: an exception that is not an [Exception], or
    one that the [print] of the call's own handler raised. *)
Lemma recursive_url_scrap_raises fuel w base_url db_name cur depth st e :
  (recursive_url_scrap fuel w base_url cur db_name depth st).1 = Raised e ->
  is_Exception e = false
  \/ exists e0 h,
       is_Exception e0 = true
       /\ stdout_fault w h (MsgFrame cur depth e0) = Some e
       /\ log (recursive_url_scrap fuel w base_url cur db_name depth st).2
          = Print (MsgFrame cur depth e0) :: h.
Proof.
  destruct fuel as [|fuel]; [done|]. rewrite recursive_url_scrap_unfold.
  destruct ((depth =? 0) || bool_decide (cur ∈ visited st)); [done|]. cbv zeta.
  assert (forall e1 st1,
            (dispatch [(is_Exception, fun e => print w (MsgFrame cur depth e))] e1 st1).1
            = Raised e ->
            is_Exception e = false
            \/ exists e0 h,
                 is_Exception e0 = true
                 /\ stdout_fault w h (MsgFrame cur depth e0) = Some e
                 /\ log (dispatch [(is_Exception,
                                    fun e => print w (MsgFrame cur depth e))] e1 st1).2
                    = Print (MsgFrame cur depth e0) :: h) as Hcaught.
  { intros e1 st1. rewrite dispatch_Exception.
    destruct (is_Exception e1) eqn:He1; [|intros [= <-]; by left].
    unfold print. destruct (stdout_fault w (log st1) _) eqn:Hf; [|done].
    cbn [fst snd]. intros [= ->]. right. by exists e1, (log st1). }
  destruct (get_links_from_page _ _ _ _) as [[L|e1|] st2]; [|by apply Hcaught|done].
  destruct (save_to_db _ _ _ _) as [[[]|e1|] st3]; [|by apply Hcaught|done].
  destruct (for_each _ _ _) as [[[]|e1|] st4]; [done|by apply Hcaught|done].
Qed.
End Adequacy.

(** *** Properties of the shape *)

Section Shape.
Implicit Types (k : kind) (V L : gset str) (l lp new earlier : list Event) (e : Event).
Implicit Types (P Q : Event -> list Event -> Prop).

Lemma each_after_impl P Q l :
  (forall e earlier, P e earlier -> Q e earlier) -> each_after P l -> each_after Q l.
Proof. intros HPQ. induction l as [|e l IH]; cbn [each_after]; [done|]. naive_solver. Qed.

Lemma each_after_app P l1 l2 :
  each_after (fun e earlier => P e (earlier ++ l2)) l1 -> each_after P l2 ->
  each_after P (l1 ++ l2).
Proof. induction l1 as [|e l1 IH]; cbn [each_after app]; [done|]. naive_solver. Qed.

Lemma each_after_forall P l :
  Forall (fun e => forall earlier, P e earlier) l -> each_after P l.
Proof. induction 1; cbn [each_after]; auto. Qed.

Lemma each_after_split P l later e earlier :
  each_after P l -> l = later ++ e :: earlier -> P e earlier.
Proof.
  intros Hl ->. induction later as [|e' later IH]; cbn [each_after app] in Hl; naive_solver.
Qed.

Lemma visits_handler_log u d hnd : handler_log u d hnd -> visits hnd = [].
Proof. by intros [->|[e ->]]. Qed.

Lemma fetched_app l1 l2 : fetched (l1 ++ l2) = fetched l1 ++ fetched l2.
Proof. apply omap_app. Qed.

Lemma fetched_handler_log u d hnd : handler_log u d hnd -> fetched hnd = [].
Proof. by intros [->|[e ->]]. Qed.

Lemma fetched_page_log u gl : page_log u gl -> fetched gl = [] \/ fetched gl = [u].
Proof. intros (pr & rq & -> & [->|[m ->]] & [->|[q ->]]); auto. Qed.

(** The events of a page and of a handler: requests of [u] and messages. *)
Lemma page_log_events u gl :
  page_log u gl -> Forall (fun e => (exists q, e = Urlopen u q) \/ exists m, e = Print m) gl.
Proof.
  intros (pr & rq & -> & [->|[m ->]] & [->|[q ->]]); cbn [app];
    repeat first [apply Forall_nil_2 | apply Forall_cons_2]; eauto.
Qed.

Lemma handler_log_events u d hnd :
  handler_log u d hnd -> Forall (fun e => exists m, e = Print m) hnd.
Proof.
  intros [->|[e ->]]; repeat first [apply Forall_nil_2 | apply Forall_cons_2]; eauto.
Qed.

Lemma visits_frame_fail u d gl hnd :
  page_log u gl -> handler_log u d hnd -> visits (hnd ++ gl ++ [Visit u d]) = [u].
Proof.
  intros Hgl Hhnd.
  by rewrite !visits_app, (visits_handler_log _ _ _ Hhnd), (visits_page_log _ _ Hgl).
Qed.

Lemma visits_frame db u d gl L lp hnd :
  page_log u gl -> handler_log u d hnd ->
  visits (hnd ++ lp ++ Committed db L :: gl ++ [Visit u d]) = visits lp ++ [u].
Proof.
  intros Hgl Hhnd. rewrite !visits_app, (visits_handler_log _ _ _ Hhnd).
  change (visits (Committed db L :: gl ++ [Visit u d])) with (visits (gl ++ [Visit u d])).
  by rewrite visits_app, (visits_page_log _ _ Hgl).
Qed.

(** No url is marked twice, and none that was visited at the start. *)
Lemma shape_visits_fresh db k V l ok :
  shape db k V l ok -> NoDup (visits l) /\ forall x, x ∈ visits l -> x ∉ V.
Proof.
  induction 1 as [u d V ok|u d V gl hnd ok Hd Hu Hgl Hhnd
                 |u d V gl L lp hnd okl ok Hd Hu Hgl Hlp [IHn IHf] Hhnd Hok
                 |u d L V ok|u d L V lp v c okl okc ok Hv Hlp [IHn IHf] Hc [IHcn IHcf] Hok].
  - split; [constructor|]. cbn. set_solver.
  - rewrite visits_frame_fail by done. split; [apply NoDup_singleton|]. set_solver.
  - rewrite visits_frame by done. split.
    + apply NoDup_app. split; [done|]. split; [|apply NoDup_singleton].
      intros x Hx%IHf. set_solver.
    + intros x [Hx%IHf| ->%list_elem_of_singleton]%elem_of_app; set_solver.
  - split; [constructor|]. cbn. set_solver.
  - rewrite visits_app, visits_cons_recurse. split.
    + apply NoDup_app. split; [done|]. split; [|done].
      intros x Hx%IHcf. set_solver.
    + intros x [Hx%IHcf|Hx%IHf]%elem_of_app; set_solver.
Qed.

(** Each request belongs to a mark of its own. *)
Lemma shape_fetched_sublist db k V l ok :
  shape db k V l ok -> fetched l `sublist_of` visits l.
Proof.
  induction 1 as [u d V ok|u d V gl hnd ok Hd Hu Hgl Hhnd
                 |u d V gl L lp hnd okl ok Hd Hu Hgl Hlp IH Hhnd Hok
                 |u d L V ok|u d L V lp v c okl okc ok Hv Hlp IH Hc IHc Hok].
  - done.
  - rewrite visits_frame_fail by done.
    rewrite !fetched_app, (fetched_handler_log _ _ _ Hhnd).
    change (fetched [Visit u d]) with (@nil str). rewrite app_nil_r. cbn [app].
    destruct (fetched_page_log _ _ Hgl) as [-> | ->]; [apply sublist_nil_l|done].
  - rewrite visits_frame by done.
    rewrite !fetched_app, (fetched_handler_log _ _ _ Hhnd).
    change (fetched (Committed db L :: gl ++ [Visit u d])) with (fetched (gl ++ [Visit u d])).
    rewrite fetched_app. change (fetched [Visit u d]) with (@nil str).
    rewrite app_nil_r. cbn [app]. apply sublist_app; [done|].
    destruct (fetched_page_log _ _ Hgl) as [-> | ->]; [apply sublist_nil_l|done].
  - done.
  - rewrite visits_app, fetched_app, visits_cons_recurse.
    change (fetched (Recurse u d L v (d - 1) :: lp)) with (fetched lp).
    by apply sublist_app.
Qed.

(** A url is marked before its page is requested and before its loop
    recurses; inside the loop of [u], the mark of [u] is older than the
    loop. *)
Lemma shape_marked_first db k V l ok :
  shape db k V l ok ->
  each_after (fun e earlier =>
                forall x, frame_of e = Some x ->
                  x ∈ visits earlier
                  \/ match k with Loop u _ _ => x = u | Call _ _ => False end) l.
Proof.
  assert (forall u d gl P,
            page_log u gl ->
            (forall q earlier, P (Urlopen u q) (earlier ++ [Visit u d])) ->
            (forall m earlier, P (Print m) earlier) ->
            (forall earlier, P (Visit u d) earlier) ->
            each_after P (gl ++ [Visit u d])) as Hpage.
  { intros u d gl P Hgl HU HP HV. apply each_after_app; [|by cbn].
    apply each_after_forall. eapply Forall_impl; [exact (page_log_events _ _ Hgl)|].
    intros e [[q ->]|[m ->]] earlier; auto. }
  assert (forall u d hnd P tl,
            handler_log u d hnd -> (forall m earlier, P (Print m) earlier) ->
            each_after P tl -> each_after P (hnd ++ tl)) as Hhandler.
  { intros u d hnd P tl Hhnd HP Hl. apply each_after_app; [|done].
    apply each_after_forall. eapply Forall_impl; [exact (handler_log_events _ _ _ Hhnd)|].
    intros e [m ->] earlier. auto. }
  induction 1 as [u d V ok|u d V gl hnd ok Hd Hu Hgl Hhnd
                 |u d V gl L lp hnd okl ok Hd Hu Hgl Hlp IH Hhnd Hok
                 |u d L V ok|u d L V lp v c okl okc ok Hv Hlp IH Hc IHc Hok].
  - done.
  - apply (Hhandler u d); [done|done|]. apply Hpage; [done| |done..].
    intros q earlier x [= <-]. left. rewrite visits_app. set_solver.
  - apply (Hhandler u d); [done|done|]. apply each_after_app.
    + eapply each_after_impl; [|exact IH]. cbn beta.
      intros e earlier He x Hx. left. rewrite visits_app.
      destruct (He x Hx) as [?| ->]; [set_solver|].
      apply elem_of_app. right.
      change (visits (Committed db L :: gl ++ [Visit u d]))
        with (visits (gl ++ [Visit u d])).
      rewrite visits_app. set_solver.
    + cbn [each_after]. split; [done|]. apply Hpage; [done| |done..].
      intros q earlier x [= <-]. left. rewrite visits_app. set_solver.
  - done.
  - apply each_after_app.
    + eapply each_after_impl; [|exact IHc]. cbn beta.
      intros e earlier He x Hx. left. rewrite visits_app.
      destruct (He x Hx) as [?|[]]. set_solver.
    + cbn [each_after]. split; [|done]. intros x [= <-]. by right.
Qed.

(** What is right about the depths of a log when the call has depth at
    most [D]: a frame has a positive depth, and a recursive call is given
    a link of the frame's set and the frame's depth less one, which is not
    negative. *)
Lemma shape_depths db k V l ok :
  shape db k V l ok ->
  forall D,
    match k with
    | Call _ d => 0 <= d <= D
    | Loop _ d _ => 0 < d <= D
    end ->
    Forall (fun e => match e with
                     | Visit _ d => 0 < d <= D
                     | Recurse _ d L v d' => d' = d - 1 /\ 0 <= d' /\ d <= D /\ v ∈ L
                     | _ => True
                     end) l.
Proof.
  assert (forall u gl (P : Event -> Prop),
            page_log u gl -> (forall q, P (Urlopen u q)) -> (forall m, P (Print m)) ->
            Forall P gl) as Hpage.
  { intros u gl P Hgl HU HP. eapply Forall_impl; [exact (page_log_events _ _ Hgl)|].
    intros e [[q ->]|[m ->]]; auto. }
  assert (forall u d hnd (P : Event -> Prop),
            handler_log u d hnd -> (forall m, P (Print m)) -> Forall P hnd) as Hhandler.
  { intros u d hnd P Hhnd HP. eapply Forall_impl; [exact (handler_log_events _ _ _ Hhnd)|].
    intros e [m ->]; auto. }
  induction 1 as [u d V ok|u d V gl hnd ok Hd Hu Hgl Hhnd
                 |u d V gl L lp hnd okl ok Hd Hu Hgl Hlp IH Hhnd Hok
                 |u d L V ok|u d L V lp v c okl okc ok Hv Hlp IH Hc IHc Hok]; intros D HD.
  - constructor.
  - apply Forall_app. split; [by apply (Hhandler u d)|].
    apply Forall_app. split; [by apply (Hpage u)|].
    apply Forall_singleton. lia.
  - apply Forall_app. split; [by apply (Hhandler u d)|].
    apply Forall_app. split; [apply IH; lia|].
    apply Forall_cons_2; [done|].
    apply Forall_app. split; [by apply (Hpage u)|].
    apply Forall_singleton. lia.
  - constructor.
  - apply Forall_app. split; [apply IHc; lia|].
    apply Forall_cons_2; [|by apply IH]. repeat split; [lia..|done].
Qed.


(** After a normal return every loop that began went through all of its
    links; the loop of [u] itself is still open. *)
Lemma shape_loops_complete db k V l ok :
  shape db k V l ok -> ok = true ->
  forall u' d' L' v0 d'',
    Recurse u' d' L' v0 d'' ∈ l ->
    match k with
    | Loop u d L => u' = u /\ d' = d /\ L' = L /\ d'' = d - 1
    | Call _ _ => False
    end
    \/ forall v, v ∈ L' -> Recurse u' d' L' v d'' ∈ l.
Proof.
  assert (forall u gl x, page_log u gl -> x ∈ gl ->
            (exists q, x = Urlopen u q) \/ exists m, x = Print m) as Hpage.
  { intros u gl x Hgl Hx. pose proof (page_log_events _ _ Hgl) as HF.
    rewrite Forall_forall in HF. by apply HF. }
  assert (forall u d hnd x, handler_log u d hnd -> x ∈ hnd -> exists m, x = Print m)
    as Hhandler.
  { intros u d hnd x Hhnd Hx. pose proof (handler_log_events _ _ _ Hhnd) as HF.
    rewrite Forall_forall in HF. by apply HF. }
  induction 1 as [u d V ok|u d V gl hnd ok Hd Hu Hgl Hhnd
                 |u d V gl L lp hnd okl ok Hd Hu Hgl Hlp IH Hhnd Hok
                 |u d L V ok|u d L V lp v c okl okc ok Hv Hlp IH Hc IHc Hok];
    intros -> u' d' L' v0 d'' Hin.
  - by apply elem_of_nil in Hin.
  - rewrite !elem_of_app, list_elem_of_singleton in Hin.
    destruct Hin as [[m ?]%(Hhandler u d)|[[[q ?]|[m ?]]%(Hpage u)|?]]; done.
  - destruct (Hok eq_refl) as [-> Hall].
    rewrite elem_of_app, elem_of_app, elem_of_cons, elem_of_app, list_elem_of_singleton
      in Hin.
    destruct Hin as [[m ?]%(Hhandler u d)
                    |[Hin|[?|[[[q ?]|[m ?]]%(Hpage u)|?]]]]; try done.
    right. intros v' Hv'.
    destruct (IH eq_refl _ _ _ _ _ Hin) as [(-> & -> & -> & ->)|Hc].
    + rewrite elem_of_app, elem_of_app. right. left. by apply Hall.
    + rewrite elem_of_app, elem_of_app. right. left. by apply Hc.
  - by apply elem_of_nil in Hin.
  - destruct (Hok eq_refl) as [-> ->].
    rewrite elem_of_app, elem_of_cons in Hin.
    destruct Hin as [Hin|[Heq|Hin]].
    + right. intros v' Hv'. destruct (IHc eq_refl _ _ _ _ _ Hin) as [[]|Hall].
      rewrite elem_of_app. left. by apply Hall.
    + injection Heq as -> -> -> -> ->. by left.
    + destruct (IH eq_refl _ _ _ _ _ Hin) as [?|Hall]; [by left|].
      right. intros v' Hv'. rewrite elem_of_app, elem_of_cons. right. right. by apply Hall.
Qed.


End Shape.

(** *** Enough fuel *)

Section Fuel.
Lemma get_page_returns w url st : (get_page w url st).1 <> OutOfFuel.
Proof.
  unfold get_page, bind, lift, try_except, sleep, urlopen_read, print, emit, ret, raise.
  destruct (quote url _) as [q|]; [|done].
  destruct (asyncio_sleep w (log st)) as [e|].
  - cbn [dispatch]. unfold bind, ret, emit, raise.
    destruct (is_HTTPError e); [by destruct (stdout_fault w _ _)|].
    destruct (is_URLError e); [by destruct (stdout_fault w _ _)|done].
  - destruct (urlopen w (log st) q) as [e|body].
    + cbn [dispatch]. unfold bind, ret, emit, raise.
      destruct (is_HTTPError e); [by destruct (stdout_fault w _ _)|].
      destruct (is_URLError e); [by destruct (stdout_fault w _ _)|done].
    + by destruct (Utf8.decode Utf8.Strict body).
Qed.

Lemma dispatch_returns w u depth e st :
  (dispatch [(is_Exception, fun e => print w (MsgFrame u depth e))] e st).1 <> OutOfFuel.
Proof.
  rewrite dispatch_Exception. destruct (is_Exception e); [|done].
  unfold print. by destruct (stdout_fault w _ _).
Qed.

Lemma get_links_from_page_returns w url base_url st :
  (get_links_from_page w url base_url st).1 <> OutOfFuel.
Proof.
  unfold get_links_from_page, bind. pose proof (get_page_returns w url st) as Hp.
  destruct (get_page w url st) as [[html|e|] st1]; [|done..].
  destruct html as [|c html]; [done|].
  destruct (feed w (c :: html) WikiParser_init) as [[e|] parser]; [done|].
  unfold lift. by destruct (resolve_all _ _ _).
Qed.

Lemma for_each_returns {A} (body : A -> M unit) (ls : list A) :
  (forall x st, (body x st).1 <> OutOfFuel) ->
  forall st, (for_each ls body st).1 <> OutOfFuel.
Proof.
  intros Hbody. induction ls as [|x ls IH]; intros st; cbn [for_each]; [done|].
  unfold bind. pose proof (Hbody x st) as Hx.
  destruct (body x st) as [[[]|e|] st1]; [apply IH|done..].
Qed.

(** A call with a depth that is not negative returns when the fuel
    exceeds the depth. *)
Lemma recursive_url_scrap_returns fuel w base_url db_name :
  forall depth current_url st,
    0 <= depth -> (Z.to_nat depth < fuel)%nat ->
    (recursive_url_scrap fuel w base_url current_url db_name depth st).1 <> OutOfFuel.
Proof.
  induction fuel as [|fuel IH]; intros depth cur st Hd Hfuel; [lia|].
  rewrite recursive_url_scrap_unfold.
  destruct ((depth =? 0) || bool_decide (cur ∈ visited st)) eqn:Hterm; [done|].
  apply orb_false_iff in Hterm as [Hd0%Z.eqb_neq _]. cbv zeta.
  pose proof (get_links_from_page_returns w cur base_url
                (add_event (Visit cur depth) (set_visited ({[cur]} ∪ visited st) st)))
    as Hgl.
  destruct (get_links_from_page _ _ _ _) as [[L|e|] st2];
    [|apply dispatch_returns|done].
  destruct (save_to_db w db_name L st2) as [o3 st3] eqn:Hsave.
  destruct (save_to_db_effect _ _ _ _ _ _ Hsave) as (_ & new3 & _ & Hnew3 & _).
  destruct Hnew3 as [[-> ->]|[[e ->] ->]]; [|apply dispatch_returns].
  match goal with
  | |- context [for_each ?ls ?body st3] =>
      pose proof (for_each_returns body ls) as Hloop
  end.
  specialize (Hloop ltac:(intros x st'; unfold bind, emit; apply IH; lia) st3).
  destruct (for_each _ _ st3) as [[[]|e|] st4]; [done| |done].
  apply dispatch_returns.
Qed.
End Fuel.

(** ** The claims about the traversal *)

(** C1, refuted as stated: a cancellation that arrives while [get_page]
    sleeps is not an [Exception]; no clause catches it and the call raises
    it. *)
Lemma explore_lets_cancellation_through : ~ explore_never_raises.
Proof.
  intros H.
  apply (H 7%nat Sample.cancelled Sample.base Sample.seed url_storage 6 Sample.start
           CancelledError).
  vm_compute. reflexivity.
Qed.

(** C1, amended. An [Exception] that link extraction, resolution or
    persistence raises in a frame is caught there: the frame prints it, and
    returns normally when this [print] succeeds; when the [print] raises,
    its exception leaves the frame. So an exception leaves a call of
    [recursive_url_scrap] only if it is not an instance of [Exception]
    (CancelledError, KeyboardInterrupt, SystemExit) or if the [print] of the
    call's own handler raised it. With fuel above a depth that is not
    negative the call ends. Where no [print] of a handler raises: no
    [Exception] leaves any call; after a normal return every loop of the run
    that made one recursive call has made the call for every link of its
    set, and the frame that committed its links has recursed into each of
    them. *)
Theorem explore_contains_exceptions (fuel : nat) (w : World)
    (base_url current_url db_name : str) (depth : Z) (st : State) :
  let r := recursive_url_scrap fuel w base_url current_url db_name depth st in
  let st1 := add_event (Visit current_url depth)
               (set_visited ({[ current_url ]} ∪ visited st) st) in
  (forall e, r.1 = Raised e ->
     is_Exception e = false
     \/ exists e0 h,
          is_Exception e0 = true
          /\ stdout_fault w h (MsgFrame current_url depth e0) = Some e
          /\ log r.2 = Print (MsgFrame current_url depth e0) :: h)
  /\ (0 <= depth -> (Z.to_nat depth < fuel)%nat -> r.1 <> OutOfFuel)
  /\ (forall e st2,
        fuel <> O -> depth <> 0 -> current_url ∉ visited st ->
        is_Exception e = true ->
        get_links_from_page w current_url base_url st1 = (Raised e, st2)
        \/ (exists L st2',
              get_links_from_page w current_url base_url st1 = (Ok L, st2')
              /\ save_to_db w db_name L st2' = (Raised e, st2)) ->
        r.2 = add_event (Print (MsgFrame current_url depth e)) st2
        /\ (stdout_fault w (log st2) (MsgFrame current_url depth e) = None ->
            r.1 = Ok tt)
        /\ (forall e', stdout_fault w (log st2) (MsgFrame current_url depth e) = Some e' ->
                       r.1 = Raised e'))
  /\ (frames_print w ->
      (forall e, r.1 = Raised e -> is_Exception e = false)
      /\ (0 <= depth -> (Z.to_nat depth < fuel)%nat ->
          r.1 = Ok tt \/ exists e, r.1 = Raised e /\ is_Exception e = false)
      /\ (r.1 = Ok tt ->
          exists new,
            log r.2 = new ++ log st
            /\ forall u d L v0 d',
                 Recurse u d L v0 d' ∈ new ->
                 forall v, v ∈ L -> Recurse u d L v d' ∈ new)
      /\ (forall L st2 st3,
            fuel <> O -> depth <> 0 -> current_url ∉ visited st ->
            get_links_from_page w current_url base_url st1 = (Ok L, st2) ->
            save_to_db w db_name L st2 = (Ok tt, st3) ->
            r.1 = Ok tt ->
            forall v, v ∈ L -> Recurse current_url depth L v (depth - 1) ∈ log r.2)).
Proof.
  intros r st1.
  split; [intros e He; by apply recursive_url_scrap_raises|].
  split; [intros Hd Hfuel; by apply recursive_url_scrap_returns|].
  split.
  - intros e st2 Hfuel Hd Hv He Hraise.
    destruct fuel as [|fuel]; [done|]. unfold r. rewrite recursive_url_scrap_unfold.
    apply Z.eqb_neq in Hd. rewrite Hd, (bool_decide_eq_false_2 _ Hv). cbn [orb].
    cbv zeta. fold st1.
    destruct Hraise as [-> | (L & st2' & -> & ->)];
      rewrite dispatch_Exception, He; unfold print;
      destruct (stdout_fault w (log st2) _); cbn [fst snd];
      (split; [done|]; split; [done|]; by intros e' [= <-]).
  - intros Hp.
    pose proof (recursive_url_scrap_describes fuel w base_url db_name true (fun _ => Hp)
                  current_url depth st) as (new & Hlog & _ & _ & Hshape & Hexn).
    fold r in Hlog, Hshape, Hexn. specialize (Hexn eq_refl).
    split; [exact Hexn|]. split; [|split].
    + intros Hd Hfuel.
      pose proof (recursive_url_scrap_returns fuel w base_url db_name depth current_url st
                    Hd Hfuel) as Hret. fold r in Hret.
      destruct r.1 as [[]|e|] eqn:Hr; [by left| |done]. right. exists e. auto.
    + intros Hok. exists new. split; [done|]. intros u d L v0 d' Hin v Hv.
      rewrite Hok in Hshape. cbn [is_Ok andb] in Hshape.
      destruct (shape_loops_complete _ _ _ _ _ Hshape eq_refl _ _ _ _ _ Hin) as [[]|Hall].
      by apply Hall.
    + intros L st2 st3 Hfuel Hd Hv Hgl Hsave Hok v Hin.
      destruct fuel as [|fuel]; [done|].
      destruct (frame_after_commit fuel w base_url db_name current_url depth st L st2 st3
                  Hd Hv Hgl Hsave) as (lp & hnd & Hlog' & _ & _ & _ & _ & Hall & Hhnd).
      fold r in Hlog', Hall, Hhnd. rewrite Hlog'.
      apply elem_of_app. right. apply elem_of_app. left. by apply Hall; [|apply Hhnd|].
Qed.

(** Without the condition on [print] an [Exception] does leave a call:
    when the frames cannot print, the failure of the page of A leaves the
    frame of A, ends the loop of the seed and leaves the call. *)
Example explore_raises_when_frames_cannot_print :
  (recursive_url_scrap 7 Scenario.hushed Sample.base Sample.seed url_storage 6
     Sample.start).1 = Raised ValueError.
Proof. vm_compute. reflexivity. Qed.

(** C2. In a traversal started with a depth that is not negative no url
    is marked visited twice, none that was visited at the start is marked,
    and each page request belongs to a mark of its own, so no url is
    fetched twice; a url is marked before its page is requested and before
    its frame recurses; the visited set only grows, by the marked urls; a
    recursive call is given the depth of its frame less one, which is not
    negative, and a frame has a positive depth not above the initial
    one. *)
Theorem explored_at_most_once (fuel : nat) (w : World)
    (base_url current_url db_name : str) (depth : Z) (st : State) :
  0 <= depth ->
  exists new,
    log (recursive_url_scrap fuel w base_url current_url db_name depth st).2
    = new ++ log st
    /\ NoDup (visits new)
    /\ (forall u, u ∈ visits new -> u ∉ visited st)
    /\ NoDup (fetched new)
    /\ (forall u, u ∈ fetched new -> u ∈ visits new)
    /\ (forall later e earlier u,
          new = later ++ e :: earlier -> frame_of e = Some u -> u ∈ visits earlier)
    /\ visited (recursive_url_scrap fuel w base_url current_url db_name depth st).2
       = list_to_set (visits new) ∪ visited st
    /\ visited st
       ⊆ visited (recursive_url_scrap fuel w base_url current_url db_name depth st).2
    /\ (forall u d L v d',
          Recurse u d L v d' ∈ new -> d' = d - 1 /\ 0 <= d' /\ d' < d /\ d <= depth)
    /\ (forall u d, Visit u d ∈ new -> 0 < d <= depth).
Proof.
  intros Hd.
  destruct (recursive_url_scrap_describes fuel w base_url db_name false ltac:(done)
              current_url depth st) as (new & Hlog & Hvis & _ & Hshape & _).
  exists new. split; [done|].
  destruct (shape_visits_fresh _ _ _ _ _ Hshape) as [Hnodup Hfresh].
  pose proof (shape_fetched_sublist _ _ _ _ _ Hshape) as Hsub.
  pose proof (shape_marked_first _ _ _ _ _ Hshape) as Hfirst.
  assert (0 <= depth <= depth) as Hrange by lia.
  pose proof (shape_depths _ _ _ _ _ Hshape depth Hrange) as Hdepths.
  rewrite Forall_forall in Hdepths.
  split; [done|]. split; [done|].
  split; [by eapply sublist_NoDup|].
  split; [intros u Hu; by eapply elem_of_sublist|].
  split.
  { intros later e earlier u -> Hu.
    destruct (each_after_split _ _ _ _ _ Hfirst eq_refl u Hu) as [?|[]]. done. }
  split; [done|]. split; [rewrite Hvis; set_solver|]. split.
  - intros u d L v d' Hin. destruct (Hdepths _ Hin) as (? & ? & ? & _). lia.
  - intros u d Hin. exact (Hdepths _ Hin).
Qed.

Lemma explored_at_most_once_witness :
  0 <= 2
  /\ exists new,
       log (recursive_url_scrap 3 Sample.calm Sample.base Sample.seed url_storage 2
              Sample.start).2 = new ++ log Sample.start
       /\ NoDup (visits new) /\ NoDup (fetched new).
Proof.
  split; [lia|].
  destruct (explored_at_most_once 3 Sample.calm Sample.base Sample.seed url_storage 2
              Sample.start) as (new & Hlog & Hv & _ & Hf & _); [lia|].
  exists new. exact (conj Hlog (conj Hv Hf)).
Defined.


(** C3, refuted as stated: when the server closes the connection while
    the response is read, [get_page] raises. *)
Lemma fetch_failure_can_raise : ~ fetch_failure_never_raises.
Proof.
  intros H.
  pose proof (H Scenario.disconnected Sample.seed Sample.seed Sample.start
                (OtherException (py "RemoteDisconnected"))
                eq_refl eq_refl eq_refl eq_refl) as Hpage.
  vm_compute in Hpage. discriminate Hpage.
Qed.

(** C3, amended. When [urlopen] or [read] fails with a URLError, of
    which HTTPError is a kind, [get_page] prints the failure; if this
    [print] succeeds, [get_page] returns the empty string,
    [get_links_from_page] returns the empty set, and the frame of that url
    saves the empty set and returns normally, having left the urls of the
    store as they were, unless SQLite raises then and this is not an
    [Exception] or cannot be printed. When the fetch fails with anything
    else, such as the failure of a connection that [http.client] raises
    while the response is read, [get_page] and [get_links_from_page] raise
    it; if it is an [Exception] the frame of that url catches it, and
    returns normally once it has printed it, without having called
    [save_to_db]. *)
Theorem fetch_failure_is_contained (fuel : nat) (w : World)
    (base_url url db_name : str) (depth : Z) (st : State) (q : str) (e : exn) :
  quote url (py ":/?&=") = Some q ->
  asyncio_sleep w (Visit url depth :: log st) = None ->
  urlopen w (Visit url depth :: log st) q = inl e ->
  let st1 := add_event (Visit url depth) (set_visited ({[ url ]} ∪ visited st) st) in
  let r := recursive_url_scrap (S fuel) w base_url url db_name depth st in
  (is_URLError e = true ->
   stdout_fault w (log (add_event (Urlopen url q) st1)) (fetch_message e q) = None ->
   let st2 := add_event (Print (fetch_message e q)) (add_event (Urlopen url q) st1) in
   get_page w url st1 = (Ok [], st2)
   /\ get_links_from_page w url base_url st1 = (Ok ∅, st2)
   /\ (depth <> 0 -> url ∉ visited st ->
       (forall stmt e', sqlite3_fault w (log st2) stmt = Some e' ->
                        is_Exception e' = true
                        /\ stdout_fault w (log st2) (MsgFrame url depth e') = None) ->
       r.1 = Ok tt /\ forall n, stored r.2 n = stored st n))
  /\ (is_URLError e = false ->
      let st2 := add_event (Urlopen url q) st1 in
      get_page w url st1 = (Raised e, st2)
      /\ get_links_from_page w url base_url st1 = (Raised e, st2)
      /\ (depth <> 0 -> url ∉ visited st -> is_Exception e = true ->
          stdout_fault w (log st2) (MsgFrame url depth e) = None ->
          r = (Ok tt, add_event (Print (MsgFrame url depth e)) st2))).
Proof.
  intros Hq Hsleep Hopen st1 r.
  assert (forall o st2, get_page w url st1 = (o, st2) ->
            get_links_from_page w url base_url st1
            = (match o with Ok _ => Ok ∅ | Raised e' => Raised e' | OutOfFuel => OutOfFuel end,
               st2) \/ exists c html, o = Ok (c :: html)) as Hlinks.
  { intros o st2 Hpage. unfold get_links_from_page, bind. rewrite Hpage.
    destruct o as [[|c html]|e'|]; eauto. }
  assert (forall o st2,
            depth <> 0 -> url ∉ visited st ->
            get_links_from_page w url base_url st1 = (o, st2) ->
            r = match o with
                | Ok L =>
                    match save_to_db w db_name L st2 with
                    | (Ok _, st3) =>
                        match for_each (set_iter w (log st3) L)
                                (fun link =>
                                   emit (Recurse url depth L link (depth - 1)) ;;;
                                   recursive_url_scrap fuel w base_url link db_name
                                     (depth - 1)) st3 with
                        | (Raised e', st4) =>
                            dispatch [(is_Exception,
                                       fun e => print w (MsgFrame url depth e))] e' st4
                        | r' => r'
                        end
                    | (Raised e', st3) =>
                        dispatch [(is_Exception,
                                   fun e => print w (MsgFrame url depth e))] e' st3
                    | (OutOfFuel, st3) => (OutOfFuel, st3)
                    end
                | Raised e' =>
                    dispatch [(is_Exception, fun e => print w (MsgFrame url depth e))] e' st2
                | OutOfFuel => (OutOfFuel, st2)
                end) as Hframe.
  { intros o st2 Hd Hv Hgl. unfold r. rewrite recursive_url_scrap_unfold.
    apply Z.eqb_neq in Hd. rewrite Hd, (bool_decide_eq_false_2 _ Hv). cbn [orb].
    cbv zeta. fold st1. rewrite Hgl. by destruct o. }
  split.
  - intros He Hprint st2.
    assert (get_page w url st1 = (Ok [], st2)) as Hpage.
    { unfold get_page, bind, lift, try_except, sleep, urlopen_read. rewrite Hq.
      unfold st1. cbn [ret log add_event set_visited]. rewrite Hsleep.
      cbn [log add_event set_visited]. rewrite Hopen.
      cbn [dispatch]. unfold bind, print, ret.
      unfold st2. unfold st1 in Hprint. cbn [log add_event set_visited] in Hprint.
      destruct e; try done; cbn [is_HTTPError is_URLError fetch_message] in *;
        cbn [log add_event set_visited]; by rewrite Hprint. }
    split; [done|].
    destruct (Hlinks _ _ Hpage) as [Hgl|(c & html & [=])]. split; [done|].
    intros Hd Hv Hfault. rewrite (Hframe _ _ Hd Hv Hgl).
    destruct (save_to_db w db_name ∅ st2) as [o3 st3] eqn:Hsave.
    pose proof (save_to_db_effect _ _ _ _ _ _ Hsave) as (_ & new3 & Hlog3 & Hnew3 & Hs3).
    assert (forall n, stored st3 n = stored st n) as Hsame.
    { intros n. rewrite Hs3. change (stored st2 n) with (stored st n).
      destruct Hnew3 as [[_ ->]|[_ ->]].
      - rewrite persisted_cons_commit, persisted_nil.
        case_decide; [destruct (private n)|]; set_solver.
      - rewrite persisted_nil. set_solver. }
    destruct Hnew3 as [[-> ->]|[[e' ->] ->]].
    + assert (set_iter w (log st3) ∅ = []) as ->.
      { apply Permutation_nil_r. rewrite (set_iter_perm w (log st3) ∅).
        by rewrite elements_empty. }
      done.
    + apply save_to_db_raises in Hsave as [stmt Hstmt].
      destruct (Hfault _ _ Hstmt) as [He' Hprint'].
      rewrite dispatch_Exception, He'. unfold print.
      cbn [app] in Hlog3. rewrite Hlog3, Hprint'. done.
  - intros He st2.
    assert (get_page w url st1 = (Raised e, st2)) as Hpage.
    { unfold get_page, bind, lift, try_except, sleep, urlopen_read. rewrite Hq.
      unfold st1. cbn [ret log add_event set_visited]. rewrite Hsleep.
      cbn [log add_event set_visited]. rewrite Hopen.
      cbn [dispatch]. by destruct e. }
    split; [done|].
    destruct (Hlinks _ _ Hpage) as [Hgl|(c & html & [=])]. split; [done|].
    intros Hd Hv Hexn Hprint. rewrite (Hframe _ _ Hd Hv Hgl).
    rewrite dispatch_Exception, Hexn. unfold print. by rewrite Hprint.
Qed.

Lemma fetch_failure_is_contained_witness :
  quote Sample.seed (py ":/?&=") = Some Sample.seed
  /\ is_URLError (HTTPError 404) = true
  /\ (recursive_url_scrap 1 Sample.not_found Sample.base Sample.seed url_storage 6
        Sample.start).1 = Ok tt.
Proof.
  split; [reflexivity|]. split; [reflexivity|].
  destruct (fetch_failure_is_contained 0 Sample.not_found Sample.base Sample.seed
              url_storage 6 Sample.start Sample.seed (HTTPError 404))
    as ((_ & _ & Hframe) & _); [reflexivity..|].
  apply Hframe; [lia|apply not_elem_of_empty|discriminate].
Defined.

(** ** The reset of the store *)

Section Reset.
Lemma match_seed_argv argv :
  Re.match_seed (List.nth 1 argv []) = true -> (length argv <? 2)%nat = false.
Proof.
  intros H. destruct argv as [|a0 [|a1 argv]]; [done..|]. done.
Qed.

End Reset.

(** C9, refuted as stated: with a response that is not UTF-8 the frame of
    the seed fails before it saves anything, and the run, which has dropped
    the table of the earlier run and has requested the page, ends without
    a table. *)
Lemma table_is_not_recreated_at_start : ~ table_recreated_before_crawling.
Proof.
  intros H.
  apply (H 7%nat Sample.binary [py "main.py"; Sample.seed] Sample.used
           Sample.seed Sample.seed).
  - reflexivity.
  - vm_compute. do 2 apply list_elem_of_further. apply list_elem_of_here.
  - vm_compute. reflexivity.
Qed.

(** C9, amended. In a run whose seed is valid the reset comes first: when
    SQLite reports no fault [DROP TABLE IF EXISTS Urls] succeeds and the
    traversal starts from a store without a table [Urls], so without any
    record of an earlier run; [main] is this traversal from depth 6 with an
    empty visited set, followed by [shutdown]. The table is created again by
    the first [save_to_db] that gets as far, and it then holds the saved
    urls. At the end of the run the store holds the urls that the
    traversal committed and no other. *)
Theorem run_starts_from_dropped_table (fuel : nat) (w : World) (argv : list str)
    (st : State) (parse_url : ParseResult) :
  Re.match_seed (List.nth 1 argv []) = true ->
  urlparse (check_bracketed_netloc w) (nfkc_ok w) (List.nth 1 argv []) []
  = Some parse_url ->
  (forall stmt, sqlite3_fault w (log st) stmt = None) ->
  (6 < fuel)%nat ->
  let st1 := add_event (Dropped url_storage)
               (set_file url_storage (drop_table (database st url_storage)) st) in
  let r := recursive_url_scrap fuel w
             (scheme parse_url ++ py "://" ++ netloc parse_url)
             (List.nth 1 argv []) url_storage 6 (set_visited ∅ st1) in
  reset_store w url_storage st = (Ok tt, st1)
  /\ Urls (database st1 url_storage) = None
  /\ stored st1 url_storage = ∅
  /\ main fuel w argv st = (r.1, add_event Shutdown r.2)
  /\ (exists new,
        log r.2 = new ++ log st1
        /\ stored (main fuel w argv st).2 url_storage = committed url_storage new)
  /\ (forall L st2 st3,
        Urls (database st2 url_storage) = None ->
        save_to_db w url_storage L st2 = (Ok tt, st3) ->
        Urls (database st3 url_storage) <> None /\ stored st3 url_storage = L).
Proof.
  intros Hseed Hparse Hfault Hfuel st1 r.
  assert (reset_store w url_storage st = (Ok tt, st1)) as Hreset.
  { unfold reset_store, kept, opened. cbn zeta.
    change (private url_storage) with false. by rewrite !execute_ok. }
  assert (stored st1 url_storage = ∅) as Hempty.
  { unfold st1. rewrite stored_add_event, stored_set_file, decide_True by done. done. }
  assert (r.1 <> OutOfFuel) as Hret.
  { apply recursive_url_scrap_returns; [lia|]. change (Z.to_nat 6) with 6%nat. lia. }
  assert (main fuel w argv st = (r.1, add_event Shutdown r.2)) as Hmain.
  { unfold main, try_finally. rewrite (match_seed_argv _ Hseed), Hseed. cbn [negb].
    unfold bind at 1. unfold lift. rewrite Hparse. cbn [ret].
    unfold bind at 1. rewrite Hreset. fold r.
    destruct r as [[[]|e|] st']; cbn [fst snd] in *; done. }
  split; [done|]. split.
  { unfold st1, database. cbn [files add_event set_file]. by rewrite lookup_insert_eq. }
  split; [done|]. split; [done|]. split.
  - destruct (recursive_url_scrap_describes fuel w
                (scheme parse_url ++ py "://" ++ netloc parse_url) url_storage false
                ltac:(done) (List.nth 1 argv []) 6 (set_visited ∅ st1))
      as (new & Hlog & _ & Hsto & _). fold r in Hlog, Hsto.
    exists new. split; [done|]. rewrite Hmain. cbn [snd]. rewrite stored_add_event.
    rewrite Hsto, persisted_public by done. change (stored (set_visited ∅ st1) url_storage)
      with (stored st1 url_storage). rewrite Hempty. set_solver.
  - intros L st2 st3 Hnone Hsave.
    pose proof (save_to_db_effect _ _ _ _ _ _ Hsave) as (_ & new3 & _ & Hnew3 & Hs3).
    destruct Hnew3 as [[_ ->]|[[e [=]] _]]. split.
    + unfold save_to_db, kept, opened in Hsave. cbn zeta in Hsave.
      change (private url_storage) with false in Hsave. cbv iota in Hsave.
      destruct (execute w (log st2) Connect _) as [e|d0]; [done|].
      destruct (execute w (log st2) PragmaWAL d0) as [e|d1]; [done|].
      destruct (execute w (log st2) CreateTable d1) as [e|d2] eqn:H2; [done|].
      destruct (insert_all w (log st2) _ d2) as [e|d3] eqn:H3; [done|].
      destruct (execute w (log st2) Commit d3) as [e|d4] eqn:H4; [done|].
      injection Hsave as <-. unfold database. cbn [files add_event set_file].
      rewrite lookup_insert_eq. cbn [default].
      unfold execute in H2, H4.
      destruct (sqlite3_fault w (log st2) CreateTable); [done|]. injection H2 as <-.
      destruct (sqlite3_fault w (log st2) Commit); [done|]. injection H4 as <-.
      apply (insert_all_table _ _ _ _ _ H3).
      destruct (create_table_exists d1) as [rows ->]. done.
    + rewrite Hs3, persisted_cons_commit, persisted_nil, decide_True by done.
      change (private url_storage) with false. cbv iota.
      unfold stored, urls_of. rewrite Hnone. set_solver.
Qed.

Lemma run_starts_from_dropped_table_witness :
  Re.match_seed (List.nth 1 [py "main.py"; Sample.seed] []) = true
  /\ (6 < 7)%nat
  /\ Urls (database
             (add_event (Dropped url_storage)
                (set_file url_storage (drop_table (database Sample.used url_storage))
                   Sample.used)) url_storage) = None.
Proof.
  split; [reflexivity|]. split; [lia|].
  destruct (run_starts_from_dropped_table 7 Sample.calm [py "main.py"; Sample.seed]
              Sample.used
              {| scheme := py "https"; netloc := py "en.wikipedia.org";
                 path := py "/wiki/Start"; params := []; query := [];
                 fragment := [] |})
    as (_ & Hnone & _); [reflexivity|vm_compute; reflexivity|reflexivity|lia|].
  exact Hnone.
Defined.
(** * Further properties, function by function *)

(** ** [WikiParser.handle_starttag]: what it collects and when it raises *)

Section Tokens.
Implicit Types (self : WikiParser) (attrs : list (str * option str)).
Implicit Types (tags : list (str * list (str * option str))).

Lemma handle_attrs_raises attrs self e :
  (handle_attrs attrs self).1 = Some e -> e = AttributeError /\ (py "href", None) ∈ attrs.
Proof.
  revert self.
  induction attrs as [|[name value] attrs IH]; intros self; cbn [handle_attrs]; [done|].
  destruct (str_eqb name (py "href")) eqn:Hn.
  - apply str_eqb_eq in Hn as ->. destruct value as [u|].
    + destruct (startswith _ u && _); intros [-> ?]%IH; (split; [done|by right]).
    + intros [= <-]. split; [done|by left].
  - intros [-> ?]%IH. split; [done|by right].
Qed.

Lemma handle_attrs_valueless attrs self :
  (py "href", None) ∈ attrs -> (handle_attrs attrs self).1 = Some AttributeError.
Proof.
  revert self.
  induction attrs as [|[name value] attrs IH]; intros self Hin; cbn [handle_attrs];
    [by apply elem_of_nil in Hin|].
  apply elem_of_cons in Hin as [[= <- <-]|Hin].
  - by rewrite str_eqb_refl.
  - destruct (str_eqb name (py "href")); [|by apply IH].
    destruct value as [u|]; [|done].
    destruct (startswith _ u && _); by apply IH.
Qed.

Lemma handle_attrs_complete attrs self v :
  (handle_attrs attrs self).1 = None ->
  (py "href", Some v) ∈ attrs -> article_link v = true ->
  v ∈ links (handle_attrs attrs self).2.
Proof.
  revert self.
  induction attrs as [|[name value] attrs IH]; intros self; cbn [handle_attrs];
    [by intros _ ?%elem_of_nil|].
  intros Hnone Hin Hv. apply elem_of_cons in Hin as [[= <- <-]|Hin].
  - rewrite str_eqb_refl in *. fold (article_link v) in *. rewrite Hv in *.
    apply handle_attrs_mono. cbn [links]. set_solver.
  - destruct (str_eqb name (py "href")); [|by apply IH].
    destruct value as [u|]; [|done].
    destruct (startswith _ u && _); by apply IH.
Qed.

Lemma handle_starttag_raises tag attrs self e :
  (handle_starttag tag attrs self).1 = Some e ->
  e = AttributeError /\ tag = py "a" /\ (py "href", None) ∈ attrs.
Proof.
  unfold handle_starttag. destruct (str_eqb tag (py "a")) eqn:Ht; [|done].
  apply str_eqb_eq in Ht. intros [? ?]%handle_attrs_raises. done.
Qed.

Lemma handle_starttag_mono tag attrs self :
  links self ⊆ links (handle_starttag tag attrs self).2.
Proof.
  unfold handle_starttag. destruct (str_eqb tag (py "a")); [|done].
  apply handle_attrs_mono.
Qed.

Lemma feed_tags_mono tags self : links self ⊆ links (feed_tags tags self).2.
Proof.
  revert self.
  induction tags as [|[tag attrs] tags IH]; intros self; cbn [feed_tags]; [done|].
  pose proof (handle_starttag_mono tag attrs self) as Hm.
  destruct (handle_starttag tag attrs self) as [[e|] self']; [done|].
  etrans; [exact Hm|apply IH].
Qed.

Lemma feed_tags_raises tags self e :
  (feed_tags tags self).1 = Some e ->
  e = AttributeError /\ exists attrs, (py "a", attrs) ∈ tags /\ (py "href", None) ∈ attrs.
Proof.
  revert self.
  induction tags as [|[tag attrs] tags IH]; intros self; cbn [feed_tags]; [done|].
  destruct (handle_starttag tag attrs self) as [[e'|] self'] eqn:Hh.
  - intros [= ->].
    destruct (handle_starttag_raises tag attrs self e) as (-> & -> & Hin);
      [by rewrite Hh|].
    split; [done|]. exists attrs. split; [by left|done].
  - intros (-> & attrs' & ? & ?)%IH. split; [done|].
    exists attrs'. split; [by right|done].
Qed.

Lemma feed_tags_valueless tags self attrs :
  (py "a", attrs) ∈ tags -> (py "href", None) ∈ attrs ->
  (feed_tags tags self).1 = Some AttributeError.
Proof.
  revert self.
  induction tags as [|[tag attrs'] tags IH]; intros self Hin Hnone; cbn [feed_tags];
    [by apply elem_of_nil in Hin|].
  destruct (handle_starttag tag attrs' self) as [[e|] self'] eqn:Hh.
  - destruct (handle_starttag_raises tag attrs' self e) as (-> & _); [by rewrite Hh|done].
  - apply elem_of_cons in Hin as [[= <- <-]|Hin]; [|by apply IH].
    unfold handle_starttag in Hh. rewrite str_eqb_refl in Hh.
    pose proof (handle_attrs_valueless attrs self Hnone) as Hr.
    rewrite Hh in Hr. done.
Qed.

Lemma feed_tags_complete tags self attrs v :
  (feed_tags tags self).1 = None ->
  (py "a", attrs) ∈ tags -> (py "href", Some v) ∈ attrs -> article_link v = true ->
  v ∈ links (feed_tags tags self).2.
Proof.
  revert self.
  induction tags as [|[tag attrs'] tags IH]; intros self; cbn [feed_tags];
    [by intros _ ?%elem_of_nil|].
  destruct (handle_starttag tag attrs' self) as [[e|] self'] eqn:Hh; [done|].
  intros Hnone Hin Hhref Hv. apply elem_of_cons in Hin as [[= <- <-]|Hin].
  - apply feed_tags_mono.
    unfold handle_starttag in Hh. rewrite str_eqb_refl in Hh.
    pose proof (handle_attrs_complete attrs self v) as Hc.
    rewrite Hh in Hc. by apply Hc.
  - by apply IH.
Qed.

(** [feed] raises what a handler raises, or else what the tokenizer
    raises. *)
Lemma feed_raises w html self e :
  (feed w html self).1 = Some e ->
  (e = AttributeError
   /\ exists attrs, (py "a", attrs) ∈ starttags w html /\ (py "href", None) ∈ attrs)
  \/ ((feed_tags (starttags w html) self).1 = None /\ tokenizer_fault w html = Some e).
Proof.
  unfold feed.
  destruct (feed_tags (starttags w html) self) as [[e'|] self'] eqn:Hf; cbn [fst].
  - intros [= ->]. left. apply (feed_tags_raises _ self). by rewrite Hf.
  - intros He. by right.
Qed.

Lemma feed_handlers w html self :
  tokenizer_fault w html = None ->
  (feed w html self).1 = (feed_tags (starttags w html) self).1.
Proof.
  intros Ht. unfold feed.
  by destruct (feed_tags (starttags w html) self) as [[e'|] self'].
Qed.
End Tokens.

(** X1. On a document on which the tokenizer does not fail and in which
    no anchor has an href attribute without a value, the parser raises
    nothing and its link set is exactly the set of the hrefs of anchors
    that start with "/wiki" and hold no ":". *)
Theorem extractor_collects_every_article_link (w : World) (html : str) :
  tokenizer_fault w html = None ->
  (forall attrs, (py "a", attrs) ∈ starttags w html -> (py "href", None) ∉ attrs) ->
  (feed w html WikiParser_init).1 = None
  /\ forall v,
       v ∈ links (feed w html WikiParser_init).2
       <-> exists attrs,
             (py "a", attrs) ∈ starttags w html /\ (py "href", Some v) ∈ attrs
             /\ startswith (py "/wiki") v = true /\ has (chr ":") v = false.
Proof.
  intros Htok Hval.
  assert ((feed_tags (starttags w html) WikiParser_init).1 = None) as Hnone.
  { destruct (feed_tags (starttags w html) WikiParser_init).1 as [e|] eqn:He; [|done].
    apply feed_tags_raises in He as (_ & attrs & Hin & Hh).
    by destruct (Hval attrs Hin). }
  split; [by rewrite feed_handlers|]. intros v. rewrite feed_parser. split.
  - intros Hv. pose proof Hv as Ha. rewrite <- (feed_parser w) in Ha.
    apply feed_links in Ha.
    apply andb_true_iff in Ha as [H1 H2]. apply negb_true_iff in H2.
    apply feed_tags_links in Hv as [Hv|(attrs & ? & ? & _)];
      [cbn [links WikiParser_init] in Hv; set_solver|].
    eauto.
  - intros (attrs & Hin & Hh & H1 & H2).
    apply (feed_tags_complete _ _ attrs); [done..|].
    unfold article_link. by rewrite H1, H2.
Qed.

Lemma extractor_collects_every_article_link_witness :
  tokenizer_fault Sample.calm (py "<html>") = None
  /\ (forall attrs, (py "a", attrs) ∈ starttags Sample.calm (py "<html>") ->
                    (py "href", None) ∉ attrs)
  /\ (feed Sample.calm (py "<html>") WikiParser_init).1 = None.
Proof.
  assert (forall attrs, (py "a", attrs) ∈ starttags Sample.calm (py "<html>") ->
                        (py "href", None) ∉ attrs) as Hval.
  { intros attrs Hin Hh. cbn [starttags Sample.calm] in Hin.
    unfold Sample.tags, Sample.anchor in Hin.
    repeat (apply elem_of_cons in Hin as [Heq|Hin];
            [injection Heq as ->;
             repeat (apply elem_of_cons in Hh as [[=]|Hh]); by apply elem_of_nil in Hh|]).
    by apply elem_of_nil in Hin. }
  split; [reflexivity|]. split; [exact Hval|].
  exact (proj1 (extractor_collects_every_article_link Sample.calm (py "<html>")
                  eq_refl Hval)).
Defined.

(** X2. [handle_starttag] raises exactly when the tag is an anchor with
    an href attribute that has no value, and then it raises
    AttributeError; a document with such an anchor, among the tags that
    the tokenizer gets to, raises AttributeError in the parser, and the
    parser raises nothing else but what the tokenizer raises. *)
Theorem valueless_href_raises_AttributeError (w : World) (html : str)
    (tag : str) (attrs : list (str * option str)) (self : WikiParser) :
  ((handle_starttag tag attrs self).1 = Some AttributeError
   <-> tag = py "a" /\ (py "href", None) ∈ attrs)
  /\ (forall e, (handle_starttag tag attrs self).1 = Some e -> e = AttributeError)
  /\ ((exists attrs', (py "a", attrs') ∈ starttags w html /\ (py "href", None) ∈ attrs')
      -> (feed w html self).1 = Some AttributeError)
  /\ (forall e, (feed w html self).1 = Some e ->
        (e = AttributeError
         /\ exists attrs', (py "a", attrs') ∈ starttags w html
                           /\ (py "href", None) ∈ attrs')
        \/ tokenizer_fault w html = Some e).
Proof.
  split; [|split; [|split]].
  - split.
    + intros (_ & ? & ?)%handle_starttag_raises. done.
    + intros [-> Hin]. unfold handle_starttag. rewrite str_eqb_refl.
      by apply handle_attrs_valueless.
  - by intros e (-> & _)%handle_starttag_raises.
  - intros (attrs' & Hin & Hh).
    pose proof (feed_tags_valueless _ self attrs' Hin Hh) as Hf. unfold feed.
    by destruct (feed_tags (starttags w html) self) as [[e'|] self'].
  - intros e [?|[_ ?]]%feed_raises; [by left|by right].
Qed.
(** ** [save_to_db]: the rows of the table *)

Section Rows.

Lemma rows_of_create_table d : rows_of (create_table d) = rows_of d.
Proof.
  unfold rows_of, create_table. destruct (Urls d) eqn:E; [by rewrite E|done].
Qed.

Lemma execute_rows w h stmt d d' :
  execute w h stmt d = inr d' -> stmt <> DropTable ->
  rows_of d `prefix_of` rows_of d'
  /\ (NoDup (rows_of d) -> NoDup (rows_of d'))
  /\ (forall x, x ∈ rows_of d' -> x ∈ rows_of d \/ stmt = InsertOrIgnore x).
Proof.
  unfold execute. destruct (sqlite3_fault w h stmt); [done|].
  destruct stmt; try (intros [= <-] _; by auto).
  - intros [= <-] _. rewrite rows_of_create_table. by auto.
  - unfold insert_or_ignore, rows_of. destruct (Urls d) as [rows|]; [|done].
    intros [= <-] _. cbn [Urls default]. case_bool_decide as Hin; [by auto|].
    split; [by apply prefix_app_r|]. split.
    + intros Hnd. apply NoDup_app. split; [done|]. split; [|apply NoDup_singleton].
      intros x Hx ->%list_elem_of_singleton. done.
    + intros x [?| ->%list_elem_of_singleton]%elem_of_app; auto.
  - done.
Qed.

Lemma insert_all_rows w h (urls : list str) d d' :
  insert_all w h urls d = inr d' ->
  rows_of d `prefix_of` rows_of d'
  /\ (NoDup (rows_of d) -> NoDup (rows_of d'))
  /\ (forall x, x ∈ rows_of d' -> x ∈ rows_of d \/ x ∈ urls).
Proof.
  revert d. induction urls as [|url urls IH]; intros d; cbn [insert_all].
  - intros [= <-]. by auto.
  - destruct (execute w h (InsertOrIgnore url) d) as [e|d1] eqn:Hex; [done|].
    apply execute_rows in Hex as (Hp & Hn & Hx); [|done].
    intros (Hp' & Hn' & Hx')%IH. split; [by etrans|]. split; [by auto|].
    intros x [[?|[= ->]]%Hx|?]%Hx'; [by left|right; by left|right; by right].
Qed.

Lemma files_set_file_ne n n' d st :
  n' <> n -> files (set_file n d st) !! n' = files st !! n'.
Proof. intros Hn. cbn [files set_file]. by rewrite lookup_insert_ne. Qed.

Lemma files_kept_ne n n' d st :
  n' <> n -> files (kept n d st) !! n' = files st !! n'.
Proof. intros Hn. unfold kept. destruct (private n); [done|by apply files_set_file_ne]. Qed.

(** [save_to_db] writes to its own file only. *)
Lemma save_to_db_other_files w db_name (urls : gset str) st o st' n :
  save_to_db w db_name urls st = (o, st') -> n <> db_name ->
  files st' !! n = files st !! n.
Proof.
  unfold save_to_db. cbn zeta. intros Hsave Hn. revert Hsave.
  destruct (execute w (log st) Connect _) as [e|d0]; [by intros [= _ <-]|].
  destruct (execute w (log st) PragmaWAL d0) as [e|d1]; [by intros [= _ <-]|].
  destruct (execute w (log st) CreateTable d1) as [e|d2];
    [intros [= _ <-]; by apply files_kept_ne|].
  destruct (insert_all w (log st) _ d2) as [e|d3];
    [intros [= _ <-]; by apply files_kept_ne|].
  destruct (execute w (log st) Commit d3) as [e|d4];
    intros [= _ <-]; by apply files_kept_ne.
Qed.

(** A private database leaves every file as it was. *)
Lemma save_to_db_private w db_name (urls : gset str) st o st' :
  private db_name = true -> save_to_db w db_name urls st = (o, st') ->
  files st' = files st.
Proof.
  unfold save_to_db, kept. intros ->. cbn zeta.
  destruct (execute w (log st) Connect _) as [e|d0]; [by intros [= _ <-]|].
  destruct (execute w (log st) PragmaWAL d0) as [e|d1]; [by intros [= _ <-]|].
  destruct (execute w (log st) CreateTable d1) as [e|d2]; [by intros [= _ <-]|].
  destruct (insert_all w (log st) _ d2) as [e|d3]; [by intros [= _ <-]|].
  destruct (execute w (log st) Commit d3) as [e|d4]; by intros [= _ <-].
Qed.

End Rows.

(** X3. [save_to_db] keeps the rows that the table holds at their place
    and appends only urls of its argument; if no url occurred twice before
    the call, none does after it. It leaves every other file alone. This
    holds whether the call commits or raises. *)
Theorem save_to_db_keeps_rows_unique (w : World) (db_name : str) (urls : gset str)
    (st : State) (o : Outcome unit) (st' : State) :
  save_to_db w db_name urls st = (o, st') ->
  NoDup (rows_of (database st db_name)) ->
  rows_of (database st db_name) `prefix_of` rows_of (database st' db_name)
  /\ NoDup (rows_of (database st' db_name))
  /\ (forall x, x ∈ rows_of (database st' db_name) ->
                x ∈ rows_of (database st db_name) \/ x ∈ urls)
  /\ (forall n, n <> db_name -> files st' !! n = files st !! n).
Proof.
  intros Hsave Hnd. destruct (private db_name) eqn:Hpriv.
  { pose proof (save_to_db_private _ _ _ _ _ _ Hpriv Hsave) as Hf.
    unfold database. rewrite Hf. split; [done|]. split; [done|]. by auto. }
  revert Hsave. unfold save_to_db, kept, opened. rewrite Hpriv. cbn zeta.
  destruct (execute w (log st) Connect _) as [e|d0] eqn:H0;
    [done_with ltac:(by auto)|].
  destruct (execute w (log st) PragmaWAL d0) as [e|d1] eqn:H1;
    [done_with ltac:(by auto)|].
  apply execute_rows in H0 as (Hp0 & Hn0 & Hx0); [|done].
  apply execute_rows in H1 as (Hp1 & Hn1 & Hx1); [|done].
  destruct (execute w (log st) CreateTable d1) as [e|d2] eqn:H2.
  { done_with idtac. rewrite database_set_file.
    split; [by etrans|]. split; [by auto|]. split.
    - intros x [[?|[=]]%Hx0|[=]]%Hx1. by left.
    - intros n Hn. by apply files_set_file_ne. }
  apply execute_rows in H2 as (Hp2 & Hn2 & Hx2); [|done].
  assert (rows_of (database st db_name) `prefix_of` rows_of d2
          /\ NoDup (rows_of d2)
          /\ (forall x, x ∈ rows_of d2 ->
                        x ∈ rows_of (database st db_name) \/ x ∈ urls)
          /\ (forall n, n <> db_name ->
                        files (set_file db_name d2 st) !! n = files st !! n)) as Hback.
  { split; [by do 2 (etrans; [eassumption|])|]. split; [by auto|]. split.
    - intros x [[[?|[=]]%Hx0|[=]]%Hx1|[=]]%Hx2. by left.
    - intros n Hn. by apply files_set_file_ne. }
  destruct (insert_all w (log st) _ d2) as [e|d3] eqn:H3.
  { done_with idtac. by rewrite database_set_file. }
  destruct (execute w (log st) Commit d3) as [e|d4] eqn:H4.
  { done_with idtac. by rewrite database_set_file. }
  apply insert_all_rows in H3 as (Hp3 & Hn3 & Hx3).
  apply execute_rows in H4 as (Hp4 & Hn4 & Hx4); [|done].
  destruct Hback as (Hp & Hn & Hx & Hf).
  done_with idtac.
  change (database (add_event (Committed db_name urls) (set_file db_name d4 st)) db_name)
    with (database (set_file db_name d4 st) db_name).
  rewrite database_set_file.
  split; [by do 2 (etrans; [eassumption|])|]. split; [by auto|]. split.
  - intros x [[?|Hin]%Hx3|[=]]%Hx4; [by apply Hx|].
    right. by apply elem_of_set_iter in Hin.
  - intros n Hne. by apply files_set_file_ne.
Qed.

Lemma save_to_db_keeps_rows_unique_witness :
  NoDup (rows_of (database Sample.used url_storage))
  /\ rows_of (database Sample.used url_storage)
     `prefix_of`
     rows_of (database (save_to_db Sample.calm url_storage {[ Sample.A; Sample.B ]}
                          Sample.used).2 url_storage).
Proof.
  assert (NoDup (rows_of (database Sample.used url_storage))) as Hnd.
  { vm_compute. apply NoDup_singleton. }
  split; [exact Hnd|].
  exact (proj1 (save_to_db_keeps_rows_unique Sample.calm url_storage {[ Sample.A; Sample.B ]}
                  Sample.used _ _ (surjective_pairing _) Hnd)).
Defined.

(** X4. A [save_to_db] that raises stores nothing: every file holds the
    urls, and the table of its own file the rows, that it held before;
    nothing is logged, and the exception is one that a SQLite statement
    raised. *)
Theorem save_to_db_failure_stores_nothing (w : World) (db_name : str)
    (urls : gset str) (st : State) (e : exn) (st' : State) :
  save_to_db w db_name urls st = (Raised e, st') ->
  (forall n, stored st' n = stored st n)
  /\ rows_of (database st' db_name) = rows_of (database st db_name)
  /\ log st' = log st
  /\ visited st' = visited st
  /\ exists stmt, sqlite3_fault w (log st) stmt = Some e.
Proof.
  intros Hsave.
  pose proof (save_to_db_raises _ _ _ _ _ _ Hsave) as Hfault.
  pose proof (save_to_db_effect _ _ _ _ _ _ Hsave) as (Hv & new & Hlog & Hnew & Hst).
  destruct Hnew as [[[=] _]|[_ ->]].
  split; [intros n; rewrite Hst, persisted_nil; set_solver|].
  split; [|done].
  destruct (private db_name) eqn:Hp.
  { pose proof (save_to_db_private _ _ _ _ _ _ Hp Hsave) as Hf.
    unfold database. by rewrite Hf. }
  revert Hsave. unfold save_to_db, kept, opened. rewrite Hp. cbn zeta.
  destruct (execute w (log st) Connect _) as [e0|d0] eqn:H0; [by intros [= _ <-]|].
  destruct (execute w (log st) PragmaWAL d0) as [e1|d1] eqn:H1; [by intros [= _ <-]|].
  assert (rows_of d1 = rows_of (database st db_name)) as Hd1.
  { unfold execute in H0, H1.
    destruct (sqlite3_fault w (log st) Connect); [done|].
    destruct (sqlite3_fault w (log st) PragmaWAL); [done|].
    injection H0 as <-. injection H1 as <-. done. }
  destruct (execute w (log st) CreateTable d1) as [e2|d2] eqn:H2.
  { intros [= _ <-]. by rewrite database_set_file. }
  assert (rows_of d2 = rows_of (database st db_name)) as Hd2.
  { unfold execute in H2. destruct (sqlite3_fault w (log st) CreateTable); [done|].
    injection H2 as <-. by rewrite rows_of_create_table. }
  destruct (insert_all w (log st) _ d2) as [e3|d3] eqn:H3.
  { intros [= _ <-]. by rewrite database_set_file. }
  destruct (execute w (log st) Commit d3) as [e4|d4] eqn:H4; [|done].
  intros [= _ <-]. by rewrite database_set_file.
Qed.

Lemma save_to_db_failure_stores_nothing_witness :
  save_to_db Scenario.locked url_storage {[ Sample.A; Sample.B ]} Sample.used
  = (Raised (sqlite3_Error (py "database is locked")),
     (save_to_db Scenario.locked url_storage {[ Sample.A; Sample.B ]} Sample.used).2)
  /\ rows_of (database (save_to_db Scenario.locked url_storage {[ Sample.A; Sample.B ]}
                          Sample.used).2 url_storage)
     = rows_of (database Sample.used url_storage).
Proof.
  assert (save_to_db Scenario.locked url_storage {[ Sample.A; Sample.B ]} Sample.used
          = (Raised (sqlite3_Error (py "database is locked")),
             (save_to_db Scenario.locked url_storage {[ Sample.A; Sample.B ]}
                Sample.used).2)) as Hsave.
  { vm_compute. reflexivity. }
  split; [exact Hsave|].
  exact (proj1 (proj2 (save_to_db_failure_stores_nothing _ _ _ _ _ _ Hsave))).
Defined.
(** ** [get_page]: the response, the request and the exceptions *)

Section Codec.

Local Open Scope N_scope.

(** [lia] with the quotients and remainders of divisions by constants. *)
Local Ltac div_lia := zify; Z.to_euclidean_division_equations; lia.

Local Ltac decide_tests :=
  repeat match goal with
         | |- context [(?a <? ?b)%N] =>
             first [ rewrite (proj2 (N.ltb_lt a b)) by div_lia
                   | rewrite (proj2 (N.ltb_ge a b)) by div_lia ]
         | |- context [(?a <=? ?b)%N] =>
             first [ rewrite (proj2 (N.leb_le a b)) by div_lia
                   | rewrite (proj2 (N.leb_gt a b)) by div_lia ]
         | |- context [(?a =? ?b)%N] =>
             first [ rewrite (proj2 (N.eqb_eq a b)) by div_lia
                   | rewrite (proj2 (N.eqb_neq a b)) by div_lia ]
         end.

Local Ltac split_tests H :=
  repeat match type of H with
         | context [(?a <? ?b)%N] =>
             destruct (N.ltb_spec a b); cbv iota in H; cbn [andb] in H
         | context [(?a <=? ?b)%N] =>
             destruct (N.leb_spec a b); cbv iota in H; cbn [andb] in H
         end.

Local Ltac split_nested :=
  repeat match goal with
         | |- context [if (if (?a <? ?b)%N then _ else _) then _ else _] =>
             destruct (N.ltb_spec a b)
         end.

(** The decoder reads back what the encoder wrote for one character. *)
Lemma decode_encode_char e c b r :
  Utf8.encode_char c = Some b ->
  Utf8.decode e (b ++ r) = option_map (cons c) (Utf8.decode e r).
Proof.
  unfold Utf8.encode_char. intros H. split_tests H; try done;
    injection H as <-; cbn [app Utf8.decode]; unfold Utf8.is_cont;
    decide_tests; cbn [andb orb negb]; split_nested; decide_tests;
    do 2 f_equal; div_lia.
Qed.

Lemma decode_encode e s bs :
  Utf8.encode s = Some bs -> Utf8.decode e bs = Some s.
Proof.
  revert bs. induction s as [|c s IH]; intros bs; cbn [Utf8.encode]; [by intros [= <-]|].
  destruct (Utf8.encode_char c) as [b|] eqn:Hc; [|done].
  destruct (Utf8.encode s) as [bs'|]; [|done].
  intros [= <-]. by rewrite (decode_encode_char _ _ _ _ Hc), (IH bs').
Qed.

Lemma encode_char_bytes c b :
  Utf8.encode_char c = Some b -> Forall (fun x => x < 256) b.
Proof.
  unfold Utf8.encode_char. intros H. split_tests H; try done;
    injection H as <-; repeat (apply Forall_cons_2; [div_lia|]); apply Forall_nil_2.
Qed.

Lemma encode_bytes s bs : Utf8.encode s = Some bs -> Forall (fun x => x < 256) bs.
Proof.
  revert bs. induction s as [|c s IH]; intros bs; cbn [Utf8.encode];
    [intros [= <-]; apply Forall_nil_2|].
  destruct (Utf8.encode_char c) as [b|] eqn:Hc; [|done].
  destruct (Utf8.encode s) as [bs'|]; [|done].
  intros [= <-]. apply Forall_app. split; [by apply encode_char_bytes in Hc|by apply IH].
Qed.

Lemma encode_ascii s : forallb isascii s = true -> Utf8.encode s = Some s.
Proof.
  induction s as [|c s IH]; cbn [forallb Utf8.encode]; [done|].
  intros [Hc ->%IH]%andb_true_iff. unfold Utf8.encode_char.
  unfold isascii in Hc. by rewrite Hc.
Qed.

Lemma encode_app s t :
  Utf8.encode (s ++ t)
  = match Utf8.encode s, Utf8.encode t with
    | Some a, Some b => Some (a ++ b)
    | _, _ => None
    end.
Proof.
  induction s as [|c s IH]; cbn [app Utf8.encode]; [by destruct (Utf8.encode t)|].
  rewrite IH. destruct (Utf8.encode_char c) as [b|]; [|done].
  destruct (Utf8.encode s) as [a|]; [|done].
  destruct (Utf8.encode t) as [b'|]; [|done]. by rewrite app_assoc.
Qed.
End Codec.

Section Quote.
Implicit Types (safe s t : str) (bs : bytes).

Lemma flat_map_quoter_safe safe bs :
  forallb (one_of safe) bs = true -> flat_map (quoter safe) bs = bs.
Proof.
  induction bs as [|b bs IH]; cbn [forallb flat_map]; [done|].
  intros [Hb ->%IH]%andb_true_iff. unfold quoter. by rewrite Hb.
Qed.

(** The shortcut of [quote_from_bytes] for a string of safe bytes gives
    what the general case gives. *)
Lemma quote_from_bytes_flat bs safe :
  quote_from_bytes bs safe
  = flat_map (quoter (_ALWAYS_SAFE ++ List.filter isascii safe)) bs.
Proof.
  unfold quote_from_bytes. destruct (forallb _ bs) eqn:Hall; [|done].
  by rewrite flat_map_quoter_safe.
Qed.

Lemma quote_flat s safe :
  quote s safe
  = option_map (flat_map (quoter (_ALWAYS_SAFE ++ List.filter isascii safe)))
               (Utf8.encode s).
Proof.
  unfold quote. destruct s as [|c s]; [done|].
  destruct (Utf8.encode (c :: s)); [|done]. cbn [option_map].
  by rewrite quote_from_bytes_flat.
Qed.

Lemma quote_app s t safe :
  quote (s ++ t) safe
  = match quote s safe, quote t safe with
    | Some a, Some b => Some (a ++ b)
    | _, _ => None
    end.
Proof.
  rewrite !quote_flat, encode_app.
  destruct (Utf8.encode s) as [a|]; [|done].
  destruct (Utf8.encode t) as [b|]; [|done]. cbn [option_map].
  by rewrite flat_map_app.
Qed.

Lemma quote_safe_filter : _ALWAYS_SAFE ++ List.filter isascii (py ":/?&=") = quote_safe.
Proof. reflexivity. Qed.

Lemma hexdigit_safe n : (n < 16)%N -> one_of quote_safe (hexdigit n) = true.
Proof.
  intros Hn.
  assert (Forall (fun k => one_of quote_safe (hexdigit k) = true)
            (map N.of_nat (seq 0 16))) as Hall.
  { by repeat (apply Forall_cons_2; [vm_compute; reflexivity|]). }
  rewrite Forall_forall in Hall. apply Hall.
  apply list_elem_of_fmap. exists (N.to_nat n). split; [lia|].
  apply elem_of_seq. lia.
Qed.

Lemma quoter_chars b :
  (b < 256)%N -> forallb (one_of (quote_safe ++ py "%")) (quoter quote_safe b) = true.
Proof.
  intros Hb. unfold quoter. destruct (one_of quote_safe b) eqn:Hs; cbn [forallb].
  - unfold one_of in *. by rewrite has_app, Hs.
  - unfold one_of at 2 3. rewrite !has_app.
    fold (one_of quote_safe (hexdigit (b / 16))).
    fold (one_of quote_safe (hexdigit (b mod 16))).
    rewrite !hexdigit_safe; [done| |].
    + zify; Z.to_euclidean_division_equations; lia.
    + zify; Z.to_euclidean_division_equations; lia.
Qed.

Lemma quote_chars s q :
  quote s (py ":/?&=") = Some q -> forallb (one_of (quote_safe ++ py "%")) q = true.
Proof.
  rewrite quote_flat, quote_safe_filter.
  destruct (Utf8.encode s) as [bs|] eqn:Hs; [|done]. intros [= <-].
  apply encode_bytes in Hs.
  induction Hs as [|b bs Hb _ IH]; cbn [flat_map]; [done|].
  rewrite forallb_app, IH, quoter_chars; done.
Qed.

Lemma quote_safe_ascii s : forallb (one_of quote_safe) s = true -> forallb isascii s = true.
Proof.
  induction s as [|c s IH]; cbn [forallb]; [done|].
  intros [Hc ->%IH]%andb_true_iff. rewrite andb_true_r.
  apply has_elem in Hc. unfold quote_safe in Hc.
  assert (forallb isascii (_ALWAYS_SAFE ++ py ":/?&=") = true) as Hall by reflexivity.
  rewrite forallb_forall in Hall. by apply Hall, list_elem_of_In.
Qed.

Lemma quote_unchanged s :
  forallb (one_of quote_safe) s = true -> quote s (py ":/?&=") = Some s.
Proof.
  intros Hs. rewrite quote_flat, quote_safe_filter.
  rewrite (encode_ascii s (quote_safe_ascii s Hs)). cbn [option_map].
  by rewrite flat_map_quoter_safe.
Qed.
End Quote.

Section Page.

Local Ltac request_cases Hq :=
  let Hin := fresh "Hin" in
  let Heq := fresh "Heq" in
  intros [= _ <-]; cbn [log add_event]; intros Hin;
  repeat (apply elem_of_cons in Hin as [Heq|Hin];
          [try discriminate Heq; injection Heq as ? ?; right; split; congruence|]);
  by left.

(** The request that a [get_page] adds to the log is for its own url, at
    the quoted url. *)
Lemma get_page_request w url st (o : Outcome str) st' u q :
  get_page w url st = (o, st') -> Urlopen u q ∈ log st' ->
  Urlopen u q ∈ log st \/ (u = url /\ quote url (py ":/?&=") = Some q).
Proof.
  unfold get_page, bind, lift, try_except, sleep, urlopen_read, print, emit, ret, raise.
  destruct (quote url _) as [q'|] eqn:Hq; [|request_cases Hq].
  destruct (asyncio_sleep w (log st)) as [e|].
  - cbn [dispatch]. unfold bind, ret, emit, raise.
    destruct (is_HTTPError e); [destruct (stdout_fault w _ _); request_cases Hq|].
    destruct (is_URLError e); [destruct (stdout_fault w _ _)|]; request_cases Hq.
  - destruct (urlopen w (log st) q') as [e|body].
    + cbn [dispatch]. unfold bind, ret, emit, raise.
      destruct (is_HTTPError e); [destruct (stdout_fault w _ _); request_cases Hq|].
      destruct (is_URLError e); [destruct (stdout_fault w _ _)|]; request_cases Hq.
    + destruct (Utf8.decode Utf8.Strict body); request_cases Hq.
Qed.

(** [get_page], case by case. On a URLError a handler prints; the
    exception of the [print] leaves, and else the result is the empty
    string. *)
Lemma get_page_unfold w url st :
  get_page w url st
  = match quote url (py ":/?&=") with
    | None => (Raised UnicodeEncodeError, st)
    | Some q =>
        let caught e st1 :=
          if is_URLError e then
            match stdout_fault w (log st1) (fetch_message e q) with
            | Some e' => (Raised e', add_event (Print (fetch_message e q)) st1)
            | None => (Ok [], add_event (Print (fetch_message e q)) st1)
            end
          else (Raised e, st1) in
        match asyncio_sleep w (log st) with
        | Some e => caught e st
        | None =>
            match urlopen w (log st) q with
            | inl e => caught e (add_event (Urlopen url q) st)
            | inr body =>
                match Utf8.decode Utf8.Strict body with
                | Some html => (Ok html, add_event (Urlopen url q) st)
                | None => (Raised UnicodeDecodeError, add_event (Urlopen url q) st)
                end
            end
        end
    end.
Proof.
  unfold get_page, bind, lift, try_except, sleep, urlopen_read, print, emit, ret, raise.
  destruct (quote url _) as [q|]; [|done]. cbv zeta.
  destruct (asyncio_sleep w (log st)) as [e|].
  - cbn [dispatch]. unfold bind, ret.
    destruct e; cbn [is_HTTPError is_URLError fetch_message]; try done;
      by destruct (stdout_fault w _ _).
  - destruct (urlopen w (log st) q) as [e|body].
    + cbn [dispatch]. unfold bind, ret.
      destruct e; cbn [is_HTTPError is_URLError fetch_message]; try done;
        by destruct (stdout_fault w _ _).
    + by destruct (Utf8.decode Utf8.Strict body).
Qed.

(** Every way in which [get_page] raises. *)
Lemma get_page_raised w url st e st' :
  get_page w url st = (Raised e, st') ->
  (quote url (py ":/?&=") = None /\ e = UnicodeEncodeError /\ st' = st)
  \/ exists q,
       quote url (py ":/?&=") = Some q
       /\ ((asyncio_sleep w (log st) = Some e /\ is_URLError e = false /\ st' = st)
           \/ (exists e0,
                 asyncio_sleep w (log st) = Some e0 /\ is_URLError e0 = true
                 /\ stdout_fault w (log st) (fetch_message e0 q) = Some e
                 /\ st' = add_event (Print (fetch_message e0 q)) st)
           \/ (asyncio_sleep w (log st) = None
               /\ ((urlopen w (log st) q = inl e /\ is_URLError e = false
                    /\ st' = add_event (Urlopen url q) st)
                   \/ (exists e0,
                         urlopen w (log st) q = inl e0 /\ is_URLError e0 = true
                         /\ stdout_fault w (Urlopen url q :: log st) (fetch_message e0 q)
                            = Some e
                         /\ st' = add_event (Print (fetch_message e0 q))
                                    (add_event (Urlopen url q) st))
                   \/ (exists body,
                         urlopen w (log st) q = inr body
                         /\ Utf8.decode Utf8.Strict body = None
                         /\ e = UnicodeDecodeError
                         /\ st' = add_event (Urlopen url q) st)))).
Proof.
  rewrite get_page_unfold.
  destruct (quote url _) as [q|] eqn:Hq; [|intros [= <- <-]; by auto].
  intros Hpage. right. exists q. split; [done|]. revert Hpage. cbv beta zeta.
  destruct (asyncio_sleep w (log st)) as [e'|] eqn:Hsleep.
  - destruct (is_URLError e') eqn:He'.
    + destruct (stdout_fault w (log st) _) as [e1|] eqn:Hf; [|done].
      intros [= <- <-]. right. left. by exists e'.
    + intros [= <- <-]. by left.
  - intros Hpage. right. right. split; [done|]. revert Hpage.
    destruct (urlopen w (log st) q) as [e'|body] eqn:Hopen.
    + destruct (is_URLError e') eqn:He'.
      * cbn [log add_event].
        destruct (stdout_fault w _ _) as [e1|] eqn:Hf; [|done].
        intros [= <- <-]. right. left. by exists e'.
      * intros [= <- <-]. by left.
    + destruct (Utf8.decode Utf8.Strict body) eqn:Hdec; [done|].
      intros [= <- <-]. right. right. by exists body.
Qed.

(** What [get_page] raises comes from [quote], from the decoder or from
    outside. *)
Lemma get_page_raised_by w url st e st' :
  get_page w url st = (Raised e, st') ->
  e = UnicodeEncodeError \/ e = UnicodeDecodeError \/ raised_by_world w e.
Proof.
  intros [(_ & -> & _)|(q & _ & H)]%get_page_raised; [by left|].
  destruct H as [(? & _)|[(e0 & _ & _ & ? & _)|(_ & [(? & _)|[(e0 & _ & _ & ? & _)|H]])]].
  - right. right. left. by eexists.
  - right. right. do 4 right. by eexists _, _.
  - right. right. right. left. by eexists _, _.
  - right. right. do 4 right. by eexists _, _.
  - destruct H as (body & _ & _ & -> & _). right. by left.
Qed.
End Page.

(** X5. When the server answers with the UTF-8 encoding of a text,
    [get_page] returns that text, having made one request, for the quoted
    url. *)
Theorem get_page_returns_the_text_sent (w : World) (url q html : str) (body : bytes)
    (st : State) :
  quote url (py ":/?&=") = Some q ->
  asyncio_sleep w (log st) = None ->
  Utf8.encode html = Some body ->
  urlopen w (log st) q = inr body ->
  get_page w url st = (Ok html, add_event (Urlopen url q) st).
Proof.
  intros Hq Hsleep Henc Hopen.
  unfold get_page, bind, lift, try_except, sleep, urlopen_read, ret.
  rewrite Hq, Hsleep, Hopen. by rewrite (decode_encode _ _ _ Henc).
Qed.

Lemma get_page_returns_the_text_sent_witness :
  quote Sample.seed (py ":/?&=") = Some Sample.seed
  /\ Utf8.encode (py "<html>") = Some (py "<html>")
  /\ get_page Sample.calm Sample.seed Sample.start
     = (Ok (py "<html>"), add_event (Urlopen Sample.seed Sample.seed) Sample.start).
Proof.
  split; [reflexivity|]. split; [reflexivity|].
  apply (get_page_returns_the_text_sent Sample.calm Sample.seed Sample.seed
           (py "<html>") (py "<html>") Sample.start); reflexivity.
Defined.

(** X6. The only request that [get_page] makes is for the percent-encoded
    form of its url. That form holds only letters, digits, the characters
    "_.-~:/?&=" and "%"; it is the url itself when the url holds only
    letters, digits and "_.-~:/?&="; and a "%" in the url is encoded again,
    as "%25". *)
Theorem get_page_requests_the_quoted_url (w : World) (url : str) (st : State)
    (o : Outcome str) (st' : State) :
  get_page w url st = (o, st') ->
  (forall u q, Urlopen u q ∈ log st' ->
     Urlopen u q ∈ log st \/ (u = url /\ quote url (py ":/?&=") = Some q))
  /\ (forall q, quote url (py ":/?&=") = Some q ->
        forallb (one_of (quote_safe ++ py "%")) q = true)
  /\ (forallb (one_of quote_safe) url = true -> quote url (py ":/?&=") = Some url)
  /\ (forall a b q,
        url = a ++ chr "%" :: b -> quote url (py ":/?&=") = Some q ->
        exists qa qb,
          quote a (py ":/?&=") = Some qa /\ quote b (py ":/?&=") = Some qb
          /\ q = qa ++ py "%25" ++ qb).
Proof.
  intros Hpage. split; [|split; [|split]].
  - intros u q. by apply (get_page_request w url st o st').
  - apply quote_chars.
  - apply quote_unchanged.
  - intros a b q -> Hq.
    change (a ++ chr "%" :: b) with (a ++ [chr "%"] ++ b) in Hq.
    rewrite !quote_app in Hq.
    destruct (quote a _) as [qa|]; [|done].
    destruct (quote b _) as [qb|]; [|done].
    exists qa, qb. split; [done|]. split; [done|].
    change (quote [chr "%"] (py ":/?&=")) with (Some (py "%25")) in Hq.
    by injection Hq as <-.
Qed.

Lemma get_page_requests_the_quoted_url_witness :
  get_page Sample.calm Sample.seed Sample.start
  = (Ok (py "<html>"), add_event (Urlopen Sample.seed Sample.seed) Sample.start)
  /\ (forallb (one_of quote_safe) Sample.seed = true ->
      quote Sample.seed (py ":/?&=") = Some Sample.seed).
Proof.
  assert (get_page Sample.calm Sample.seed Sample.start
          = (Ok (py "<html>"), add_event (Urlopen Sample.seed Sample.seed) Sample.start))
    as Hpage by reflexivity.
  split; [exact Hpage|].
  exact (proj1 (proj2 (proj2 (get_page_requests_the_quoted_url _ _ _ _ _ Hpage)))).
Defined.

(** X7. Every way in which [get_page] raises: with the
    UnicodeEncodeError of [quote], before any request; with what
    [asyncio.sleep] raised, before any request, or with what [urlopen]
    raised, if this is not a URLError; with what the [print] of a handler
    raised, after a URLError; or with the UnicodeDecodeError of a response
    that is not UTF-8. So an HTTPError or a URLError leaves [get_page] only
    if a [print] raised it. Conversely, a response that is not UTF-8 makes
    it raise UnicodeDecodeError after the request, an exception of
    [asyncio.sleep] that is not a URLError leaves it before any request,
    and after a URLError of [urlopen] what the [print] raises leaves it. *)
Theorem get_page_raises_only_other_errors (w : World) (url : str) (st : State) :
  (forall e st',
     get_page w url st = (Raised e, st') ->
     (quote url (py ":/?&=") = None /\ e = UnicodeEncodeError /\ st' = st)
     \/ exists q,
          quote url (py ":/?&=") = Some q
          /\ ((asyncio_sleep w (log st) = Some e /\ is_URLError e = false /\ st' = st)
              \/ (exists e0,
                    asyncio_sleep w (log st) = Some e0 /\ is_URLError e0 = true
                    /\ stdout_fault w (log st) (fetch_message e0 q) = Some e
                    /\ st' = add_event (Print (fetch_message e0 q)) st)
              \/ (asyncio_sleep w (log st) = None
                  /\ ((urlopen w (log st) q = inl e /\ is_URLError e = false
                       /\ st' = add_event (Urlopen url q) st)
                      \/ (exists e0,
                            urlopen w (log st) q = inl e0 /\ is_URLError e0 = true
                            /\ stdout_fault w (Urlopen url q :: log st)
                                 (fetch_message e0 q) = Some e
                            /\ st' = add_event (Print (fetch_message e0 q))
                                       (add_event (Urlopen url q) st))
                      \/ (exists body,
                            urlopen w (log st) q = inr body
                            /\ Utf8.decode Utf8.Strict body = None
                            /\ e = UnicodeDecodeError
                            /\ st' = add_event (Urlopen url q) st)))))
  /\ (forall e st',
        get_page w url st = (Raised e, st') -> is_URLError e = true ->
        exists h m, stdout_fault w h m = Some e)
  /\ (forall q body,
        quote url (py ":/?&=") = Some q ->
        asyncio_sleep w (log st) = None ->
        urlopen w (log st) q = inr body ->
        Utf8.decode Utf8.Strict body = None ->
        get_page w url st = (Raised UnicodeDecodeError, add_event (Urlopen url q) st))
  /\ (forall q e,
        quote url (py ":/?&=") = Some q ->
        asyncio_sleep w (log st) = Some e ->
        is_URLError e = false ->
        get_page w url st = (Raised e, st))
  /\ (forall q e0 e,
        quote url (py ":/?&=") = Some q ->
        asyncio_sleep w (log st) = None ->
        urlopen w (log st) q = inl e0 ->
        is_URLError e0 = true ->
        stdout_fault w (Urlopen url q :: log st) (fetch_message e0 q) = Some e ->
        get_page w url st
        = (Raised e, add_event (Print (fetch_message e0 q)) (add_event (Urlopen url q) st))).
Proof.
  split; [intros e st'; apply get_page_raised|]. split; [|split; [|split]].
  - intros e st' [(_ & -> & _)|(q & _ & H)]%get_page_raised He; [done|].
    destruct H as [(_ & ? & _)|[(e0 & _ & _ & ? & _)|(_ & [(_ & ? & _)|[(e0 & _ & _ & ? & _)|H]])]];
      [congruence|by eexists _, _|congruence|by eexists _, _|].
    by destruct H as (body & _ & _ & -> & _).
  - intros q body Hq Hsleep Hopen Hdec.
    unfold get_page, bind, lift, try_except, sleep, urlopen_read, ret, raise.
    by rewrite Hq, Hsleep, Hopen, Hdec.
  - intros q e Hq Hsleep He. rewrite get_page_unfold, Hq, Hsleep. cbv beta zeta.
    by rewrite He.
  - intros q e0 e Hq Hsleep Hopen He0 Hf. rewrite get_page_unfold, Hq, Hsleep, Hopen.
    cbv beta zeta. cbn [log add_event]. by rewrite He0, Hf.
Qed.

Lemma get_page_raises_only_other_errors_witness :
  Utf8.decode Utf8.Strict [255%N] = None
  /\ get_page Sample.binary Sample.seed Sample.start
     = (Raised UnicodeDecodeError, add_event (Urlopen Sample.seed Sample.seed) Sample.start).
Proof.
  split; [reflexivity|].
  apply (proj1 (proj2 (proj2 (get_page_raises_only_other_errors Sample.binary Sample.seed
                                Sample.start))) Sample.seed [255%N]); reflexivity.
Defined.
(** ** [get_links_from_page]: the links of a page *)

Section Links.
Implicit Types (ls : list str) (L : gset str).

Lemma resolve_all_complete w base_url ls L link :
  resolve_all w base_url ls = Some L -> link ∈ ls ->
  exists x, resolve w base_url link = Some x /\ x ∈ L.
Proof.
  revert L. induction ls as [|l ls IH]; intros L; cbn [resolve_all];
    [by intros _ ?%elem_of_nil|].
  destruct (resolve w base_url l) as [u|] eqn:Hu; [|done].
  destruct (resolve_all w base_url ls) as [L'|]; [|done].
  intros [= <-] [->|Hin]%elem_of_cons.
  - exists u. split; [done|set_solver].
  - destruct (IH L' eq_refl Hin) as (x & ? & ?). exists x. split; [done|set_solver].
Qed.

Lemma resolve_all_total w base_url ls :
  (forall link, link ∈ ls -> exists x, resolve w base_url link = Some x) ->
  exists L, resolve_all w base_url ls = Some L.
Proof.
  induction ls as [|l ls IH]; intros Hall; cbn [resolve_all]; [by eexists|].
  destruct (Hall l) as [x ->]; [by left|].
  destruct IH as [L ->]; [|by eexists].
  intros link Hin. apply Hall. by right.
Qed.

(** What [get_links_from_page] does with a page that is not empty. *)
Lemma get_links_from_page_parsed w url base_url st html st1 :
  get_page w url st = (Ok html, st1) -> html <> [] ->
  get_links_from_page w url base_url st
  = match feed w html WikiParser_init with
    | (Some e, _) => (Raised e, st1)
    | (None, parser) =>
        match resolve_all w base_url (set_iter w (log st1) (links parser)) with
        | Some L => (Ok L, st1)
        | None => (Raised ValueError, st1)
        end
    end.
Proof.
  intros Hpage Hne. unfold get_links_from_page, bind. rewrite Hpage.
  destruct html as [|c html]; [done|].
  destruct (feed w (c :: html) WikiParser_init) as [[e|] parser]; [done|].
  unfold lift. by destruct (resolve_all _ _ _).
Qed.

Lemma get_links_from_page_valueless w url base_url st html st1 attrs :
  get_page w url st = (Ok html, st1) -> html <> [] ->
  (py "a", attrs) ∈ starttags w html -> (py "href", None) ∈ attrs ->
  get_links_from_page w url base_url st = (Raised AttributeError, st1).
Proof.
  intros Hpage Hne Hin Hnone.
  rewrite (get_links_from_page_parsed _ _ _ _ _ _ Hpage Hne).
  pose proof (feed_tags_valueless (starttags w html) WikiParser_init attrs Hin Hnone) as Hf.
  unfold feed.
  destruct (feed_tags (starttags w html) WikiParser_init) as [[e|] parser]; [|done].
  cbn [fst] in Hf. by injection Hf as ->.
Qed.

Lemma get_links_from_page_tokenizer w url base_url st html st1 e :
  get_page w url st = (Ok html, st1) -> html <> [] ->
  (forall attrs, (py "a", attrs) ∈ starttags w html -> (py "href", None) ∉ attrs) ->
  tokenizer_fault w html = Some e ->
  get_links_from_page w url base_url st = (Raised e, st1).
Proof.
  intros Hpage Hne Hval Htok.
  rewrite (get_links_from_page_parsed _ _ _ _ _ _ Hpage Hne). unfold feed.
  destruct (feed_tags (starttags w html) WikiParser_init) as [[e'|] parser] eqn:Hf.
  - destruct (feed_tags_raises (starttags w html) WikiParser_init e')
      as (_ & attrs & Hin & Hnone); [by rewrite Hf|].
    by destruct (Hval attrs Hin).
  - by rewrite Htok.
Qed.
End Links.

(** X8. The links of a page that is not empty are exactly the
    resolutions of the hrefs of its anchors that start with "/wiki" and
    hold no ":"; the call changes nothing after the page is fetched. *)
Theorem page_links_are_the_resolved_article_links (w : World) (url base_url html : str)
    (st st1 st' : State) (L : gset str) :
  get_page w url st = (Ok html, st1) ->
  html <> [] ->
  get_links_from_page w url base_url st = (Ok L, st') ->
  st' = st1
  /\ forall x,
       x ∈ L
       <-> exists attrs v,
             (py "a", attrs) ∈ starttags w html /\ (py "href", Some v) ∈ attrs
             /\ startswith (py "/wiki") v = true /\ has (chr ":") v = false
             /\ resolve w base_url v = Some x.
Proof.
  intros Hpage Hne. rewrite (get_links_from_page_parsed _ _ _ _ _ _ Hpage Hne).
  destruct (feed w html WikiParser_init) as [[e|] parser] eqn:Hfeed; [done|].
  destruct (resolve_all w base_url _) as [L'|] eqn:Hall; [|done].
  intros [= -> ->]. split; [done|]. intros x. split.
  - intros Hx.
    destruct (resolve_all_elem _ _ _ _ _ Hall Hx) as (v & Hin%elem_of_set_iter & Hres).
    change parser with (@None exn, parser).2 in Hin. rewrite <- Hfeed in Hin.
    pose proof (feed_links _ _ _ Hin) as Ha.
    apply andb_true_iff in Ha as [H1 H2]. apply negb_true_iff in H2.
    rewrite feed_parser in Hin.
    apply feed_tags_links in Hin as [Hin|(attrs & ? & ? & _)];
      [cbn [links WikiParser_init] in Hin; set_solver|].
    exists attrs, v. done.
  - intros (attrs & v & Hin & Hh & H1 & H2 & Hres).
    assert (v ∈ links (feed w html WikiParser_init).2) as Hv.
    { rewrite feed_parser.
      apply (feed_tags_complete _ _ attrs); [|done..|].
      - pose proof Hfeed as Hfeed'. unfold feed in Hfeed'.
        by destruct (feed_tags (starttags w html) WikiParser_init) as [[e'|] p'].
      - unfold article_link. by rewrite H1, H2. }
    rewrite Hfeed in Hv. cbn [snd] in Hv.
    destruct (resolve_all_complete _ _ _ _ v Hall) as (x' & Hx' & ?);
      [by apply elem_of_set_iter|].
    rewrite Hres in Hx'. by injection Hx' as <-.
Qed.

Lemma page_links_are_the_resolved_article_links_witness :
  get_page Sample.calm Sample.seed Sample.start
  = (Ok (py "<html>"), add_event (Urlopen Sample.seed Sample.seed) Sample.start)
  /\ py "<html>" <> []
  /\ get_links_from_page Sample.calm Sample.seed Sample.base Sample.start
     = (Ok {[ Sample.A; Sample.B ]},
        add_event (Urlopen Sample.seed Sample.seed) Sample.start)
  /\ add_event (Urlopen Sample.seed Sample.seed) Sample.start
     = add_event (Urlopen Sample.seed Sample.seed) Sample.start.
Proof.
  assert (get_page Sample.calm Sample.seed Sample.start
          = (Ok (py "<html>"), add_event (Urlopen Sample.seed Sample.seed) Sample.start))
    as Hpage by reflexivity.
  assert (py "<html>" <> []) as Hne by discriminate.
  assert (get_links_from_page Sample.calm Sample.seed Sample.base Sample.start
          = (Ok {[ Sample.A; Sample.B ]},
             add_event (Urlopen Sample.seed Sample.seed) Sample.start)) as Hlinks.
  { vm_compute. reflexivity. }
  split; [exact Hpage|]. split; [exact Hne|]. split; [exact Hlinks|].
  exact (proj1 (page_links_are_the_resolved_article_links _ _ _ _ _ _ _ _
                  Hpage Hne Hlinks)).
Defined.

(** X9. With an http(s) origin as the base, [get_links_from_page] raises
    only what [get_page] raises, AttributeError on a page in which an
    anchor has an href without a value, or what the tokenizer of the
    parser raises on the page; it raises no ValueError of its own. A page
    with such an anchor always makes it raise AttributeError, and a page
    without one on which the tokenizer fails makes it raise what the
    tokenizer raised, whatever the base. *)
Theorem page_links_fail_only_with_the_page_or_the_parser (w : World)
    (url scheme netloc : str) (st : State) :
  http_origin w scheme netloc = true ->
  (forall e st',
     get_links_from_page w url (scheme ++ py "://" ++ netloc) st = (Raised e, st') ->
     get_page w url st = (Raised e, st')
     \/ exists html,
          html <> [] /\ get_page w url st = (Ok html, st')
          /\ ((e = AttributeError
               /\ exists attrs,
                    (py "a", attrs) ∈ starttags w html /\ (py "href", None) ∈ attrs)
              \/ tokenizer_fault w html = Some e))
  /\ (forall base_url html st1 attrs,
        get_page w url st = (Ok html, st1) -> html <> [] ->
        (py "a", attrs) ∈ starttags w html -> (py "href", None) ∈ attrs ->
        get_links_from_page w url base_url st = (Raised AttributeError, st1))
  /\ (forall base_url html st1 e,
        get_page w url st = (Ok html, st1) -> html <> [] ->
        (forall attrs, (py "a", attrs) ∈ starttags w html -> (py "href", None) ∉ attrs) ->
        tokenizer_fault w html = Some e ->
        get_links_from_page w url base_url st = (Raised e, st1)).
Proof.
  intros Ho. split;
    [|split; [intros base_url html st1 attrs; apply get_links_from_page_valueless
             |intros base_url html st1 e; apply get_links_from_page_tokenizer]].
  intros e st'.
  destruct (get_page w url st) as [[html|e'|] st1] eqn:Hpage.
  - destruct html as [|c html].
    { unfold get_links_from_page, bind. by rewrite Hpage. }
    rewrite (get_links_from_page_parsed _ _ _ _ _ _ Hpage ltac:(done)).
    destruct (feed w (c :: html) WikiParser_init) as [[e''|] parser] eqn:Hfeed.
    + intros [= -> ->]. right. exists (c :: html). split; [done|]. split; [done|].
      destruct (feed_raises w (c :: html) WikiParser_init e) as [?|[_ ?]];
        [by rewrite Hfeed|by left|by right].
    + destruct (resolve_all_total w (scheme ++ py "://" ++ netloc)
                  (set_iter w (log st1) (links parser))) as [L ->]; [|done].
      intros link Hin%elem_of_set_iter.
      change parser with (@None exn, parser).2 in Hin. rewrite <- Hfeed in Hin.
      apply feed_links in Hin. apply andb_true_iff in Hin as [Hw _].
      destruct (resolve_article w scheme netloc link Ho Hw) as (rest & -> & _).
      by eexists.
  - unfold get_links_from_page, bind. rewrite Hpage. intros [= -> ->]. by left.
  - unfold get_links_from_page, bind. by rewrite Hpage.
Qed.

Lemma page_links_fail_only_with_the_page_or_the_parser_witness :
  http_origin Scenario.marked (py "https") (py "en.wikipedia.org") = true
  /\ get_links_from_page Scenario.marked Sample.seed Sample.base Sample.start
     = (Raised (OtherException (py "AssertionError")),
        add_event (Urlopen Sample.seed Sample.seed) Sample.start).
Proof.
  assert (http_origin Scenario.marked (py "https") (py "en.wikipedia.org") = true) as Ho
    by reflexivity.
  split; [exact Ho|].
  apply (proj2 (proj2 (page_links_fail_only_with_the_page_or_the_parser Scenario.marked
                         Sample.seed (py "https") (py "en.wikipedia.org") Sample.start Ho))
           Sample.base (py "<html>")).
  - reflexivity.
  - discriminate.
  - intros attrs Hin Hh. cbn [starttags Scenario.marked Scenario.world] in Hin.
    unfold Sample.anchor in Hin.
    apply elem_of_cons in Hin as [Heq|Hin]; [|by apply elem_of_nil in Hin].
    injection Heq as ->.
    repeat (apply elem_of_cons in Hh as [[=]|Hh]). by apply elem_of_nil in Hh.
  - reflexivity.
Defined.
(** ** The Resolver on a link that needs no rewriting *)

Section Plain.
Implicit Types (p s t r n u v : str) (c x : N) (segs acc : list str).
Variables (chk nf : str -> bool).

Lemma join_cons c p q (ps : list str) : join c (p :: q :: ps) = p ++ c :: join c (q :: ps).
Proof. reflexivity. Qed.

Lemma join_split c s : join c (split c s) = s.
Proof.
  induction s as [|x s IH]; [done|]. cbn [split].
  destruct (split c s) as [|b0 t] eqn:Hs; [by apply split_nonempty in Hs|].
  destruct (x =? c)%N eqn:Hx.
  - apply N.eqb_eq in Hx as ->. by rewrite join_cons, IH.
  - destruct t as [|b1 t].
    + cbn [join] in *. by rewrite IH.
    + rewrite join_cons in *. by rewrite <- IH.
Qed.

Lemma resolve_segments_from acc segs :
  forallb (fun seg => negb (mem seg [py "."; py ".."])) segs = true ->
  fold_left (fun resolved_path seg =>
               if str_eqb seg (py "..") then removelast resolved_path
               else if str_eqb seg (py ".") then resolved_path
               else resolved_path ++ [seg]) segs acc
  = acc ++ segs.
Proof.
  revert acc. induction segs as [|seg segs IH]; intros acc; cbn [forallb fold_left];
    [by rewrite app_nil_r|].
  intros [Hseg Hsegs]%andb_true_iff. apply negb_true_iff in Hseg.
  unfold mem in Hseg. cbn [existsb] in Hseg.
  apply orb_false_iff in Hseg as [H1 [H2 _]%orb_false_iff].
  rewrite H1, H2, IH by done. by rewrite <- app_assoc.
Qed.

Lemma resolve_segments_plain segs :
  forallb (fun seg => negb (mem seg [py "."; py ".."])) segs = true ->
  resolve_segments segs = segs.
Proof. apply (resolve_segments_from []). Qed.

Lemma last_plain segs :
  forallb (fun seg => negb (mem seg [py "."; py ".."])) segs = true ->
  segs <> [] -> mem (List.last segs []) [py "."; py ".."] = false.
Proof.
  induction segs as [|seg segs IH]; [done|]. cbn [forallb].
  intros [Hseg Hsegs]%andb_true_iff _. destruct segs as [|seg' segs].
  - by apply negb_true_iff in Hseg.
  - by apply IH.
Qed.

Lemma split_off_absent c s : has c s = false -> _split_off c s = (s, []).
Proof.
  intros Hc. unfold _split_off.
  assert (split1 c s = None) as ->; [|done].
  induction s as [|x s IH]; [done|]. cbn [split1 has existsb] in *.
  apply orb_false_iff in Hc as [Hx Hs]. rewrite N.eqb_sym, Hx.
  by rewrite (IH Hs).
Qed.

Lemma none_of_has chars s c :
  forallb (fun x => negb (one_of chars x)) s = true -> c ∈ chars -> has c s = false.
Proof.
  intros Hall Hc. apply has_false. intros Hin.
  rewrite forallb_forall in Hall. apply list_elem_of_In, Hall in Hin.
  apply negb_true_iff, has_false in Hin. done.
Qed.

(** [urlparse] of an absolute path without query, fragment, parameters
    or removable characters: the path is the whole url. *)
Lemma urlparse_plain s t :
  s = py "http" \/ s = py "https" ->
  forallb (fun c => negb (one_of (py "%;?#" ++ _UNSAFE_URL_BYTES_TO_REMOVE) c))
    (chr "/" :: chr "w" :: t) = true ->
  urlparse chk nf (chr "/" :: chr "w" :: t) s
  = Some {| scheme := s; netloc := []; path := chr "/" :: chr "w" :: t;
            params := []; query := []; fragment := [] |}.
Proof.
  intros Hs Hall.
  pose proof (forallb_none_of _ _ _ Hall) as [_ Hunsafe].
  assert (has (chr "#") (chr "/" :: chr "w" :: t) = false) as Hf
    by (apply (none_of_has _ _ _ Hall); set_solver).
  assert (has (chr "?") (chr "/" :: chr "w" :: t) = false) as Hq
    by (apply (none_of_has _ _ _ Hall); set_solver).
  assert (has (chr ";") (chr "/" :: chr "w" :: t) = false) as Hp
    by (apply (none_of_has _ _ _ Hall); set_solver).
  unfold urlparse, urlsplit.
  rewrite lstrip_keep by reflexivity.
  rewrite (remove_unsafe_id _ Hunsafe).
  rewrite split_scheme_none by reflexivity.
  unfold _split_netloc.
  change (startswith (py "//") (chr "/" :: chr "w" :: t)) with false. cbv iota.
  rewrite (split_off_absent _ _ Hf), (split_off_absent _ _ Hq).
  cbn [_checknetloc sr_scheme sr_netloc sr_path sr_query sr_fragment].
  rewrite Hp, andb_false_r.
  by destruct Hs as [-> | ->].
Qed.

Lemma urljoin_plain s n t :
  s = py "http" \/ s = py "https" -> n <> [] ->
  forallb (fun c => negb (one_of (py "/?#" ++ _UNSAFE_URL_BYTES_TO_REMOVE) c)) n = true ->
  _brackets_ok chk n = true -> _checknetloc nf n = true ->
  plain_link (chr "/" :: chr "w" :: t) = true ->
  urljoin chk nf (s ++ py "://" ++ n) (chr "/" :: chr "w" :: t)
  = Some (s ++ py "://" ++ n ++ chr "/" :: chr "w" :: t).
Proof.
  intros Hs Hne Hn Hbr Hck [Hall Hsegs]%andb_true_iff. unfold urljoin.
  assert (exists c b, s ++ py "://" ++ n = c :: b) as (c & b & Hbase)
    by (destruct Hs as [-> | ->]; by eexists _, _).
  rewrite Hbase. cbv iota. rewrite <- Hbase. clear c b Hbase.
  rewrite (urlparse_origin chk nf s n Hs Hn Hbr Hck).
  cbn [scheme netloc path params query fragment].
  rewrite (urlparse_plain s t Hs Hall).
  cbn [scheme netloc path params query fragment].
  rewrite str_eqb_refl.
  assert (mem s uses_relative = true) as -> by (by destruct Hs as [-> | ->]).
  assert (mem s uses_netloc = true) as -> by (by destruct Hs as [-> | ->]).
  cbn [negb orb andb str_eqb take].
  change (py "/") with [47%N]. change (chr "/") with 47%N.
  cbn [str_eqb]. rewrite N.eqb_refl. cbn [andb].
  change 47%N with (chr "/").
  rewrite (resolve_segments_plain _ Hsegs).
  rewrite (last_plain _ Hsegs (split_nonempty _ _)).
  rewrite join_split. cbn [str_eqb].
  unfold urlunparse, urlunsplit.
  cbn [scheme netloc path params query fragment str_eqb negb andb orb take].
  apply str_eqb_neq in Hne. rewrite Hne. cbn [negb orb].
  change (py "/") with [47%N]. change (chr "/") with 47%N.
  cbn [str_eqb]. rewrite N.eqb_refl. cbn [andb negb].
  assert (str_eqb s [] = false) as -> by (by destruct Hs as [-> | ->]).
  done.
Qed.
End Plain.

(** X10. For an http(s) origin as the base and a raw link that begins
    with "/wiki" and holds no "%", ";", "?", "#", tab, CR or LF and no
    "." or ".." segment, the Resolver yields the base followed by the raw
    link. *)
Theorem resolver_appends_plain_links (w : World) (scheme netloc raw : str) :
  http_origin w scheme netloc = true ->
  startswith (py "/wiki") raw = true ->
  plain_link raw = true ->
  resolve w (scheme ++ py "://" ++ netloc) raw
  = Some (scheme ++ py "://" ++ netloc ++ raw).
Proof.
  intros (Hs & Hne & Hn & Hbr & Hck)%http_origin_inv [r ->]%startswith_inv Hplain.
  unfold resolve.
  assert (unquote (py "/wiki" ++ r) = py "/wiki" ++ r) as ->.
  { unfold unquote. apply andb_true_iff in Hplain as [Hall _].
    rewrite (none_of_has _ _ (chr "%") Hall); [done|set_solver]. }
  change (py "/wiki" ++ r) with (chr "/" :: chr "w" :: py "iki" ++ r) in *.
  by apply urljoin_plain.
Qed.

Lemma resolver_appends_plain_links_witness :
  http_origin Sample.calm (py "https") (py "en.wikipedia.org") = true
  /\ startswith (py "/wiki") (py "/wiki/Test") = true
  /\ plain_link (py "/wiki/Test") = true
  /\ resolve Sample.calm (py "https" ++ py "://" ++ py "en.wikipedia.org") (py "/wiki/Test")
     = Some (py "https://en.wikipedia.org/wiki/Test").
Proof.
  split; [reflexivity|]. split; [reflexivity|]. split; [reflexivity|].
  apply (resolver_appends_plain_links Sample.calm (py "https") (py "en.wikipedia.org")
           (py "/wiki/Test")); reflexivity.
Defined.
(** ** [recursive_url_scrap]: what a traversal fetches, stores and raises *)

Section Order.
Implicit Types (k : kind) (V L : gset str) (l lp new earlier : list Event) (e : Event).
Implicit Types (P : Event -> list Event -> Prop).





(** A call with depth 0 does nothing, and the loop of a frame of depth 1
    neither marks nor requests. *)
Lemma shape_last_level db k V l ok :
  shape db k V l ok ->
  match k with
  | Call _ d => d = 0 -> l = []
  | Loop _ d _ => d = 1 -> visits l = [] /\ fetched l = []
  end.
Proof.
  induction 1 as [u d V ok|u d V gl hnd ok Hd Hu Hgl Hhnd
                 |u d V gl L lp hnd okl ok Hd Hu Hgl Hlp IH Hhnd Hok
                 |u d L V ok|u d L V lp v c okl okc ok Hv Hlp IH Hc IHc Hok];
    try done.
  intros ->. rewrite IHc by done. cbn [app]. rewrite visits_cons_recurse.
  change (fetched (Recurse u 1 L v (1 - 1) :: lp)) with (fetched lp). by apply IH.
Qed.

(** Below a depth that is negative the depths only decrease. *)
Lemma shape_depths_negative db k V l ok :
  shape db k V l ok ->
  forall D,
    D < 0 ->
    match k with Call _ d => d <= D | Loop _ d _ => d <= D end ->
    Forall (fun e => match e with
                     | Visit _ d => d <= D
                     | Recurse _ d _ _ d' => d' = d - 1 /\ d <= D
                     | _ => True
                     end) l.
Proof.
  assert (forall u gl (Q : Event -> Prop),
            page_log u gl -> (forall q, Q (Urlopen u q)) -> (forall m, Q (Print m)) ->
            Forall Q gl) as Hpage.
  { intros u gl Q Hgl HU HP. eapply Forall_impl; [exact (page_log_events _ _ Hgl)|].
    intros e [[q ->]|[m ->]]; auto. }
  assert (forall u d hnd (Q : Event -> Prop),
            handler_log u d hnd -> (forall m, Q (Print m)) -> Forall Q hnd) as Hhandler.
  { intros u d hnd Q Hhnd HP. eapply Forall_impl; [exact (handler_log_events _ _ _ Hhnd)|].
    intros e [m ->]; auto. }
  induction 1 as [u d V ok|u d V gl hnd ok Hd Hu Hgl Hhnd
                 |u d V gl L lp hnd okl ok Hd Hu Hgl Hlp IH Hhnd Hok
                 |u d L V ok|u d L V lp v c okl okc ok Hv Hlp IH Hc IHc Hok];
    intros D HD Hk.
  - constructor.
  - apply Forall_app. split; [by apply (Hhandler u d)|].
    apply Forall_app. split; [by apply (Hpage u)|].
    by apply Forall_singleton.
  - apply Forall_app. split; [by apply (Hhandler u d)|].
    apply Forall_app. split; [by apply IH|].
    apply Forall_cons_2; [done|].
    apply Forall_app. split; [by apply (Hpage u)|].
    by apply Forall_singleton.
  - constructor.
  - apply Forall_app. split; [apply IHc; lia|].
    apply Forall_cons_2; [done|by apply IH].
Qed.

Lemma for_each_visited {A} (body : A -> M unit) (ls : list A) :
  (forall x st, visited st ⊆ visited (body x st).2) ->
  forall st, visited st ⊆ visited (for_each ls body st).2.
Proof.
  intros Hbody. induction ls as [|x ls IH]; intros st; cbn [for_each]; [done|].
  unfold bind. pose proof (Hbody x st) as Hx.
  destruct (body x st) as [[[]|ex|] st1]; cbn [snd] in *; [|done..].
  etrans; [exact Hx|apply IH].
Qed.

Lemma recursive_url_scrap_visited fuel w base_url db_name current_url depth st :
  visited st
  ⊆ visited (recursive_url_scrap fuel w base_url current_url db_name depth st).2.
Proof.
  destruct (recursive_url_scrap_describes fuel w base_url db_name false ltac:(done)
              current_url depth st) as (new & _ & -> & _). set_solver.
Qed.

(** A call that is given fuel and a depth other than 0 leaves its url
    marked. *)
Lemma recursive_url_scrap_marks fuel w base_url db_name current_url depth st :
  depth <> 0 ->
  current_url
  ∈ visited (recursive_url_scrap (S fuel) w base_url current_url db_name depth st).2.
Proof.
  intros Hd. rewrite recursive_url_scrap_unfold.
  apply Z.eqb_neq in Hd. rewrite Hd. cbn [orb].
  case_bool_decide as Hv; [done|]. cbv zeta.
  set (st1 := add_event (Visit current_url depth)
                (set_visited ({[current_url]} ∪ visited st) st)).
  assert (current_url ∈ visited st1) as H1 by (cbn; set_solver).
  assert (forall (ex : exn) st', current_url ∈ visited st' ->
            current_url
            ∈ visited (dispatch [(is_Exception,
                                  fun ex' => print w (MsgFrame current_url depth ex'))]
                         ex st').2) as Hcaught.
  { intros ex st' Hin. rewrite dispatch_Exception.
    destruct (is_Exception ex); [|done].
    by destruct (print_effect w (MsgFrame current_url depth ex) st') as (-> & _). }
  destruct (get_links_from_page w current_url base_url st1) as [[L|ex|] st2] eqn:Hgl;
    pose proof (get_links_from_page_effect _ _ _ _ _ _ Hgl) as (Hv2 & _);
    [|apply Hcaught; by rewrite Hv2|cbn [snd]; by rewrite Hv2].
  destruct (save_to_db w db_name L st2) as [o3 st3] eqn:Hsave.
  pose proof (save_to_db_effect _ _ _ _ _ _ Hsave) as (Hv3 & _).
  assert (current_url ∈ visited st3) as H3 by (by rewrite Hv3, Hv2).
  destruct o3 as [[]|ex|]; [|by apply Hcaught|done].
  match goal with
  | |- context [for_each ?ls ?body st3] =>
      pose proof (for_each_visited body ls) as Hloop
  end.
  specialize (Hloop ltac:(intros x st'; unfold bind, emit;
                          apply (recursive_url_scrap_visited fuel w base_url db_name x
                                   (depth - 1)
                                   (add_event (Recurse current_url depth L x (depth - 1))
                                      st'))) st3).
  destruct (for_each _ _ st3) as [[[]|ex|] st4]; cbn [snd] in *;
    [set_solver|apply Hcaught; set_solver|set_solver].
Qed.
End Order.


(** X12. A call with depth 1 marks and requests no page but its own: it
    requests the start page at most once and, given any fuel, leaves the
    start url marked; the calls it makes for the links get depth 0 and do
    nothing. With fuel for two levels it returns. *)
Theorem depth_one_requests_only_the_start_page (fuel : nat) (w : World)
    (base_url current_url db_name : str) (st : State) :
  let r := recursive_url_scrap fuel w base_url current_url db_name 1 st in
  exists new,
    log r.2 = new ++ log st
    /\ (visits new = [] \/ visits new = [current_url])
    /\ (fetched new = [] \/ fetched new = [current_url])
    /\ (fuel <> O -> current_url ∈ visited r.2)
    /\ ((1 < fuel)%nat -> r.1 <> OutOfFuel).
Proof.
  intros r.
  destruct (recursive_url_scrap_describes fuel w base_url db_name false ltac:(done)
              current_url 1 st) as (new & Hlog & _ & _ & Hshape & _).
  fold r in Hlog, Hshape.
  exists new. split; [done|].
  assert ((visits new = [] \/ visits new = [current_url])
          /\ (fetched new = [] \/ fetched new = [current_url])) as [? ?].
  { inversion Hshape as [|? ? ? gl hnd ? _ _ Hgl Hhnd
                         |? ? ? gl L lp hnd okl ? _ _ Hgl Hlp Hhnd _| |]; subst.
    - by auto.
    - rewrite visits_frame_fail by done. split; [by right|].
      rewrite !fetched_app, (fetched_handler_log _ _ _ Hhnd).
      change (fetched [Visit current_url 1]) with (@nil str). rewrite app_nil_r.
      exact (fetched_page_log _ _ Hgl).
    - destruct (shape_last_level _ _ _ _ _ Hlp eq_refl) as [Hv Hf].
      rewrite visits_frame by done. rewrite Hv. split; [by right|].
      rewrite !fetched_app, (fetched_handler_log _ _ _ Hhnd), Hf.
      change (fetched (Committed db_name L :: gl ++ [Visit current_url 1]))
        with (fetched (gl ++ [Visit current_url 1])).
      rewrite fetched_app. change (fetched [Visit current_url 1]) with (@nil str).
      rewrite app_nil_r. exact (fetched_page_log _ _ Hgl). }
  split; [done|]. split; [done|]. split.
  - intros Hfuel. destruct fuel as [|fuel']; [done|].
    by apply recursive_url_scrap_marks.
  - intros Hfuel. apply recursive_url_scrap_returns; [lia|].
    change (Z.to_nat 1) with 1%nat. lia.
Qed.

Section Escapes.
Implicit Types (e : exn).

(** What [get_links_from_page] raises is an [Exception] of the program or
    of the library, or comes from outside. *)
Lemma get_links_from_page_raised w url base_url st e st' :
  get_links_from_page w url base_url st = (Raised e, st') ->
  is_Exception e = true \/ raised_by_world w e.
Proof.
  unfold get_links_from_page, bind.
  destruct (get_page w url st) as [[html|e'|] st1] eqn:Hpage; [| |done].
  - destruct html as [|c html]; [done|].
    destruct (feed w (c :: html) WikiParser_init) as [[e'|] parser] eqn:Hfeed.
    + intros [= -> _].
      destruct (feed_raises w (c :: html) WikiParser_init e) as [(-> & _)|[_ Htok]];
        [by rewrite Hfeed|by left|].
      right. do 3 right. left. by eexists.
    + unfold lift. destruct (resolve_all _ _ _); [done|]. intros [= <- _]. by left.
  - intros [= -> ->].
    apply get_page_raised_by in Hpage as [->|[->|?]]; [by left|by left|by right].
Qed.

Lemma for_each_raised {A} (body : A -> M unit) (ls : list A) (P : exn -> Prop) :
  (forall x st e, (body x st).1 = Raised e -> P e) ->
  forall st e, (for_each ls body st).1 = Raised e -> P e.
Proof.
  intros Hbody. induction ls as [|x ls IH]; intros st e; cbn [for_each]; [done|].
  unfold bind. pose proof (Hbody x st) as Hx.
  destruct (body x st) as [[[]|e'|] st1]; cbn [fst] in *; [apply IH| |done].
  intros [= <-]. by apply Hx.
Qed.

(** An exception that leaves a traversal comes from outside. *)
Lemma recursive_url_scrap_raised fuel w base_url db_name :
  forall current_url depth st e,
    (recursive_url_scrap fuel w base_url current_url db_name depth st).1 = Raised e ->
    raised_by_world w e.
Proof.
  induction fuel as [|fuel IH]; intros cur depth st e; [done|].
  rewrite recursive_url_scrap_unfold.
  destruct ((depth =? 0) || bool_decide (cur ∈ visited st)); [done|]. cbv zeta.
  assert (forall e' st', raised_by_world w e' \/ is_Exception e' = true ->
            (dispatch [(is_Exception, fun e0 => print w (MsgFrame cur depth e0))]
               e' st').1 = Raised e -> raised_by_world w e) as Hcaught.
  { intros e' st' He'. rewrite dispatch_Exception.
    destruct (is_Exception e') eqn:Hexn.
    - unfold print. destruct (stdout_fault w (log st') _) eqn:Hf; [|done].
      intros [= <-]. do 4 right. by eexists _, _.
    - intros [= <-]. by destruct He' as [?|?]. }
  destruct (get_links_from_page w cur base_url _) as [[L|e'|] st2] eqn:Hgl; [| |done].
  - destruct (save_to_db w db_name L st2) as [[[]|e'|] st3] eqn:Hsave; [| |done].
    + match goal with
      | |- context [for_each ?ls ?body st3] =>
          pose proof (for_each_raised body ls (raised_by_world w)) as Hloop
      end.
      specialize (Hloop ltac:(intros x st' e0; unfold bind, emit; apply IH) st3).
      destruct (for_each _ _ st3) as [[[]|e'|] st4]; [done| |done].
      apply Hcaught. left. by apply Hloop.
    + apply Hcaught. left. right. right. left.
      apply save_to_db_raises in Hsave as [stmt ?]. by exists (log st2), stmt.
  - apply Hcaught. apply get_links_from_page_raised in Hgl. tauto.
Qed.
End Escapes.

(** X13. An exception that leaves [recursive_url_scrap] is one that
    [asyncio.sleep], [urlopen], a SQLite statement, the tokenizer of the
    parser or [print] raised: the errors of the program's own code and of
    the decoding and joining it calls never leave a traversal. It is not an
    instance of [Exception], unless the [print] of the handler of the
    call's own frame raised it; so where no [print] of a handler raises, no
    [Exception] leaves. *)
Theorem escaping_exception_comes_from_outside (fuel : nat) (w : World)
    (base_url current_url db_name : str) (depth : Z) (st : State) (e : exn) :
  (recursive_url_scrap fuel w base_url current_url db_name depth st).1 = Raised e ->
  ((exists h, asyncio_sleep w h = Some e)
   \/ (exists h q, urlopen w h q = inl e)
   \/ (exists h stmt, sqlite3_fault w h stmt = Some e)
   \/ (exists html, tokenizer_fault w html = Some e)
   \/ (exists h m, stdout_fault w h m = Some e))
  /\ (is_Exception e = false
      \/ exists e0 h,
           is_Exception e0 = true
           /\ stdout_fault w h (MsgFrame current_url depth e0) = Some e
           /\ log (recursive_url_scrap fuel w base_url current_url db_name depth st).2
              = Print (MsgFrame current_url depth e0) :: h)
  /\ (frames_print w -> is_Exception e = false).
Proof.
  intros Hr. split; [by apply recursive_url_scrap_raised in Hr|].
  split; [by apply recursive_url_scrap_raises|].
  intros Hp.
  destruct (recursive_url_scrap_describes fuel w base_url db_name true (fun _ => Hp)
              current_url depth st) as (new & _ & _ & _ & _ & Hexn).
  by apply Hexn.
Qed.

Lemma escaping_exception_comes_from_outside_witness :
  (recursive_url_scrap 7 Sample.cancelled Sample.base Sample.seed url_storage 6
     Sample.start).1 = Raised CancelledError
  /\ exists h, asyncio_sleep Sample.cancelled h = Some CancelledError.
Proof.
  assert ((recursive_url_scrap 7 Sample.cancelled Sample.base Sample.seed url_storage 6
             Sample.start).1 = Raised CancelledError) as Hr by reflexivity.
  split; [exact Hr|].
  destruct (proj1 (escaping_exception_comes_from_outside _ _ _ _ _ _ _ _ Hr))
    as [Hs|[(h & q & [=])|[(h & stmt & [=])|[(html & [=])|(h & m & [=])]]]].
  exact Hs.
Defined.

Section Commits.
Variables (w : World) (base_url db_name : str) (P : gset str -> Prop).
Hypothesis links_P :
  forall url st L st', get_links_from_page w url base_url st = (Ok L, st') -> P L.

Local Abbreviation follows := (follows db_name P).

Lemma follows_refl st : follows st st.
Proof. exists []. by split; [|split; [apply Forall_nil_2|]]. Qed.

Lemma follows_trans st1 st2 st3 : follows st1 st2 -> follows st2 st3 -> follows st1 st3.
Proof.
  intros (n1 & Hl1 & HF1 & Hf1) (n2 & Hl2 & HF2 & Hf2). exists (n2 ++ n1).
  split; [by rewrite Hl2, Hl1, app_assoc|]. split; [by apply Forall_app|].
  intros n Hn. by rewrite Hf2, Hf1.
Qed.

Lemma follows_event ev st :
  (forall n L, ev = Committed n L -> n = db_name /\ P L) -> follows st (add_event ev st).
Proof.
  intros Hev. exists [ev]. split; [done|]. split; [by apply Forall_singleton|done].
Qed.

Lemma follows_get_links url st (o : Outcome (gset str)) st' :
  get_links_from_page w url base_url st = (o, st') -> follows st st'.
Proof.
  intros (_ & Hf & gl & Hlog & Hgl)%get_links_from_page_effect.
  exists gl. split; [done|]. split; [|by rewrite Hf].
  eapply Forall_impl; [exact (page_log_events _ _ Hgl)|].
  by intros ev [[q ->]|[m ->]] n L.
Qed.

Lemma follows_save L st o st' :
  P L -> save_to_db w db_name L st = (o, st') -> follows st st'.
Proof.
  intros HL Hsave.
  pose proof (save_to_db_effect _ _ _ _ _ _ Hsave) as (_ & new & Hlog & Hnew & _).
  exists new. split; [done|]. split.
  - destruct Hnew as [[_ ->]|[_ ->]]; [|apply Forall_nil_2].
    apply Forall_singleton. by intros n L' [= <- <-].
  - intros n Hn. by apply (save_to_db_other_files _ _ _ _ _ _ _ Hsave).
Qed.

Lemma follows_for_each {A} (body : A -> M unit) (ls : list A) :
  (forall x st, follows st (body x st).2) ->
  forall st, follows st (for_each ls body st).2.
Proof.
  intros Hbody. induction ls as [|x ls IH]; intros st; cbn [for_each];
    [apply follows_refl|].
  unfold bind. pose proof (Hbody x st) as Hx.
  destruct (body x st) as [[[]|e|] st1]; cbn [snd] in *; [|done..].
  eapply follows_trans; [exact Hx|apply IH].
Qed.

Lemma follows_recursive_url_scrap fuel :
  forall current_url depth st,
    follows st (recursive_url_scrap fuel w base_url current_url db_name depth st).2.
Proof.
  induction fuel as [|fuel IH]; intros cur depth st; [apply follows_refl|].
  rewrite recursive_url_scrap_unfold.
  destruct ((depth =? 0) || bool_decide (cur ∈ visited st)); [apply follows_refl|].
  cbv zeta.
  set (st1 := add_event (Visit cur depth) (set_visited ({[cur]} ∪ visited st) st)).
  assert (follows st st1) as H1.
  { exists [Visit cur depth]. split; [done|]. split; [by apply Forall_singleton|done]. }
  assert (forall e st', follows st st' ->
            follows st (dispatch [(is_Exception, fun e0 => print w (MsgFrame cur depth e0))]
                          e st').2) as Hcaught.
  { intros e st' Hst'. rewrite dispatch_Exception.
    destruct (is_Exception e); [|done].
    destruct (print_effect w (MsgFrame cur depth e) st') as (-> & _).
    eapply follows_trans; [exact Hst'|]. by apply follows_event. }
  destruct (get_links_from_page w cur base_url st1) as [[L|e|] st2] eqn:Hgl;
    pose proof (follows_trans _ _ _ H1 (follows_get_links _ _ _ _ Hgl)) as H2;
    [|by apply Hcaught|done].
  pose proof (links_P _ _ _ _ Hgl) as HL.
  destruct (save_to_db w db_name L st2) as [o3 st3] eqn:Hsave.
  pose proof (follows_trans _ _ _ H2 (follows_save _ _ _ _ HL Hsave)) as H3.
  destruct o3 as [[]|e|]; [|by apply Hcaught|done].
  match goal with
  | |- context [for_each ?ls ?body st3] =>
      pose proof (follows_for_each body ls) as Hloop
  end.
  specialize (Hloop ltac:(intros x st'; unfold bind, emit;
                          eapply follows_trans; [|apply IH];
                          by apply follows_event) st3).
  pose proof (follows_trans _ _ _ H3 Hloop) as H4.
  destruct (for_each _ _ st3) as [[[]|e|] st4]; cbn [snd] in *;
    [done|by apply Hcaught|done].
Qed.
End Commits.

(** X14. Every set that a traversal commits is committed to [db_name]
    and is the link set that [get_links_from_page] returned for some page,
    with the base of the traversal; the other files are not changed. *)
Theorem traversal_commits_only_page_links (fuel : nat) (w : World)
    (base_url current_url db_name : str) (depth : Z) (st : State) :
  let r := recursive_url_scrap fuel w base_url current_url db_name depth st in
  exists new,
    log r.2 = new ++ log st
    /\ (forall n L,
          Committed n L ∈ new ->
          n = db_name
          /\ exists url st1 st2,
               get_links_from_page w url base_url st1 = (Ok L, st2))
    /\ (forall n, n <> db_name -> files r.2 !! n = files st !! n).
Proof.
  intros r.
  destruct (follows_recursive_url_scrap w base_url db_name
              (fun L => exists url st1 st2,
                          get_links_from_page w url base_url st1 = (Ok L, st2))
              ltac:(intros url st0 L st' H; by exists url, st0, st')
              fuel current_url depth st) as (new & Hlog & Hall & Hf).
  exists new. split; [done|]. split; [|done].
  intros n L Hin. rewrite Forall_forall in Hall. by apply (Hall _ Hin).
Qed.

(** X15. The depth counts down to 0 only from a depth that is not
    negative: a call with a negative depth is never stopped by the depth.
    Given fuel, it marks its url, and every frame and every recursive call
    below it has a depth at most that of the call, so a negative one. *)
Theorem negative_depth_is_no_bound (fuel : nat) (w : World)
    (base_url current_url db_name : str) (depth : Z) (st : State) :
  depth < 0 ->
  let r := recursive_url_scrap fuel w base_url current_url db_name depth st in
  exists new,
    log r.2 = new ++ log st
    /\ (forall u d, Visit u d ∈ new -> d <= depth)
    /\ (forall u d L v d', Recurse u d L v d' ∈ new -> d' = d - 1 /\ d' < depth)
    /\ (fuel <> O -> current_url ∈ visited r.2)
    /\ (fuel <> O -> current_url ∉ visited st -> Visit current_url depth ∈ new).
Proof.
  intros Hneg r.
  destruct (recursive_url_scrap_describes fuel w base_url db_name false ltac:(done)
              current_url depth st) as (new & Hlog & Hvis & _ & Hshape & _).
  fold r in Hlog, Hvis, Hshape.
  pose proof (shape_depths_negative _ _ _ _ _ Hshape depth Hneg ltac:(cbn; lia)) as Hall.
  rewrite Forall_forall in Hall.
  assert (fuel <> O -> current_url ∈ visited r.2) as Hmark.
  { intros Hfuel. destruct fuel as [|fuel']; [done|].
    apply recursive_url_scrap_marks. lia. }
  exists new. split; [done|]. split; [|split; [|split; [done|]]].
  - intros u d Hin. exact (Hall _ Hin).
  - intros u d L v d' Hin. destruct (Hall _ Hin) as [-> ?]. split; [done|lia].
  - intros Hfuel Hfresh. specialize (Hmark Hfuel).
    rewrite Hvis, elem_of_union, elem_of_list_to_set in Hmark.
    destruct Hmark as [Hin|?]; [|done].
    inversion Hshape as [|? ? ? gl hnd ? _ _ Hgl Hhnd
                         |? ? ? gl L lp hnd okl ? _ _ Hgl Hlp Hhnd _| |]; subst.
    + by apply elem_of_nil in Hin.
    + rewrite !elem_of_app. right. right. by left.
    + rewrite !elem_of_app. right. right. right. apply elem_of_app. right. by left.
Qed.

Lemma negative_depth_is_no_bound_witness :
  -1 < 0
  /\ exists new,
       log (recursive_url_scrap 1 Sample.not_found Sample.base Sample.seed url_storage
              (-1) Sample.start).2 = new ++ log Sample.start
       /\ (forall u d, Visit u d ∈ new -> d <= -1).
Proof.
  split; [lia|].
  destruct (negative_depth_is_no_bound 1 Sample.not_found Sample.base Sample.seed
              url_storage (-1) Sample.start ltac:(lia)) as (new & Hlog & Hv & _).
  exists new. exact (conj Hlog Hv).
Defined.

Section Closure.
Implicit Types (k : kind) (V L : gset str) (l lp new : list Event).








End Closure.


(** ** [main]: the seed, the base and the exit status *)

Section Seed.
Implicit Types (s t r n seed : str) (c x : N).

(** A seed that matches the pattern is "http://" or "https://" followed
    by a character that is neither white space nor one of "/$.?#", and by
    at least one more character. *)
Lemma match_seed_inv seed :
  Re.match_seed seed = true ->
  exists s c1 c2 t,
    (s = py "http" \/ s = py "https")
    /\ seed = s ++ py "://" ++ c1 :: c2 :: t
    /\ isspace c1 = false /\ one_of (py "/$.?#") c1 = false.
Proof.
  unfold Re.match_seed. intros [[r0 ->]%startswith_inv H]%andb_true_iff.
  change (drop 4 (py "http" ++ r0)) with r0 in H.
  assert (forall s r, (s = py "http" \/ s = py "https") ->
            startswith (py "://") r
            && match drop 3 r with
               | c1 :: c2 :: t =>
                   negb (isspace c1 || one_of (py "/$.?#") c1) && negb (c2 =? 10)%N
                   && Re.tail_ok t
               | _ => false
               end = true ->
            exists s' c1 c2 t,
              (s' = py "http" \/ s' = py "https")
              /\ s ++ r = s' ++ py "://" ++ c1 :: c2 :: t
              /\ isspace c1 = false /\ one_of (py "/$.?#") c1 = false) as Hrest.
  { intros s r Hs [[r1 ->]%startswith_inv Hr]%andb_true_iff.
    change (drop 3 (py "://" ++ r1)) with r1 in Hr.
    destruct r1 as [|c1 [|c2 t]]; [done..|].
    apply andb_true_iff in Hr as [[Hc1 _]%andb_true_iff _].
    apply negb_true_iff, orb_false_iff in Hc1 as [? ?].
    by exists s, c1, c2, t. }
  destruct r0 as [|c r0]; [done|].
  destruct (c =? chr "s")%N eqn:Hc.
  - apply N.eqb_eq in Hc as ->.
    destruct (Hrest (py "https") r0) as (s' & c1 & c2 & t & ? & ? & ? & ?); [by right|done|].
    by exists s', c1, c2, t.
  - destruct (Hrest (py "http") (c :: r0)) as (s' & c1 & c2 & t & ? & ? & ? & ?);
      [by left|done|].
    by exists s', c1, c2, t.
Qed.

Lemma isspace_unsafe c : isspace c = false -> one_of _UNSAFE_URL_BYTES_TO_REMOVE c = false.
Proof.
  intros Hc. destruct (one_of _ c) eqn:Hu; [|done].
  apply has_elem in Hu. unfold _UNSAFE_URL_BYTES_TO_REMOVE in Hu.
  repeat (apply elem_of_cons in Hu as [->|Hu]; [done|]). by apply elem_of_nil in Hu.
Qed.

(** What [urlsplit] reads in an accepted seed. *)
Lemma urlsplit_seed (chk nf : str -> bool) s c1 rest res :
  s = py "http" \/ s = py "https" ->
  isspace c1 = false -> one_of (py "/$.?#") c1 = false ->
  urlsplit chk nf (s ++ py "://" ++ c1 :: rest) [] = Some res ->
  sr_scheme res = s
  /\ sr_netloc res = c1 :: (_splitnetloc (_remove_unsafe rest)).1
  /\ _brackets_ok chk (sr_netloc res) = true
  /\ _checknetloc nf (sr_netloc res) = true.
Proof.
  intros Hs Hsp Hdel.
  pose proof (isspace_unsafe _ Hsp) as Hun.
  assert (one_of (py "/?#") c1 = false) as Hdel'.
  { unfold one_of, has in *. change (py "/$.?#") with [47; 36; 46; 63; 35]%N in Hdel.
    change (py "/?#") with [47; 63; 35]%N. cbn [existsb] in *.
    rewrite !orb_false_iff in Hdel. destruct Hdel as (-> & _ & _ & -> & -> & _). done. }
  assert (urlsplit chk nf (s ++ py "://" ++ c1 :: rest) []
          = match _split_netloc chk (py "//" ++ c1 :: _remove_unsafe rest) with
            | None => None
            | Some (netloc, url) =>
                let '(url, fragment) := _split_off (chr "#") url in
                let '(url, query) := _split_off (chr "?") url in
                if _checknetloc nf netloc
                then Some {| sr_scheme := s; sr_netloc := netloc; sr_path := url;
                             sr_query := query; sr_fragment := fragment |}
                else None
            end) as ->.
  { unfold urlsplit. destruct Hs as [-> | ->].
    - change (py "http" ++ py "://" ++ c1 :: rest)
        with (104 :: 116 :: 116 :: 112 :: chr ":" :: chr "/" :: chr "/" :: c1 :: rest)%N.
      rewrite lstrip_keep by reflexivity.
      rewrite !remove_unsafe_cons by (reflexivity || done).
      change (104 :: 116 :: 116 :: 112 :: chr ":" :: ?x)%N with (py "http" ++ chr ":" :: x).
      by rewrite split_scheme_http.
    - change (py "https" ++ py "://" ++ c1 :: rest)
        with (104 :: 116 :: 116 :: 112 :: 115 :: chr ":" :: chr "/" :: chr "/"
                  :: c1 :: rest)%N.
      rewrite lstrip_keep by reflexivity.
      rewrite !remove_unsafe_cons by (reflexivity || done).
      change (104 :: 116 :: 116 :: 112 :: 115 :: chr ":" :: ?x)%N
        with (py "https" ++ chr ":" :: x).
      by rewrite split_scheme_https. }
  unfold _split_netloc.
  change (startswith (py "//") (py "//" ++ c1 :: _remove_unsafe rest)) with true.
  cbv iota. change (drop 2 (py "//" ++ c1 :: _remove_unsafe rest))
    with (c1 :: _remove_unsafe rest).
  rewrite splitnetloc_cons, Hdel'.
  destruct (_brackets_ok chk _) eqn:Hbr; [|done].
  destruct (_split_off (chr "#") _) as [u f].
  destruct (_split_off (chr "?") u) as [a q].
  destruct (_checknetloc nf _) eqn:Hck; [|done].
  intros [= <-]. done.
Qed.

Lemma seed_origin w seed p :
  Re.match_seed seed = true ->
  urlparse (check_bracketed_netloc w) (nfkc_ok w) seed [] = Some p ->
  http_origin w (scheme p) (netloc p) = true
  /\ origin_of w seed = Some (scheme p, netloc p).
Proof.
  intros (s & c1 & c2 & t & Hs & -> & Hsp & Hdel)%match_seed_inv.
  unfold urlparse, origin_of.
  destruct (urlsplit _ _ _ []) as [res|] eqn:Hsplit; [|done].
  destruct (urlsplit_seed _ _ _ _ _ _ Hs Hsp Hdel Hsplit) as (Hsch & Hnet & Hbr & Hck).
  destruct (if mem (sr_scheme res) uses_params && has (chr ";") (sr_path res)
            then _splitparams (sr_path res) else (sr_path res, [])) as [u prm].
  intros [= <-]. cbn [scheme netloc]. split; [|done].
  unfold http_origin, netloc_accepted. rewrite Hbr, Hck, Hsch, Hnet.
  assert (str_eqb s (py "http") || str_eqb s (py "https") = true) as ->
    by (by destruct Hs as [-> | ->]).
  cbn [str_eqb negb andb forallb].
  rewrite forallb_none_of_app; [|apply splitnetloc_fst_delims
                                |apply splitnetloc_fst_forall, remove_unsafe_forall].
  rewrite !andb_true_r.
  apply negb_true_iff. rewrite one_of_app. apply orb_false_iff. split.
  - unfold one_of, has in *. change (py "/$.?#") with [47; 36; 46; 63; 35]%N in Hdel.
    change (py "/?#") with [47; 63; 35]%N. cbn [existsb] in *.
    rewrite !orb_false_iff in Hdel. destruct Hdel as (-> & _ & _ & -> & -> & _). done.
  - by apply isspace_unsafe.
Qed.
End Seed.

(** X17. For a seed that matches the pattern of [main] and that
    [urlparse] accepts, the scheme that [main] reads is "http" or "https"
    and the netloc is not empty and holds no "/", "?", "#", tab, CR or LF:
    the base that [main] builds is an origin of the kind that the Resolver
    keeps, and it is the origin of the seed. *)
Theorem accepted_seed_gives_an_http_origin (w : World) (seed : str) (p : ParseResult) :
  Re.match_seed seed = true ->
  urlparse (check_bracketed_netloc w) (nfkc_ok w) seed [] = Some p ->
  (scheme p = py "http" \/ scheme p = py "https")
  /\ netloc p <> []
  /\ forallb (fun c => negb (one_of (py "/?#" ++ _UNSAFE_URL_BYTES_TO_REMOVE) c))
       (netloc p) = true
  /\ http_origin w (scheme p) (netloc p) = true
  /\ origin_of w seed = Some (scheme p, netloc p)
  /\ origin_of w (scheme p ++ py "://" ++ netloc p) = Some (scheme p, netloc p).
Proof.
  intros Hseed Hparse. destruct (seed_origin w seed p Hseed Hparse) as [Ho Hseed_o].
  pose proof (http_origin_inv _ _ _ Ho) as (? & ? & ? & _).
  repeat (split; [done|]). by apply origin_of_origin.
Qed.

Lemma accepted_seed_gives_an_http_origin_witness :
  Re.match_seed Sample.seed = true
  /\ http_origin Sample.calm (py "https") (py "en.wikipedia.org") = true.
Proof.
  split; [reflexivity|].
  exact (proj1 (proj2 (proj2 (proj2
           (accepted_seed_gives_an_http_origin Sample.calm Sample.seed
              {| scheme := py "https"; netloc := py "en.wikipedia.org";
                 path := py "/wiki/Start"; params := []; query := [];
                 fragment := [] |} eq_refl eq_refl))))).
Defined.

Section Run.
Implicit Types (argv : list str) (p : ParseResult) (l new : list Event).

Lemma reset_store_ok w st :
  (forall stmt, sqlite3_fault w (log st) stmt = None) ->
  reset_store w url_storage st
  = (Ok tt, add_event (Dropped url_storage)
              (set_file url_storage (drop_table (database st url_storage)) st)).
Proof.
  intros Hfault. unfold reset_store, kept, opened. cbn zeta.
  change (private url_storage) with false. by rewrite !execute_ok.
Qed.

(** A reset that raises has logged nothing and marked nothing. *)
Lemma reset_store_raised w db_name st e st1 :
  reset_store w db_name st = (Raised e, st1) ->
  log st1 = log st /\ visited st1 = visited st
  /\ (forall n, n <> db_name -> files st1 !! n = files st !! n)
  /\ exists stmt, sqlite3_fault w (log st) stmt = Some e.
Proof.
  unfold reset_store. cbn zeta.
  assert (forall stmt d e', execute w (log st) stmt d = inl e' ->
            (forall url, stmt <> InsertOrIgnore url) ->
            exists stmt', sqlite3_fault w (log st) stmt' = Some e') as Hex.
  { intros stmt d e' H Hs. unfold execute in H.
    destruct (sqlite3_fault w (log st) stmt) eqn:Hf; [injection H as ->; eauto|].
    destruct stmt; try done. by destruct (Hs url). }
  destruct (execute w (log st) Connect _) as [e0|d0] eqn:H0.
  { intros [= -> <-]. repeat (split; [done|]). by eapply Hex. }
  destruct (execute w (log st) DropTable d0) as [e1|d1] eqn:H1.
  { intros [= -> <-]. repeat (split; [done|]). by eapply Hex. }
  destruct (execute w (log st) Commit d1) as [e2|d2] eqn:H2; [|done].
  intros [= -> <-]. split; [apply log_kept|]. split; [apply visited_kept|].
  split; [|by eapply Hex]. intros n Hn. by apply files_kept_ne.
Qed.

(** [main] on a valid seed, once the store is reset: the traversal from
    depth 6 with a fresh visited set, then [shutdown]. *)
Lemma main_crawls fuel w argv st p st1 :
  Re.match_seed (List.nth 1 argv []) = true ->
  urlparse (check_bracketed_netloc w) (nfkc_ok w) (List.nth 1 argv []) [] = Some p ->
  reset_store w url_storage st = (Ok tt, st1) ->
  main fuel w argv st
  = let r := recursive_url_scrap fuel w (scheme p ++ py "://" ++ netloc p)
               (List.nth 1 argv []) url_storage 6 (set_visited ∅ st1) in
    match r.1 with
    | OutOfFuel => (OutOfFuel, r.2)
    | o => (o, add_event Shutdown r.2)
    end.
Proof.
  intros Hseed Hparse Hreset. cbv zeta.
  unfold main, try_finally. rewrite (match_seed_argv _ Hseed), Hseed. cbn [negb].
  unfold bind at 1. unfold lift. rewrite Hparse. cbn [ret].
  unfold bind at 1. rewrite Hreset.
  by destruct (recursive_url_scrap _ _ _ _ _ _ _) as [[[]|e|] st'].
Qed.

Lemma committed_inv n l x :
  x ∈ committed n l -> exists L, Committed n L ∈ l /\ x ∈ L.
Proof.
  induction l as [|ev l IH]; [by rewrite committed_nil; set_solver|].
  destruct ev as [| | |n' L'| | |];
    try (change (committed n (_ :: l)) with (committed n l);
         intros (L & ? & ?)%IH; exists L; split; [by right|done]).
  rewrite committed_cons_commit. case_decide as Hn.
  - subst n'. intros [?|(L & ? & ?)%IH]%elem_of_union.
    + exists L'. split; [by left|done].
    + exists L. split; [by right|done].
  - intros [?|(L & ? & ?)%IH]%elem_of_union; [set_solver|].
    exists L. split; [by right|done].
Qed.

(** A traversal neither shuts the loop down nor drops a table. *)
Lemma shape_no_setup db k V l ok :
  shape db k V l ok -> Forall (fun ev => ev <> Shutdown /\ forall n, ev <> Dropped n) l.
Proof.
  assert (forall u gl, page_log u gl ->
            Forall (fun ev => ev <> Shutdown /\ forall n, ev <> Dropped n) gl) as Hpage.
  { intros u gl Hgl. eapply Forall_impl; [exact (page_log_events _ _ Hgl)|].
    by intros ev [[q ->]|[m ->]]. }
  assert (forall u d hnd, handler_log u d hnd ->
            Forall (fun ev => ev <> Shutdown /\ forall n, ev <> Dropped n) hnd) as Hhandler.
  { intros u d hnd Hhnd. eapply Forall_impl; [exact (handler_log_events _ _ _ Hhnd)|].
    by intros ev [m ->]. }
  induction 1 as [u d V ok|u d V gl hnd ok Hd Hu Hgl Hhnd
                 |u d V gl L lp hnd okl ok Hd Hu Hgl Hlp IH Hhnd Hok
                 |u d L V ok|u d L V lp v c okl okc ok Hv Hlp IH Hc IHc Hok].
  - constructor.
  - apply Forall_app. split; [by apply (Hhandler u d)|].
    apply Forall_app. split; [by apply (Hpage u)|]. by apply Forall_singleton.
  - apply Forall_app. split; [by apply (Hhandler u d)|].
    apply Forall_app. split; [done|]. apply Forall_cons_2; [done|].
    apply Forall_app. split; [by apply (Hpage u)|]. by apply Forall_singleton.
  - constructor.
  - apply Forall_app. split; [done|]. by apply Forall_cons_2.
Qed.
End Run.

(** X18. After a run on a valid seed, with a reset that SQLite lets
    through, every url in the store has the scheme and the netloc of the
    seed and is the base followed by a path that begins with "/". *)
Theorem run_stores_only_urls_of_the_seed_origin (fuel : nat) (w : World)
    (argv : list str) (st : State) (p : ParseResult) :
  Re.match_seed (List.nth 1 argv []) = true ->
  urlparse (check_bracketed_netloc w) (nfkc_ok w) (List.nth 1 argv []) [] = Some p ->
  (forall stmt, sqlite3_fault w (log st) stmt = None) ->
  forall x,
    x ∈ stored (run fuel w argv st).2 url_storage ->
    origin_of w x = origin_of w (List.nth 1 argv [])
    /\ origin_of w x = Some (scheme p, netloc p)
    /\ exists rest, x = scheme p ++ py "://" ++ netloc p ++ chr "/" :: rest.
Proof.
  intros Hseed Hparse Hfault x.
  destruct (seed_origin w _ p Hseed Hparse) as [Ho Hso].
  pose proof (reset_store_ok w st Hfault) as Hreset.
  set (st1 := add_event (Dropped url_storage)
                (set_file url_storage (drop_table (database st url_storage)) st)) in *.
  set (base := scheme p ++ py "://" ++ netloc p).
  set (r := recursive_url_scrap fuel w base (List.nth 1 argv []) url_storage 6
              (set_visited ∅ st1)).
  assert (stored (run fuel w argv st).2 url_storage = stored r.2 url_storage) as ->.
  { unfold run. rewrite (main_crawls _ _ _ _ _ _ Hseed Hparse Hreset). cbv zeta.
    fold base. fold r. by destruct r.1 as [[]|e|]. }
  destruct (recursive_url_scrap_describes fuel w base url_storage false ltac:(done)
              (List.nth 1 argv []) 6 (set_visited ∅ st1)) as (new & Hlog & _ & Hsto & _).
  fold r in Hlog, Hsto.
  destruct (follows_recursive_url_scrap w base url_storage
              (fun L => forall y, y ∈ L ->
                          origin_of w y = Some (scheme p, netloc p)
                          /\ exists rest, y = base ++ chr "/" :: rest)
              ltac:(intros url st0 L st' HL y Hy;
                    destruct (get_links_from_page_elem _ _ _ _ _ _ _ HL Hy)
                      as (link & [Hw _]%andb_true_iff & Hres);
                    destruct (resolve_article w _ _ link Ho Hw) as (rest & Hres' & Hor);
                    fold base in Hres'; rewrite Hres' in Hres; injection Hres as <-;
                    split; [exact Hor|];
                    exists rest; unfold base; by rewrite <- !app_assoc)
              fuel (List.nth 1 argv []) 6 (set_visited ∅ st1))
    as (new' & Hlog' & Hall & _). fold r in Hlog'.
  assert (new' = new) as -> by (rewrite Hlog in Hlog'; by apply app_inv_tail in Hlog').
  rewrite Hsto, persisted_public by done.
  assert (stored (set_visited ∅ st1) url_storage = ∅) as ->.
  { change (stored (set_visited ∅ st1) url_storage) with (stored st1 url_storage).
    unfold st1. by rewrite stored_add_event, stored_set_file, decide_True. }
  intros [(L & Hin & Hx)%committed_inv|?]%elem_of_union; [|set_solver].
  rewrite Forall_forall in Hall.
  destruct (Hall _ Hin url_storage L eq_refl) as [_ HL].
  destruct (HL x Hx) as [Hox (rest & ->)].
  split; [by rewrite Hso|]. split; [done|].
  exists rest. unfold base. by rewrite <- !app_assoc.
Qed.

Lemma run_stores_only_urls_of_the_seed_origin_witness :
  Re.match_seed (List.nth 1 [py "main.py"; Sample.seed] []) = true
  /\ Sample.A ∈ stored (run 7 Sample.calm [py "main.py"; Sample.seed] Sample.used).2
                  url_storage
  /\ origin_of Sample.calm Sample.A = Some (py "https", py "en.wikipedia.org").
Proof.
  assert (Sample.A ∈ stored (run 7 Sample.calm [py "main.py"; Sample.seed] Sample.used).2
                       url_storage) as Hin.
  { vm_compute. reflexivity. }
  split; [reflexivity|]. split; [exact Hin|].
  exact (proj1 (proj2
           (run_stores_only_urls_of_the_seed_origin 7 Sample.calm
              [py "main.py"; Sample.seed] Sample.used
              {| scheme := py "https"; netloc := py "en.wikipedia.org";
                 path := py "/wiki/Start"; params := []; query := [];
                 fragment := [] |} eq_refl eq_refl (fun _ => eq_refl) Sample.A Hin))).
Defined.



(** X20. A seed can match the pattern and still be refused by
    [urlparse]: the run then ends with status 1 after [shutdown], having
    printed nothing and left the store as it was. When it is the reset of
    the store that raises, [main] raises the same exception after
    [shutdown]; nothing was requested or printed, and only the file of
    the store can have changed. *)
Theorem run_stops_before_crawling_when_setup_fails (fuel : nat) (w : World)
    (argv : list str) (st : State) :
  Re.match_seed (List.nth 1 argv []) = true ->
  (urlparse (check_bracketed_netloc w) (nfkc_ok w) (List.nth 1 argv []) [] = None ->
   run fuel w argv st = (Some 1, add_event Shutdown st))
  /\ (forall p e st1,
        urlparse (check_bracketed_netloc w) (nfkc_ok w) (List.nth 1 argv []) [] = Some p ->
        reset_store w url_storage st = (Raised e, st1) ->
        main fuel w argv st = (Raised e, add_event Shutdown st1)
        /\ log st1 = log st /\ visited st1 = visited st
        /\ (forall n, n <> url_storage -> files st1 !! n = files st !! n)
        /\ exists stmt, sqlite3_fault w (log st) stmt = Some e).
Proof.
  intros Hseed. split.
  - intros Hparse. unfold run, main, try_finally.
    rewrite (match_seed_argv _ Hseed), Hseed. cbn [negb].
    unfold bind at 1. unfold lift. by rewrite Hparse.
  - intros p e st1 Hparse Hreset. split; [|by apply reset_store_raised in Hreset].
    unfold main, try_finally. rewrite (match_seed_argv _ Hseed), Hseed. cbn [negb].
    unfold bind at 1. unfold lift. rewrite Hparse. cbn [ret].
    unfold bind at 1. by rewrite Hreset.
Qed.

Lemma run_stops_before_crawling_when_setup_fails_witness :
  Re.match_seed (List.nth 1 [py "main.py"; py "http://[ab"] []) = true
  /\ urlparse (check_bracketed_netloc Sample.calm) (nfkc_ok Sample.calm)
       (py "http://[ab") [] = None
  /\ run 7 Sample.calm [py "main.py"; py "http://[ab"] Sample.used
     = (Some 1, add_event Shutdown Sample.used).
Proof.
  split; [reflexivity|]. split; [reflexivity|].
  apply (proj1 (run_stops_before_crawling_when_setup_fails 7 Sample.calm
                  [py "main.py"; py "http://[ab"] Sample.used eq_refl)).
  reflexivity.
Defined.

(** X21. With fuel for the six levels, [main] ends every run with
    [shutdown], once: whatever the arguments and whatever fails, the last
    event is the shutdown and there is no other; and the reset of the
    store is logged at most once, before anything else of the run. *)
Theorem main_shuts_down_last (fuel : nat) (w : World) (argv : list str) (st : State) :
  (6 < fuel)%nat ->
  exists new,
    log (main fuel w argv st).2 = Shutdown :: new ++ log st
    /\ (Shutdown ∉ new)
    /\ (forall later n earlier,
          new = later ++ Dropped n :: earlier ->
          n = url_storage /\ earlier = []
          /\ forall n', Dropped n' ∉ later).
Proof.
  intros Hfuel. unfold main, try_finally.
  assert (forall m : Message,
            (Shutdown ∉ [Print m])
            /\ forall later n earlier,
                 [Print m] = later ++ Dropped n :: earlier ->
                 n = url_storage /\ earlier = [] /\ forall n', Dropped n' ∉ later)
    as Hprint.
  { intros m. split; [by intros [[=]|[]%elem_of_nil]%elem_of_cons|].
    intros [|ev [|ev' later]] n earlier [=]. }
  assert ((Shutdown ∉ @nil Event)
          /\ forall later n earlier,
               @nil Event = later ++ Dropped n :: earlier ->
               n = url_storage /\ earlier = [] /\ forall n', Dropped n' ∉ later)
    as Hnil.
  { split; [by intros []%elem_of_nil|]. by intros [|ev later] n earlier [=]. }
  destruct (length argv <? 2)%nat.
  { exists [Print (MsgUsage (List.hd [] argv))]. unfold bind, print.
    destruct (stdout_fault w (log st) _); by split. }
  destruct (Re.match_seed (List.nth 1 argv [])); cbn [negb];
    [|exists [Print MsgInvalidURL]; unfold bind, print;
      destruct (stdout_fault w (log st) _); by split].
  unfold bind at 1. unfold lift.
  destruct (urlparse _ _ _ []) as [p|]; [|exists []; by split].
  cbn [ret]. unfold bind at 1.
  destruct (reset_store w url_storage st) as [[[]|e|] st1] eqn:Hreset; [| |].
  - assert (log st1 = Dropped url_storage :: log st) as Hlog1.
    { revert Hreset. unfold reset_store. cbn zeta.
      destruct (execute w (log st) Connect _) as [e|d0]; [done|].
      destruct (execute w (log st) DropTable d0) as [e|d1]; [done|].
      destruct (execute w (log st) Commit d1) as [e|d2]; [done|].
      intros [= <-]. cbn [log add_event]. by rewrite log_kept. }
    match goal with
    | |- context [recursive_url_scrap fuel w ?b ?c ?d 6 ?s] =>
        pose proof (recursive_url_scrap_returns fuel w b d 6 c s ltac:(lia)
                      ltac:(change (Z.to_nat 6) with 6%nat; lia)) as Hret;
        pose proof (recursive_url_scrap_describes fuel w b d false ltac:(done) c 6 s)
          as (new & Hlog & _ & _ & Hshape%shape_no_setup & _);
        destruct (recursive_url_scrap fuel w b c d 6 s) as [o st']
    end; cbn [fst snd] in *.
    cbn [log set_visited] in Hlog. rewrite Hlog1 in Hlog.
    rewrite Forall_forall in Hshape.
    exists (new ++ [Dropped url_storage]).
    assert (log (add_event Shutdown st')
            = Shutdown :: (new ++ [Dropped url_storage]) ++ log st) as Hfinal.
    { cbn [log add_event]. by rewrite Hlog, <- app_assoc. }
    split; [by destruct o as [[]|e|]|]. split.
    + intros [Hin|[[=]|[]%elem_of_nil]%elem_of_cons]%elem_of_app.
      by destruct (Hshape _ Hin) as [? _].
    + intros later n earlier Heq.
      assert (later = new /\ n = url_storage /\ earlier = []) as (-> & -> & ->).
      { destruct earlier as [|ev earlier _] using rev_ind.
        - change (later ++ [Dropped n]) with (later ++ [Dropped n]) in Heq.
          apply app_inj_tail in Heq as [-> [= ->]]. done.
        - rewrite app_comm_cons, app_assoc in Heq.
          apply app_inj_tail in Heq as [-> <-].
          assert (Dropped n ∈ later ++ Dropped n :: earlier) as Hin
            by (apply elem_of_app; right; by left).
          by destruct (Hshape _ Hin) as [_ Hd]; destruct (Hd n). }
      split; [done|]. split; [done|]. intros n' Hin.
      by destruct (Hshape _ Hin) as [_ Hd]; destruct (Hd n').
  - apply reset_store_raised in Hreset as (Hlog1 & _).
    exists []. unfold shutdown, emit. cbn [snd log add_event app]. rewrite Hlog1.
    by split.
  - revert Hreset. unfold reset_store. cbn zeta.
    destruct (execute w (log st) Connect _) as [e|d0]; [done|].
    destruct (execute w (log st) DropTable d0) as [e|d1]; [done|].
    by destruct (execute w (log st) Commit d1) as [e|d2].
Qed.

Lemma main_shuts_down_last_witness :
  (6 < 7)%nat
  /\ exists new,
       log (main 7 Sample.calm [py "main.py"; Sample.seed] Sample.used).2
       = Shutdown :: new ++ log Sample.used
       /\ (Shutdown ∉ new).
Proof.
  split; [lia|].
  destruct (main_shuts_down_last 7 Sample.calm [py "main.py"; Sample.seed] Sample.used
              ltac:(lia)) as (new & Hlog & Hno & _).
  exists new. exact (conj Hlog Hno).
Defined.
